(** * Shh.Cash relay node: offer lifecycle, wallet rotation, dispatch client

    A shallow embedding of the TypeScript classes

      - [WalletManager]        (wallet/WalletManager)
      - [DispatcherClient]     (api/DispatcherClient.ts)
      - [TransactionExecutor]  (execution/TransactionExecutor)
      - [Metrics]              (monitoring/Metrics)
      - [ShhNode]              (node/ShhNode)
      - [Logger]               (utils/Logger.ts)

    and of the records of types/index.ts.

    Methods are functions in a state-and-exception monad [Js] over a [World]
    that holds the objects' fields together with the trace of what the
    process has done (HTTP requests, chain calls, log lines, updates of the
    active-offer map).  Whatever lies outside the process
    (the dispatcher behind [fetch], the Solana RPC node, the clock, the
    environment variables, the web3 / spl-token library calls) is an [Env]:
    a record of answers indexed by the number of interactions made so far,
    so that every theorem quantifies over every possible behaviour of the
    outside world, faults included. *)

From Stdlib Require Import ZArith Ascii String List.
From Stdlib Require Import Floats.PrimFloat.
From stdpp Require Import base option list gmap strings pretty.

Set Default Proof Using "Type".
Set Warnings "-inexact-float".
Local Open Scope Z_scope.
Local Open Scope string_scope.

(** ** JavaScript values *)

(** A thrown value, as far as the source looks at one: through
    [error instanceof Error], [error.message], [`${error}`] and, in the
    logger, [JSON.stringify(error)].

    - [JsError m] is [new Error(m)];
    - [JsErrorOf c m] is an error of the subclass named [c] ([TypeError],
      [RangeError], ...) with message [m];
    - [JsBigIntError c m] is an error object of class [c] that holds a
      [bigint] among its enumerable properties, which [JSON.stringify]
      refuses to write;
    - [JsOther s] is a value that is no object (a string, a number, a
      boolean), with the text [s] that [String(value)] gives for it;
    - [JsNull] and [JsUndefined] are [null] and [undefined]. *)
Inductive thrown : Type :=
| JsError (message : string)
| JsOther (shown : string)
| JsErrorOf (class_ message : string)
| JsBigIntError (class_ message : string)
| JsNull
| JsUndefined.

(** [JSON.stringify(value)] returns (an [Error] without enumerable
    properties is written as an empty object); it throws on a [bigint]. *)
Definition json_writable (e : thrown) : bool :=
  match e with
  | JsBigIntError _ _ => false
  | _ => true
  end.

(** The [TypeError] of [JSON.stringify] on a [bigint]. *)
Definition bigint_not_serializable : thrown :=
  JsErrorOf "TypeError" "Do not know how to serialize a BigInt".

(** The result of evaluating a call: it returns, or it throws. *)
Inductive outcome (A : Type) : Type :=
| Ok (a : A)
| Throw (e : thrown).
Arguments Ok {A} a.
Arguments Throw {A} e.

(** A JavaScript number that holds an integer, [NaN] or an infinity.
    Lamport amounts and timer periods are of this kind.  The source's numbers
    are binary64: [Num z] is the double whose value is the integer [z], so
    [z] has at most 53 significant bits; [to_binary64] gives the double
    nearest to any integer.  Fractional SOL balances are kept as binary64
    [float]s. *)
Inductive number : Type :=
| Num (z : Z)
| NaN
| Infinity
| NegInfinity.

(** [a > b] on numbers: false as soon as one side is [NaN]. *)
Definition number_gt (a b : number) : bool :=
  match a, b with
  | Num x, Num y => bool_decide (x > y)
  | Infinity, Num _ | Infinity, NegInfinity | Num _, NegInfinity => true
  | _, _ => false
  end.

(** *** The double nearest to an integer

    A magnitude below 2^53 is a double.  A larger one keeps its 53 leading
    bits: the [e] bits below them are rounded off to the nearest, a tie to
    the even neighbour. *)
Definition round_magnitude (a : Z) : Z :=
  if bool_decide (a < 2 ^ 53) then a
  else
    let e := Z.log2 a - 52 in
    let q := Z.shiftr a e in
    let r := a - Z.shiftl q e in
    let half := 2 ^ (e - 1) in
    let q' :=
      if bool_decide (r > half) || (bool_decide (r = half) && Z.odd q)
      then q + 1 else q in
    Z.shiftl q' e.

(** What rounds to 2^1024 or beyond has no double: it is an infinity. *)
Definition to_binary64 (z : Z) : number :=
  let v := round_magnitude (Z.abs z) in
  if bool_decide (v < 2 ^ 1024) then Num (Z.sgn z * v)
  else if bool_decide (z < 0) then NegInfinity else Infinity.

(** *** [parseInt(s)] with no radix argument

    Leading white space is skipped, one sign is read, a [0x] / [0X] prefix
    selects radix 16, and the longest prefix of digits is the value, as the
    double nearest to it; no digit at all gives [NaN]. *)

Definition is_whitespace (c : ascii) : bool :=
  let n := nat_of_ascii c in
  (Nat.eqb n 32 || (Nat.leb 9 n && Nat.leb n 13))%bool.

Fixpoint trim_start (s : string) : string :=
  match s with
  | String c s' => if is_whitespace c then trim_start s' else s
  | EmptyString => EmptyString
  end.

Definition digit_value (radix : Z) (c : ascii) : option Z :=
  let n := Z.of_nat (nat_of_ascii c) in
  let v :=
    if bool_decide (48 <= n <= 57) then Some (n - 48)
    else if bool_decide (97 <= n <= 122) then Some (n - 87)
    else if bool_decide (65 <= n <= 90) then Some (n - 55)
    else None in
  match v with
  | Some d => if bool_decide (d < radix) then Some d else None
  | None => None
  end.

(** Reads digits while there are some; [acc] is [None] until the first one. *)
Fixpoint parse_digits (radix : Z) (s : string) (acc : option Z) : option Z :=
  match s with
  | String c s' =>
      match digit_value radix c with
      | Some d => parse_digits radix s' (Some (default 0 acc * radix + d))
      | None => acc
      end
  | EmptyString => acc
  end.

Definition strip_hex_prefix (s : string) : option string :=
  match s with
  | String "0" (String "x" s') => Some s'
  | String "0" (String "X" s') => Some s'
  | _ => None
  end.

Definition parseInt (input : string) : number :=
  let s := trim_start input in
  let '(sign, s) :=
    match s with
    | String "-" s' => (-1, s')
    | String "+" s' => (1, s')
    | _ => (1, s)
    end in
  let '(radix, s) :=
    match strip_hex_prefix s with
    | Some s' => (16, s')
    | None => (10, s)
    end in
  match parse_digits radix s None with
  | Some v => to_binary64 (sign * v)
  | None => NaN
  end.

Example parseInt_decimal : parseInt "10000000" = Num 10000000.
Proof. reflexivity. Qed.

Example parseInt_prefix : parseInt "  -12px" = Num (-12).
Proof. reflexivity. Qed.

Example parseInt_fraction : parseInt "0.052341" = Num 0.
Proof. reflexivity. Qed.

Example parseInt_hex : parseInt "0x1F" = Num 31.
Proof. reflexivity. Qed.

Example parseInt_no_digit : parseInt "abc" = NaN ∧ parseInt "" = NaN.
Proof. split; reflexivity. Qed.

(** 2^53 + 1 is no double: it lies half way between 2^53 and 2^53 + 2 and
    goes to the even one; 2^53 + 3 goes up to 2^53 + 4. *)
Example parseInt_rounds :
  parseInt "9007199254740993" = Num 9007199254740992
  ∧ parseInt "9007199254740995" = Num 9007199254740996
  ∧ parseInt "-9007199254740993" = Num (-9007199254740992).
Proof. repeat split; vm_compute; reflexivity. Qed.

(** [1e309], written out, is beyond the largest double. *)
Example parseInt_overflows :
  parseInt ("1" +:+ String.concat "" (replicate 309 "0")) = Infinity.
Proof. vm_compute. reflexivity. Qed.

(** [x || fallback] on an optional string: [undefined] and the empty string
    are falsy. *)
Definition or_default (x : option string) (fallback : string) : string :=
  match x with
  | Some (String c s) => String c s
  | _ => fallback
  end.

(** ** Data model ([src/types/index.ts]) *)

(** [asset] is typed ['SOL' | 'USDC'] but is whatever string the dispatcher
    sent; [execute] has a branch for anything else. *)
Record Offer : Type := {
  id : string;
  partId : string;
  asset : string;
  amount : string;
  recipient : string;
  feeLamports : Z;
  expiresAt : option Z
}.

Record OfferAcceptance : Type := {
  offerId : string;
  nodeId : string;
  acc_timestamp : Z
}.

Record ExecutionReceipt : Type := {
  r_partId : string;
  txSignature : string;
  spentLamports : number;
  feePaid : Z;
  r_timestamp : Z;
  success : bool;
  error : option string
}.

Record WalletBalance : Type := {
  wb_publicKey : string;
  balanceSOL : float;
  balanceUSDC : option float;
  isActive : bool
}.

Inductive HealthLevel : Type := healthy | degraded | unhealthy.

Record HeartbeatData : Type := {
  hb_timestamp : Z;
  hb_status : HealthLevel;
  hb_balances : list WalletBalance;
  hb_activeOffers : nat;
  hb_version : string
}.

Record MetricsSnapshot : Type := {
  offersReceived : nat;
  offersAccepted : nat;
  offersCompleted : nat;
  offersFailed : nat;
  avgExecutionTime : Z;
  totalEarnings : Z;
  snapshot_uptime : Z
}.

Record HealthStatus : Type := {
  status : HealthLevel;
  uptime : float;
  wallets : list WalletBalance;
  hs_activeOffers : nat;
  hs_metrics : MetricsSnapshot
}.

(** The part of [NodeConfig] the node reads. *)
Record NodeConfig : Type := {
  version : string;
  maxConcurrent : Z;
  retry_max : Z
}.

(** ** Solana objects *)

Record Keypair : Type := {
  publicKey : string;
  secretKey : string
}.

Inductive Instruction : Type :=
| SystemTransfer (fromPubkey toPubkey : string) (lamports : number)
| CreateAssociatedTokenAccount (payer ata owner mint : string)
| TokenTransfer (source destination owner : string) (tokens : number).

Record Transaction : Type := {
  instructions : list Instruction;
  recentBlockhash : option string;
  feePayer : option string
}.

(** ** HTTP *)

Inductive JsonBody : Type :=
| NoBody
| AcceptanceBody (a : OfferAcceptance)
| ReceiptBody (r : ExecutionReceipt)
| HeartbeatBody (h : HeartbeatData).

Record AuthHeaders : Type := {
  X_Node_Pubkey : string;
  X_Signature : string;
  X_Timestamp : string
}.

Record Request : Type := {
  url : string;
  method : string;
  headers : AuthHeaders;
  body : JsonBody
}.

(** [response.ok] is [200 <= status < 300]. *)
Record Response : Type := {
  http_status : Z;
  statusText : string
}.

Definition response_ok (r : Response) : bool :=
  bool_decide (200 <= http_status r <= 299).

(** ** The outside world *)

(** Answers of everything the process talks to.  A [nat] argument is the
    number of interactions the process has made before the call, so answers
    may change from one call to the next; calls without it are library
    functions of their arguments.

    [fetch] rejects with a [TypeError] (a network failure) or an abort
    error, objects without enumerable properties: [fetch_rejection] says
    that [JSON.stringify] can write them.  The chain and the key libraries
    may throw anything.

    [toBufferLE] is the amount that the eight bytes bigint-buffer writes
    for a [bigint] outside of [0, 2^64) hold, or the error thrown for it;
    which of the two depends on how the package was built. *)
Record Env : Type := {
  Date_now : nat → Z;
  process_uptime : nat → float;
  process_env : string → option string;
  fetch : nat → Request → outcome Response;
  fetch_rejection :
    ∀ t request e, fetch t request = Throw e → json_writable e = true;
  sign_detached : string → string → string;
  JSON_stringify : JsonBody → string;
  JSON_parse : string → outcome (list string);
  Keypair_fromSecretKey : string → outcome Keypair;
  new_PublicKey : string → outcome string;
  getAssociatedTokenAddress : string → string → outcome string;
  getBalance : nat → string → outcome float;
  getAccount : nat → string → outcome float;
  getLatestBlockhash : nat → outcome string;
  toBufferLE : Z → outcome Z;
  sendAndConfirmTransaction :
    nat → Transaction → list (option Keypair) → Z → outcome string
}.

(** ** Objects of the process *)

Record WalletManager : Type := {
  nodeKeypair : Keypair;
  relayKeypairs : list Keypair;
  currentRelayIndex : nat
}.

(** The fields of [counters] are prefixed with [c_]. *)
Record Metrics : Type := {
  startTime : Z;
  c_offersReceived : nat;
  c_offersAccepted : nat;
  c_offersCompleted : nat;
  c_offersFailed : nat;
  c_heartbeats : nat;
  c_heartbeatErrors : nat;
  executionTimes : list Z;
  m_totalEarnings : Z
}.

(** The handle [setInterval] returned: its period, and whether
    [clearInterval] has been called on it. *)
Record Timer : Type := {
  interval : number;
  cleared : bool
}.

Record ShhNode : Type := {
  config : NodeConfig;
  baseUrl : string;
  walletManager : WalletManager;
  metrics : Metrics;
  isRunning : bool;
  activeOffers : gmap string Offer;
  heartbeatInterval : option Timer;
  healthServerStarted : bool
}.

Inductive LogLevel : Type := INFO | WARN | ERROR | DEBUG.

(** One constructor per log statement of the modelled methods, with the
    values interpolated into its text. *)
Inductive LogMsg : Type :=
| NodeSignerLoaded (address : string)
| RelayWalletLoaded (walletNo : nat) (address : string)
| LowBalanceWallets (addresses : string)
| WalletsProperlyFunded (funded total : nat)
| FailedToGetBalance (walletNo : nat) (e : thrown)
| DisconnectedFromDispatcher
| HeartbeatFailedStatus (text : string)
| ExecutingOffer (offer_id asset_ amount_ : string)
| CreatingUsdcAta (ata : string)
| ExecutedOffer (offer_id : string) (ms : Z) (signature : string)
| FailedToExecute (offer_id : string) (ms : Z) (e : thrown)
| ReceivedOffer (offer_id asset_ amount_ : string)
| InvalidOfferSkipping (offer_id : string)
| ClaimedByAnotherNode (offer_id : string)
| AcceptedOfferExecuting (offer_id : string)
| CompletedOffer (offer_id signature : string)
| FailedToExecuteOffer (offer_id : string) (e : thrown)
| ExceedsPerTxLimit (offer_id amount_ : string) (maxPerTx : number)
| AtCapacity (active : nat) (limit : Z)
| OfferHasExpired (offer_id : string)
| StoppingNode
| WaitingForActiveOffers (active : nat)
| NodeStopped
| OffersStillActive (active : nat)
| HealthServerStopped
| HeartbeatSent
| HeartbeatFailed (e : thrown).

Record LogLine : Type := {
  level : LogLevel;
  component : string;
  message : LogMsg
}.

(** What an observer of the process sees, in order: the calls to the
    dispatcher and to the chain whose answers the properties below speak
    about, each with the answer it got; the log lines; and the updates of the
    active-offer map. *)
Inductive Event : Type :=
| Fetch (request : Request) (answer : outcome Response)
| SendAndConfirm (transaction : Transaction) (signers : list (option Keypair))
    (maxRetries : Z) (answer : outcome string)
| GetAccount (address : string) (answer : outcome float)
| Log (line : LogLine)
| ActiveSet (offer_id : string) (offer : Offer)
| ActiveDelete (offer_id : string).

(** The process: its objects, the number of interactions it has had with
    the outside world, and the events so far (oldest first). *)
Record World : Type := {
  node : ShhNode;
  interactions : nat;
  trace : list Event
}.

(** ** The monad of method bodies *)

(** [Pending]: the promise has not settled within the polls the model was
    given (only a polling loop produces it). *)
Inductive settled (A : Type) : Type :=
| Settled (o : outcome A)
| Pending.
Arguments Settled {A} o.
Arguments Pending {A}.

Definition Js (A : Type) : Type := World → settled A * World.

Definition js_ret {A} (a : A) : Js A := λ w, (Settled (Ok a), w).

Definition js_bind {A B} (k : A → Js B) (m : Js A) : Js B :=
  λ w, match m w with
       | (Settled (Ok a), w') => k a w'
       | (Settled (Throw e), w') => (Settled (Throw e), w')
       | (Pending, w') => (Pending, w')
       end.

Global Instance Js_ret : MRet Js := @js_ret.
Global Instance Js_bind : MBind Js := @js_bind.

Definition throw {A} (e : thrown) : Js A := λ w, (Settled (Throw e), w).

(** [try { body } catch (error) { handler(error) }]. *)
Definition try_catch {A} (body : Js A) (handler : thrown → Js A) : Js A :=
  λ w, match body w with
       | (Settled (Throw e), w') => handler e w'
       | r => r
       end.

Definition get_node : Js ShhNode := λ w, (Settled (Ok (node w)), w).

Definition set_node (f : ShhNode → ShhNode) : Js unit :=
  λ w, (Settled (Ok tt),
        {| node := f (node w); interactions := interactions w;
           trace := trace w |}).

Definition emit (e : Event) : Js unit :=
  λ w, (Settled (Ok tt),
        {| node := node w; interactions := interactions w;
           trace := trace w ++ [e] |}).

(** One interaction with the outside world. *)
Definition interact {A} (answer : nat → outcome A) : Js A :=
  λ w, (Settled (answer (interactions w)),
        {| node := node w; interactions := S (interactions w);
           trace := trace w |}).

(** An interaction that is recorded, with its answer, in the trace. *)
Definition observe {A} (answer : nat → outcome A) (event : outcome A → Event)
    : Js A :=
  λ w, let o := answer (interactions w) in
       (Settled o,
        {| node := node w; interactions := S (interactions w);
           trace := trace w ++ [event o] |}).

(** A library call: no interaction, but it may throw. *)
Definition lib {A} (o : outcome A) : Js A := λ w, (Settled o, w).

(** [error instanceof Error ? error.message : String(error)] *)
Definition error_text (e : thrown) : string :=
  match e with
  | JsError m | JsErrorOf _ m | JsBigIntError _ m => m
  | JsOther s => s
  | JsNull => "null"
  | JsUndefined => "undefined"
  end.

(** [Error.prototype.toString]: the name of the class, then the message,
    if there is one. *)
Definition Error_toString (class_ message_ : string) : string :=
  if bool_decide (message_ = "") then class_
  else class_ +:+ ": " +:+ message_.

(** [`${error}`], which is [String(error)]. *)
Definition template_text (e : thrown) : string :=
  match e with
  | JsError m => Error_toString "Error" m
  | JsErrorOf c m | JsBigIntError c m => Error_toString c m
  | JsOther s => s
  | JsNull => "null"
  | JsUndefined => "undefined"
  end.

(** The [TypeError] of reading a property of [undefined] or [null]. *)
Definition cannot_read (value what : string) : thrown :=
  JsErrorOf "TypeError"
    ("Cannot read properties of " +:+ value +:+ " (reading '" +:+ what
       +:+ "')").

(** Reading a property of a value that may be [undefined]. *)
Definition property {A B} (what : string) (x : option A) (f : A → B) : Js B :=
  match x with
  | Some a => mret (f a)
  | None => throw (cannot_read "undefined" what)
  end.

Section Process.

Variable env : Env.

(** ** [Logger] *)

(** The values a log statement passes to the logger after the message
    text.  The statements of the modelled methods pass nothing or the error
    they caught; an error interpolated into the text is no argument. *)
Definition log_arguments (m : LogMsg) : list thrown :=
  match m with
  | FailedToExecute _ _ e | FailedToExecuteOffer _ e | HeartbeatFailed e => [e]
  | _ => []
  end.

(** [formatMessage] writes an argument with [JSON.stringify] when
    [typeof arg === 'object'] and with [String] otherwise; the former throws
    on an error object that holds a [bigint], and so does the log statement,
    before anything is printed. *)
Definition formatMessage (m : LogMsg) : outcome LogMsg :=
  if forallb json_writable (log_arguments m) then Ok m
  else Throw bigint_not_serializable.

Definition logger_log (l : LogLevel) (c : string) (m : LogMsg) : Js unit :=
  formatted ← lib (formatMessage m);
  emit (Log {| level := l; component := c; message := formatted |}).

Definition logger_info (c : string) (m : LogMsg) : Js unit :=
  logger_log INFO c m.

Definition logger_warn (c : string) (m : LogMsg) : Js unit :=
  logger_log WARN c m.

Definition logger_error (c : string) (m : LogMsg) : Js unit :=
  logger_log ERROR c m.

Definition logger_debug (c : string) (m : LogMsg) : Js unit :=
  if bool_decide (process_env env "LOG_LEVEL" = Some "debug")
  then logger_log DEBUG c m
  else mret tt.

(** ** [Metrics] *)

Definition set_metrics (f : Metrics → Metrics) : Js unit :=
  set_node (λ n,
    {| config := config n; baseUrl := baseUrl n;
       walletManager := walletManager n; metrics := f (metrics n);
       isRunning := isRunning n; activeOffers := activeOffers n;
       heartbeatInterval := heartbeatInterval n;
       healthServerStarted := healthServerStarted n |}).

Definition recordOfferAccepted : Js unit :=
  set_metrics (λ m,
    {| startTime := startTime m; c_offersReceived := c_offersReceived m;
       c_offersAccepted := S (c_offersAccepted m);
       c_offersCompleted := c_offersCompleted m;
       c_offersFailed := c_offersFailed m; c_heartbeats := c_heartbeats m;
       c_heartbeatErrors := c_heartbeatErrors m;
       executionTimes := executionTimes m;
       m_totalEarnings := m_totalEarnings m |}).

(** Keeps the last 100 execution times. *)
Definition push_executionTime (t : Z) (ts : list Z) : list Z :=
  let ts' := (ts ++ [t])%list in
  if bool_decide (100 < List.length ts')%nat then tail ts' else ts'.

Definition recordOfferCompleted (executionTimeMs : Z) : Js unit :=
  set_metrics (λ m,
    {| startTime := startTime m; c_offersReceived := c_offersReceived m;
       c_offersAccepted := c_offersAccepted m;
       c_offersCompleted := S (c_offersCompleted m);
       c_offersFailed := c_offersFailed m; c_heartbeats := c_heartbeats m;
       c_heartbeatErrors := c_heartbeatErrors m;
       executionTimes := push_executionTime executionTimeMs (executionTimes m);
       m_totalEarnings := m_totalEarnings m |}).

Definition recordOfferFailed : Js unit :=
  set_metrics (λ m,
    {| startTime := startTime m; c_offersReceived := c_offersReceived m;
       c_offersAccepted := c_offersAccepted m;
       c_offersCompleted := c_offersCompleted m;
       c_offersFailed := S (c_offersFailed m); c_heartbeats := c_heartbeats m;
       c_heartbeatErrors := c_heartbeatErrors m;
       executionTimes := executionTimes m;
       m_totalEarnings := m_totalEarnings m |}).

Definition recordHeartbeat : Js unit :=
  set_metrics (λ m,
    {| startTime := startTime m; c_offersReceived := c_offersReceived m;
       c_offersAccepted := c_offersAccepted m;
       c_offersCompleted := c_offersCompleted m;
       c_offersFailed := c_offersFailed m; c_heartbeats := S (c_heartbeats m);
       c_heartbeatErrors := c_heartbeatErrors m;
       executionTimes := executionTimes m;
       m_totalEarnings := m_totalEarnings m |}).

Definition recordHeartbeatError : Js unit :=
  set_metrics (λ m,
    {| startTime := startTime m; c_offersReceived := c_offersReceived m;
       c_offersAccepted := c_offersAccepted m;
       c_offersCompleted := c_offersCompleted m;
       c_offersFailed := c_offersFailed m; c_heartbeats := c_heartbeats m;
       c_heartbeatErrors := S (c_heartbeatErrors m);
       executionTimes := executionTimes m;
       m_totalEarnings := m_totalEarnings m |}).

(** [Math.round] of the mean of the kept execution times, [0] when there is
    none. *)
Definition average (ts : list Z) : Z :=
  match ts with
  | [] => 0
  | _ => (2 * foldr Z.add 0 ts + Z.of_nat (List.length ts))
           `div` (2 * Z.of_nat (List.length ts))
  end.

Definition getSnapshot : Js MetricsSnapshot :=
  n ← get_node;
  now ← interact (λ t, Ok (Date_now env t));
  let m := metrics n in
  mret {| offersReceived := c_offersReceived m;
          offersAccepted := c_offersAccepted m;
          offersCompleted := c_offersCompleted m;
          offersFailed := c_offersFailed m;
          avgExecutionTime := average (executionTimes m);
          totalEarnings := m_totalEarnings m;
          snapshot_uptime := now - startTime m |}.

(** ** [WalletManager] *)

(** The loop of [loadRelaySigners] over the parsed secrets
    ([Keypair_fromSecretKey] stands for [Buffer.from(secret, 'base64')]
    followed by [Keypair.fromSecretKey]). *)
Fixpoint loadRelaySigners_from (index : nat) (relaySecrets : list string)
    (keypairs : list Keypair) (logs : list LogLine)
    : outcome (list Keypair) * list LogLine :=
  match relaySecrets with
  | [] => (Ok keypairs, logs)
  | secret :: rest =>
      match Keypair_fromSecretKey env secret with
      | Ok keypair =>
          loadRelaySigners_from (S index) rest (keypairs ++ [keypair])
            (logs ++ [{| level := INFO; component := "WalletManager";
                         message := RelayWalletLoaded (index + 1)
                                      (publicKey keypair) |}])
      | Throw e => (Throw e, logs)
      end
  end.

(** [loadRelaySigners]: the relay keypairs, or the error the constructor
    throws; with them the lines logged on the way. *)
Definition loadRelaySigners : outcome (list Keypair) * list LogLine :=
  match process_env env "RELAY_SIGNERS" with
  | Some (String c s) =>
      let '(loaded, logs) :=
        match JSON_parse env (String c s) with
        | Ok relaySecrets =>
            match loadRelaySigners_from 0 relaySecrets [] [] with
            | (Ok keypairs, logs) =>
                if bool_decide (List.length keypairs = 0%nat)
                then (Throw (JsError "At least one relay signer is required"),
                      logs)
                else (Ok keypairs, logs)
            | (Throw e, logs) => (Throw e, logs)
            end
        | Throw e => (Throw e, [])
        end in
      match loaded with
      | Ok keypairs => (Ok keypairs, logs)
      | Throw error =>
          (Throw (JsError ("Failed to load relay signers: "
                             +:+ template_text error)), logs)
      end
  | _ => (Throw (JsError "RELAY_SIGNERS environment variable is required"), [])
  end.

(** The constructor of [WalletManager]. *)
Definition WalletManager_new : outcome WalletManager * list LogLine :=
  match process_env env "NODE_SIGNER_SECRET" with
  | Some (String c s) =>
      match Keypair_fromSecretKey env (String c s) with
      | Ok keypair =>
          let loaded :=
            {| level := INFO; component := "WalletManager";
               message := NodeSignerLoaded (publicKey keypair) |} in
          match loadRelaySigners with
          | (Ok keypairs, logs) =>
              (Ok {| nodeKeypair := keypair; relayKeypairs := keypairs;
                     currentRelayIndex := 0 |}, loaded :: logs)
          | (Throw e, logs) => (Throw e, loaded :: logs)
          end
      | Throw error =>
          (Throw (JsError ("Failed to load node signer: "
                             +:+ template_text error)), [])
      end
  | _ =>
      (Throw (JsError "NODE_SIGNER_SECRET environment variable is required"),
       [])
  end.

Definition set_walletManager (f : WalletManager → WalletManager) : Js unit :=
  set_node (λ n,
    {| config := config n; baseUrl := baseUrl n;
       walletManager := f (walletManager n); metrics := metrics n;
       isRunning := isRunning n; activeOffers := activeOffers n;
       heartbeatInterval := heartbeatInterval n;
       healthServerStarted := healthServerStarted n |}).

(** [relayKeypairs[currentRelayIndex]] is [undefined] ([None]) out of range. *)
Definition getNextRelayWallet : Js (option Keypair) :=
  n ← get_node;
  let wm := walletManager n in
  if bool_decide (List.length (relayKeypairs wm) = 0%nat)
  then throw (JsError "No relay wallets available")
  else
    let wallet := relayKeypairs wm !! currentRelayIndex wm in
    set_walletManager (λ wm,
      {| nodeKeypair := nodeKeypair wm; relayKeypairs := relayKeypairs wm;
         currentRelayIndex :=
           (currentRelayIndex wm + 1) `mod` List.length (relayKeypairs wm) |}) ;;
    mret wallet.

Definition getRelayWalletByIndex (index : Z) : Js (option Keypair) :=
  n ← get_node;
  let wm := walletManager n in
  if bool_decide (index < 0 ∨ index >= Z.of_nat (List.length (relayKeypairs wm)))
  then mret None
  else mret (relayKeypairs wm !! Z.to_nat index).

(** The USDC mint (mainnet). *)
Definition USDC_MINT : string := "EPjFWdd5AufqSSqeM2qN1xzybapC8G4wEGGkZwyTDt1v".

Definition LAMPORTS_PER_SOL : float := 1000000000%float.

(** The inner [try] of [getBalances]: the wallet's USDC balance, or
    [undefined] when the token account cannot be read. *)
Definition usdcBalance (keypair : Keypair) : Js (option float) :=
  try_catch
    (usdcMint ← lib (new_PublicKey env USDC_MINT);
     ata ← lib (getAssociatedTokenAddress env usdcMint (publicKey keypair));
     account_amount ← observe (λ t, getAccount env t ata) (GetAccount ata);
     mret (Some (account_amount / 1000000)%float))
    (λ _, mret None).

(** The loop of [getBalances] from wallet number [index] on: one entry per
    relay wallet, in order; a failed balance query is recorded as a zero
    balance of an inactive wallet. *)
Fixpoint getBalances_from (index : nat) (keypairs : list Keypair)
    (balances : list WalletBalance) : Js (list WalletBalance) :=
  match keypairs with
  | [] => mret balances
  | keypair :: rest =>
      entry ← try_catch
        (balance ← interact (λ t, getBalance env t (publicKey keypair));
         let balanceSOL := (balance / LAMPORTS_PER_SOL)%float in
         balanceUSDC ← usdcBalance keypair;
         mret {| wb_publicKey := publicKey keypair;
                 balanceSOL := balanceSOL;
                 balanceUSDC := balanceUSDC;
                 isActive := PrimFloat.leb 0.001%float balanceSOL |})
        (λ error,
         logger_warn "WalletManager" (FailedToGetBalance (index + 1) error) ;;
         mret {| wb_publicKey := publicKey keypair;
                 balanceSOL := 0%float;
                 balanceUSDC := None;
                 isActive := false |});
      getBalances_from (S index) rest (balances ++ [entry])%list
  end.

Definition getBalances : Js (list WalletBalance) :=
  n ← get_node;
  getBalances_from 0 (relayKeypairs (walletManager n)) [].

(** [w.balanceSOL < minBalance] with [minBalance = 0.01]. *)
Definition minBalance : float := 0.01%float.

Definition lowBalance (w : WalletBalance) : bool :=
  PrimFloat.ltb (balanceSOL w) minBalance.

Definition validateBalances : Js unit :=
  balances ← getBalances;
  let lowBalanceWallets := List.filter lowBalance balances in
  (if bool_decide (0 < List.length lowBalanceWallets)%nat
   then
     let addresses := String.concat ", " (map wb_publicKey lowBalanceWallets) in
     logger_warn "WalletManager" (LowBalanceWallets addresses)
   else mret tt) ;;
  if bool_decide (List.length lowBalanceWallets = List.length balances)
  then throw (JsError
    "All wallets have insufficient balance. Please fund your relay wallets.")
  else
    logger_info "WalletManager"
      (WalletsProperlyFunded
         (List.length balances - List.length lowBalanceWallets)
         (List.length balances)).

(** ** [DispatcherClient] *)

Definition getAuthHeaders (method_ path body_ : string) : Js AuthHeaders :=
  timestamp ← interact (λ t, Ok (Date_now env t));
  n ← get_node;
  let key := nodeKeypair (walletManager n) in
  let message_ := pretty timestamp +:+ method_ +:+ path +:+ body_ in
  mret {| X_Node_Pubkey := publicKey key;
          X_Signature := sign_detached env message_ (secretKey key);
          X_Timestamp := pretty timestamp |}.

(** [fetch(baseUrl + path, { method: 'POST', headers, body })] *)
Definition post (path : string) (payload : JsonBody) : Js Response :=
  let body_ := JSON_stringify env payload in
  n ← get_node;
  auth ← getAuthHeaders "POST" path body_;
  let request := {| url := baseUrl n +:+ path; method := "POST";
                    headers := auth; body := payload |} in
  observe (λ t, fetch env t request) (Fetch request).

Definition acceptOffer (acceptance : OfferAcceptance) : Js bool :=
  response ← post "/api/node/accept" (AcceptanceBody acceptance);
  if bool_decide (http_status response = 409) then mret false
  else if negb (response_ok response)
  then throw (JsError ("Failed to accept offer: " +:+ statusText response))
  else mret true.

Definition submitReceipt (receipt : ExecutionReceipt) : Js unit :=
  response ← post "/api/node/receipt" (ReceiptBody receipt);
  if negb (response_ok response)
  then throw (JsError ("Failed to submit receipt: " +:+ statusText response))
  else mret tt.

Definition sendHeartbeat (heartbeat : HeartbeatData) : Js unit :=
  response ← post "/api/node/heartbeat" (HeartbeatBody heartbeat);
  if negb (response_ok response)
  then logger_warn "DispatcherClient"
         (HeartbeatFailedStatus (statusText response))
  else mret tt.

Definition disconnect : Js unit :=
  logger_info "DispatcherClient" DisconnectedFromDispatcher.

(** ** [TransactionExecutor] *)

(** [BigInt(x)] of a number: there is none of [NaN] or an infinity. *)
Definition BigInt (x : number) : outcome Z :=
  match x with
  | Num z => Ok z
  | NaN =>
      Throw (JsErrorOf "RangeError"
        "The number NaN cannot be converted to a BigInt because it is not an integer")
  | Infinity =>
      Throw (JsErrorOf "RangeError"
        "The number Infinity cannot be converted to a BigInt because it is not an integer")
  | NegInfinity =>
      Throw (JsErrorOf "RangeError"
        "The number -Infinity cannot be converted to a BigInt because it is not an integer")
  end.

(** The [u64] encoder of web3.js refuses a [bigint] outside of [0, 2^64)
    with an error that carries the bounds and the value, three [bigint]s. *)
Definition u64_codec (z : Z) : outcome Z :=
  if bool_decide (0 <= z < 2 ^ 64) then Ok z
  else
    Throw (JsBigIntError "SolanaError"
      ("Codec [u64] expected number to be in the range [0, 18446744073709551615], got "
         +:+ pretty z +:+ ".")).

(** [SystemProgram.transfer({ fromPubkey, toPubkey, lamports })] encodes
    [BigInt(lamports)] as a [u64]. *)
Definition SystemProgram_transfer (fromPubkey toPubkey : string)
    (lamports : number) : outcome Instruction :=
  match BigInt lamports with
  | Ok z =>
      match u64_codec z with
      | Ok z' => Ok (SystemTransfer fromPubkey toPubkey (Num z'))
      | Throw e => Throw e
      end
  | Throw e => Throw e
  end.

(** The [u64] layout spl-token encodes amounts with writes the [bigint]
    with bigint-buffer's [toBufferLE]. *)
Definition u64_layout (z : Z) : outcome Z :=
  if bool_decide (0 <= z < 2 ^ 64) then Ok z else toBufferLE env z.

(** [createTransferInstruction(source, destination, owner, amount)] encodes
    [BigInt(amount)] in that layout. *)
Definition createTransferInstruction (source destination owner : string)
    (amount_ : number) : outcome Instruction :=
  match BigInt amount_ with
  | Ok z =>
      match u64_layout z with
      | Ok z' => Ok (TokenTransfer source destination owner (Num z'))
      | Throw e => Throw e
      end
  | Throw e => Throw e
  end.

Definition createSOLTransfer (fromWallet : option Keypair)
    (recipient_ amount_ : string) : Js Transaction :=
  let lamports := parseInt amount_ in
  fromPubkey ← property "publicKey" fromWallet publicKey;
  transfer ← lib (SystemProgram_transfer fromPubkey recipient_ lamports);
  blockhash ← interact (getLatestBlockhash env);
  feePayer_ ← property "publicKey" fromWallet publicKey;
  mret {| instructions := [transfer];
          recentBlockhash := Some blockhash;
          feePayer := Some feePayer_ |}.

(** [0.002 * LAMPORTS_PER_SOL], the estimate charged for creating the
    recipient's token account; the product is the integer 2000000 in binary64
    (lemma [ata_creation_fee_binary64]). *)
Definition ATA_CREATION_FEE : Z := 2000000.

Definition createUSDCTransfer (fromWallet : option Keypair)
    (recipient_ amount_ : string) : Js (Transaction * number) :=
  let usdcAmount := parseInt amount_ in
  owner ← property "publicKey" fromWallet publicKey;
  fromATA ← lib (getAssociatedTokenAddress env USDC_MINT owner);
  toATA ← lib (getAssociatedTokenAddress env USDC_MINT recipient_);
  '(created, feesPaid) ← try_catch
    (observe (λ t, getAccount env t toATA) (GetAccount toATA) ;;
     mret ([], 0))
    (λ _,
     logger_info "TransactionExecutor" (CreatingUsdcAta toATA) ;;
     payer ← property "publicKey" fromWallet publicKey;
     mret ([CreateAssociatedTokenAccount payer toATA recipient_ USDC_MINT],
           0 + ATA_CREATION_FEE));
  owner' ← property "publicKey" fromWallet publicKey;
  transfer ← lib (createTransferInstruction fromATA toATA owner' usdcAmount);
  blockhash ← interact (getLatestBlockhash env);
  feePayer_ ← property "publicKey" fromWallet publicKey;
  mret ({| instructions := created ++ [transfer];
           recentBlockhash := Some blockhash;
           feePayer := Some feePayer_ |},
        Num feesPaid).

(** The body of the [try] block of [execute]. *)
Definition execute_try (offer : Offer) (startTime_ : Z) : Js ExecutionReceipt :=
  logger_info "TransactionExecutor"
    (ExecutingOffer (id offer) (asset offer) (amount offer)) ;;
  fromWallet ← getNextRelayWallet;
  recipient_ ← lib (new_PublicKey env (recipient offer));
  '(transaction, spentLamports_) ←
    (if bool_decide (asset offer = "SOL") then
       transaction ← createSOLTransfer fromWallet recipient_ (amount offer);
       mret (transaction, parseInt (amount offer))
     else if bool_decide (asset offer = "USDC") then
       createUSDCTransfer fromWallet recipient_ (amount offer)
     else
       throw (JsError ("Unsupported asset: " +:+ asset offer)));
  n ← get_node;
  signature ← observe
    (λ t, sendAndConfirmTransaction env t transaction [fromWallet]
            (retry_max (config n)))
    (SendAndConfirm transaction [fromWallet] (retry_max (config n)));
  now ← interact (λ t, Ok (Date_now env t));
  logger_info "TransactionExecutor"
    (ExecutedOffer (id offer) (now - startTime_) signature) ;;
  timestamp ← interact (λ t, Ok (Date_now env t));
  mret {| r_partId := partId offer;
          txSignature := signature;
          spentLamports := spentLamports_;
          feePaid := feeLamports offer;
          r_timestamp := timestamp;
          success := true;
          error := None |}.

(** The [catch (error)] block of [execute]. *)
Definition execute_catch (offer : Offer) (startTime_ : Z) (e : thrown)
    : Js ExecutionReceipt :=
  now ← interact (λ t, Ok (Date_now env t));
  logger_error "TransactionExecutor"
    (FailedToExecute (id offer) (now - startTime_) e) ;;
  timestamp ← interact (λ t, Ok (Date_now env t));
  mret {| r_partId := partId offer;
          txSignature := "";
          spentLamports := Num 0;
          feePaid := 0;
          r_timestamp := timestamp;
          success := false;
          error := Some (error_text e) |}.

Definition execute (offer : Offer) : Js ExecutionReceipt :=
  startTime_ ← interact (λ t, Ok (Date_now env t));
  try_catch (execute_try offer startTime_) (execute_catch offer startTime_).

(** ** [ShhNode] *)

Definition set_activeOffers
    (f : gmap string Offer → gmap string Offer) : Js unit :=
  set_node (λ n,
    {| config := config n; baseUrl := baseUrl n;
       walletManager := walletManager n; metrics := metrics n;
       isRunning := isRunning n; activeOffers := f (activeOffers n);
       heartbeatInterval := heartbeatInterval n;
       healthServerStarted := healthServerStarted n |}).

(** [this.activeOffers.set(key, offer)] *)
Definition activeOffers_set (key : string) (offer : Offer) : Js unit :=
  set_activeOffers (insert key offer) ;;
  emit (ActiveSet key offer).

(** [this.activeOffers.delete(key)] *)
Definition activeOffers_delete (key : string) : Js unit :=
  set_activeOffers (delete key) ;;
  emit (ActiveDelete key).

(** [offer.expiresAt && ...]: an absent expiry and the expiry [0] are
    falsy. *)
Definition truthy (x : option Z) : bool :=
  match x with
  | Some z => negb (bool_decide (z = 0))
  | None => false
  end.

Definition maxPerTx : number :=
  parseInt (or_default (process_env env "MAX_PER_TX_LAMPORTS") "500000000").

Definition validateOffer (offer : Offer) : Js bool :=
  if bool_decide (asset offer = "SOL")
     && number_gt (parseInt (amount offer)) maxPerTx
  then
    logger_warn "ShhNode"
      (ExceedsPerTxLimit (id offer) (amount offer) maxPerTx) ;;
    mret false
  else
    n ← get_node;
    if bool_decide (Z.of_nat (size (activeOffers n)) >= maxConcurrent (config n))
    then
      logger_warn "ShhNode"
        (AtCapacity (size (activeOffers n)) (maxConcurrent (config n))) ;;
      mret false
    else
      expired ←
        (if truthy (expiresAt offer)
         then
           now ← interact (λ t, Ok (Date_now env t));
           mret (bool_decide (now > default 0 (expiresAt offer)))
         else mret false);
      if expired : bool
      then
        logger_warn "ShhNode" (OfferHasExpired (id offer)) ;;
        mret false
      else mret true.

(** The body of the [try] block of [handleOffer]. *)
Definition handleOffer_try (offer : Offer) (startTime_ : Z) : Js unit :=
  logger_info "ShhNode"
    (ReceivedOffer (id offer) (asset offer) (amount offer)) ;;
  valid ← validateOffer offer;
  if negb valid
  then logger_warn "ShhNode" (InvalidOfferSkipping (id offer))
  else
    n ← get_node;
    timestamp ← interact (λ t, Ok (Date_now env t));
    let acceptance :=
      {| offerId := id offer;
         nodeId := publicKey (nodeKeypair (walletManager n));
         acc_timestamp := timestamp |} in
    accepted ← acceptOffer acceptance;
    if negb accepted
    then logger_info "ShhNode" (ClaimedByAnotherNode (id offer))
    else
      activeOffers_set (id offer) offer ;;
      recordOfferAccepted ;;
      logger_info "ShhNode" (AcceptedOfferExecuting (id offer)) ;;
      receipt ← execute offer;
      submitReceipt receipt ;;
      activeOffers_delete (id offer) ;;
      now ← interact (λ t, Ok (Date_now env t));
      recordOfferCompleted (now - startTime_) ;;
      logger_info "ShhNode" (CompletedOffer (id offer) (txSignature receipt)).

(** The [catch (error)] block of [handleOffer]. *)
Definition handleOffer_catch (offer : Offer) (e : thrown) : Js unit :=
  activeOffers_delete (id offer) ;;
  recordOfferFailed ;;
  logger_error "ShhNode" (FailedToExecuteOffer (id offer) e).

Definition handleOffer (offer : Offer) : Js unit :=
  startTime_ ← interact (λ t, Ok (Date_now env t));
  try_catch (handleOffer_try offer startTime_) (handleOffer_catch offer).

(** The status [getHealthStatus] computes from the balances. *)
Definition healthLevel (wallets_ : list WalletBalance) : HealthLevel :=
  let lowBalanceWallets := List.filter lowBalance wallets_ in
  if bool_decide (0 < List.length lowBalanceWallets)%nat
  then
    if bool_decide (List.length lowBalanceWallets = List.length wallets_)
    then unhealthy
    else degraded
  else healthy.

Definition getHealthStatus : Js HealthStatus :=
  wallets_ ← getBalances;
  let status_ := healthLevel wallets_ in
  uptime_ ← interact (λ t, Ok (process_uptime env t));
  n ← get_node;
  snapshot ← getSnapshot;
  mret {| status := status_;
          uptime := uptime_;
          wallets := wallets_;
          hs_activeOffers := size (activeOffers n);
          hs_metrics := snapshot |}.

(** The callback [startHeartbeat] hands to [setInterval]. *)
Definition heartbeat_tick : Js unit :=
  try_catch
    (status_ ← getHealthStatus;
     timestamp ← interact (λ t, Ok (Date_now env t));
     n ← get_node;
     sendHeartbeat {| hb_timestamp := timestamp;
                      hb_status := status status_;
                      hb_balances := wallets status_;
                      hb_activeOffers := size (activeOffers n);
                      hb_version := version (config n) |} ;;
     recordHeartbeat ;;
     logger_debug "ShhNode" HeartbeatSent)
    (λ error,
     logger_warn "ShhNode" (HeartbeatFailed error) ;;
     recordHeartbeatError).

Definition set_heartbeatInterval (t : option Timer) : Js unit :=
  set_node (λ n,
    {| config := config n; baseUrl := baseUrl n;
       walletManager := walletManager n; metrics := metrics n;
       isRunning := isRunning n; activeOffers := activeOffers n;
       heartbeatInterval := t;
       healthServerStarted := healthServerStarted n |}).

(** [startHeartbeat] arms the timer; the callback runs later, from the
    event loop ([heartbeat_fires]). *)
Definition startHeartbeat : Js unit :=
  let interval_ :=
    parseInt (or_default (process_env env "HEARTBEAT_INTERVAL_MS") "30000") in
  set_heartbeatInterval (Some {| interval := interval_; cleared := false |}).

(** A period of the heartbeat timer elapses: the event loop runs the
    callback if the timer is armed and [clearInterval] has not been called
    on it. *)
Definition heartbeat_fires : Js unit :=
  n ← get_node;
  match heartbeatInterval n with
  | Some timer => if cleared timer then mret tt else heartbeat_tick
  | None => mret tt
  end.

Definition set_isRunning (b : bool) : Js unit :=
  set_node (λ n,
    {| config := config n; baseUrl := baseUrl n;
       walletManager := walletManager n; metrics := metrics n;
       isRunning := b; activeOffers := activeOffers n;
       heartbeatInterval := heartbeatInterval n;
       healthServerStarted := healthServerStarted n |}).

Definition pending {A} : Js A := λ w, (Pending, w).

(** The loop of [waitForActiveOffers], run for at most [polls] rounds of
    [setTimeout(resolve, 1000)]. *)
Fixpoint waitForActiveOffers_loop (polls : nat) (start timeoutMs : Z)
    : Js unit :=
  n ← get_node;
  if bool_decide (0 < size (activeOffers n))%nat
  then
    now ← interact (λ t, Ok (Date_now env t));
    if bool_decide (now - start < timeoutMs)
    then
      match polls with
      | O => pending
      | S polls' =>
          interact (λ _, Ok tt) ;;
          waitForActiveOffers_loop polls' start timeoutMs
      end
    else mret tt
  else mret tt.

Definition waitForActiveOffers (polls : nat) (timeoutMs : Z) : Js unit :=
  start ← interact (λ t, Ok (Date_now env t));
  waitForActiveOffers_loop polls start timeoutMs ;;
  n ← get_node;
  if bool_decide (0 < size (activeOffers n))%nat
  then logger_warn "ShhNode" (OffersStillActive (size (activeOffers n)))
  else mret tt.

(** [HealthServer.stop] *)
Definition healthServer_stop : Js unit :=
  n ← get_node;
  if negb (healthServerStarted n) then mret tt
  else logger_info "HealthServer" HealthServerStopped.

Definition stop (polls : nat) : Js unit :=
  n ← get_node;
  if negb (isRunning n) then mret tt
  else
    logger_info "ShhNode" StoppingNode ;;
    set_isRunning false ;;
    (match heartbeatInterval n with
     | Some timer =>
         set_heartbeatInterval
           (Some {| interval := interval timer; cleared := true |})
     | None => mret tt
     end) ;;
    n ← get_node;
    (if bool_decide (0 < size (activeOffers n))%nat
     then
       logger_info "ShhNode" (WaitingForActiveOffers (size (activeOffers n))) ;;
       waitForActiveOffers polls 30000
     else mret tt) ;;
    disconnect ;;
    healthServer_stop ;;
    logger_info "ShhNode" NodeStopped.

End Process.

(** ** Construction, start-up and monitoring

    [validateEnvironment], the constructors, [ShhNode.start],
    [DispatcherClient.connect] and the [HealthServer].  They talk to a
    little more of the outside world (a [Net]) and log lines of their own
    ([HostMsg]); their world is a [Host]: the [World] of the methods above
    together with the console of these lines.  A method above runs inside a
    [Host] through [lift]. *)

(** [baseUrl.replace(/\/$/, '')]: without the [m] flag [$] matches at the
    end of the input only, so one final slash is removed, if there is one. *)
Fixpoint remove_trailing_slash (s : string) : string :=
  match s with
  | EmptyString => EmptyString
  | String c s' =>
      match s' with
      | EmptyString => if bool_decide (c = "/"%char) then EmptyString else s
      | String _ _ => String c (remove_trailing_slash s')
      end
  end.

(** More answers of the outside world: the slot the RPC node reports and
    whether the health port could be bound; and, of the library, whether
    [new URL(text)] accepts a text, and what [JSON.parse(text)] makes of one:
    it throws, or returns an array, of some length, or another value.

    The [error] event of the server carries a system error of Node: an
    object with a code, a system call, an address and a port, which
    [JSON.stringify] can write ([listen_error]). *)
Record Net : Type := {
  getSlot : nat → outcome Z;
  server_listen : nat → number → outcome unit;
  listen_error :
    ∀ t port e, server_listen t port = Throw e → json_writable e = true;
  URL_valid : string → bool;
  JSON_array : string → outcome (option nat)
}.

(** One constructor per log statement of these methods. *)
Inductive HostMsg : Type :=
| ConnectingToSolana
| ConnectedToSolana (slot : Z)
| ValidatingBalances
| ConnectingToDispatcher
| ConnectedToDispatcher (address : string)
| StartingMonitoring
| HealthServerListening (port : number)
| HealthServerError (e : thrown)
| StartingHeartbeat
| SubscribingToOffers
| StartingOfferPolling
| NodeStarted
| RequestHandlerError (e : thrown).

Record HostLine : Type := {
  h_level : LogLevel;
  h_component : string;
  h_message : HostMsg
}.

Record Host : Type := {
  process : World;
  console : list HostLine
}.

(** The monad of these methods. *)
Definition Hosted (A : Type) : Type := Host → settled A * Host.

Definition host_ret {A} (a : A) : Hosted A := λ h, (Settled (Ok a), h).

Definition host_bind {A B} (k : A → Hosted B) (m : Hosted A) : Hosted B :=
  λ h, match m h with
       | (Settled (Ok a), h') => k a h'
       | (Settled (Throw e), h') => (Settled (Throw e), h')
       | (Pending, h') => (Pending, h')
       end.

Global Instance Hosted_ret : MRet Hosted := @host_ret.
Global Instance Hosted_bind : MBind Hosted := @host_bind.

Definition host_throw {A} (e : thrown) : Hosted A :=
  λ h, (Settled (Throw e), h).

Definition host_try_catch {A} (body : Hosted A) (handler : thrown → Hosted A)
    : Hosted A :=
  λ h, match body h with
       | (Settled (Throw e), h') => handler e h'
       | r => r
       end.

(** A method of the process, run in the host. *)
Definition lift {A} (m : Js A) : Hosted A :=
  λ h, let '(r, w') := m (process h) in
       (r, {| process := w'; console := console h |}).

Definition say (l : LogLevel) (c : string) (m : HostMsg) : Hosted unit :=
  λ h, (Settled (Ok tt),
        {| process := process h;
           console := console h ++ [{| h_level := l; h_component := c;
                                       h_message := m |}] |}).

(** A log statement that passes the error [e] after the message text:
    [formatMessage] throws if [JSON.stringify] cannot write it. *)
Definition say_error (l : LogLevel) (c : string) (m : HostMsg) (e : thrown)
    : Hosted unit :=
  if json_writable e then say l c m
  else λ h, (Settled (Throw bigint_not_serializable), h).

(** What [HealthServer] writes to [res]: the status code and headers of
    [writeHead] after the headers set before it, and the value whose JSON
    text [end] sends. *)
Inductive ReplyBody : Type :=
| EmptyReply
| HealthReply (status_ : HealthLevel) (uptime_ : float)
    (wallets_ activeWallets activeOffers_ : nat) (metrics_ : MetricsSnapshot)
    (timestamp : Z)
| MetricsReply (metrics_ : MetricsSnapshot)
| ReadyReply (ready : bool) (reason : string)
| NotFoundReply (error_ : string) (available : list string)
| ErrorReply (error_ : string) (message_ : option string).

Record Reply : Type := {
  statusCode : Z;
  reply_headers : list (string * string);
  reply_body : ReplyBody
}.

Record ValidationResult : Type := {
  valid : bool;
  errors : list string;
  warnings : list string
}.

(** [s.includes(needle)] *)
Definition includes (needle s : string) : bool :=
  bool_decide (is_Some (String.index 0 needle s)).

Section Startup.

Variable env : Env.
Variable net : Net.

(** *** [validateEnvironment] ([utils/Environment.ts]) *)

(** [process.env[key]] as a condition: unset and empty are falsy. *)
Definition env_truthy (key : string) : bool :=
  match process_env env key with
  | Some (String _ _) => true
  | _ => false
  end.

Definition isValidUrl (address : string) : bool := URL_valid net address.

Definition validateEnvironment : ValidationResult :=
  let required := ["RPC_URL"; "NODE_SIGNER_SECRET"; "RELAY_SIGNERS"] in
  let missing :=
    flat_map
      (λ envVar,
         if env_truthy envVar then []
         else ["Missing required environment variable: " +:+ envVar])
      required in
  let rpc :=
    match process_env env "RPC_URL" with
    | Some (String c s) =>
        if isValidUrl (String c s) then []
        else ["RPC_URL must be a valid URL"]
    | _ => []
    end in
  let dispatcher :=
    match process_env env "DISPATCHER_URL" with
    | Some (String c s) =>
        if isValidUrl (String c s) then []
        else ["DISPATCHER_URL must be a valid URL"]
    | _ => []
    end in
  let devnet : list string :=
    match process_env env "RPC_URL" with
    | Some address =>
        if includes "devnet" address
        then ["Using devnet RPC in production environment"]
        else []
    | None => []
    end in
  let https : list string :=
    match process_env env "DISPATCHER_URL" with
    | Some address =>
        if includes "https://" address then []
        else ["Dispatcher URL should use HTTPS in production"]
    | None => ["Dispatcher URL should use HTTPS in production"]
    end in
  let warnings_ : list string :=
    if bool_decide (process_env env "NODE_ENV" = Some "production")
    then (devnet ++ https)%list
    else [] in
  let signers :=
    match process_env env "RELAY_SIGNERS" with
    | Some (String c s) =>
        match JSON_array net (String c s) with
        | Ok (Some (S _)) => []
        | Ok _ => ["RELAY_SIGNERS must be a non-empty JSON array"]
        | Throw _ => ["RELAY_SIGNERS must be valid JSON"]
        end
    | _ => []
    end in
  let feePayer_ :=
    if bool_decide (process_env env "FEE_PAYER_MODE" = Some "self")
       && negb (env_truthy "FEE_PAYER_SECRET")
    then ["FEE_PAYER_SECRET required when FEE_PAYER_MODE=self"]
    else [] in
  let errors_ := (missing ++ rpc ++ dispatcher ++ signers ++ feePayer_)%list in
  {| valid := bool_decide (List.length errors_ = 0%nat);
     errors := errors_;
     warnings := warnings_ |}.

(** *** Constructors *)

(** [new Metrics()] at the instant [now]. *)
Definition Metrics_new (now : Z) : Metrics :=
  {| startTime := now; c_offersReceived := 0; c_offersAccepted := 0;
     c_offersCompleted := 0; c_offersFailed := 0; c_heartbeats := 0;
     c_heartbeatErrors := 0; executionTimes := []; m_totalEarnings := 0 |}.

(** The [baseUrl] field the constructor of [DispatcherClient] sets. *)
Definition DispatcherClient_new (baseUrl_ : string) : string :=
  remove_trailing_slash baseUrl_.

(** The constructor of [ShhNode], for the configuration [loadConfig]
    returned and the instant [now] at which [Metrics] is created: the node,
    or the error thrown, and the lines logged on the way. *)
Definition ShhNode_new (config_ : NodeConfig) (now : Z)
    : outcome ShhNode * list LogLine :=
  match WalletManager_new env with
  | (Ok wm, logs) =>
      (Ok {| config := config_;
             baseUrl :=
               DispatcherClient_new
                 (or_default (process_env env "DISPATCHER_URL")
                    "https://dispatcher.dev.shh.cash");
             walletManager := wm;
             metrics := Metrics_new now;
             isRunning := false;
             activeOffers := ∅;
             heartbeatInterval := None;
             healthServerStarted := false |}, logs)
  | (Throw e, logs) => (Throw e, logs)
  end.

(** *** [DispatcherClient] *)

(** [fetch(baseUrl + path, { method: 'GET', headers })] *)
Definition get (path : string) : Js Response :=
  n ← get_node;
  auth ← getAuthHeaders env "GET" path "";
  let request := {| url := baseUrl n +:+ path; method := "GET";
                    headers := auth; body := NoBody |} in
  observe (λ t, fetch env t request) (Fetch request).

Definition connect : Hosted unit :=
  host_try_catch
    (response ← lift (get "/api/node/ping");
     if negb (response_ok response)
     then host_throw (JsError ("Dispatcher ping failed: "
                               +:+ statusText response))
     else
       n ← lift get_node;
       say INFO "DispatcherClient" (ConnectedToDispatcher (baseUrl n)))
    (λ error,
     host_throw (JsError ("Failed to connect to dispatcher: "
                          +:+ template_text error))).

(** [subscribeToOffers] logs and calls [pollOffers], which only arms the
    timer of the polling round; that round logs at the debug level and
    re-arms the timer, and is not modelled. *)
Definition subscribeToOffers : Hosted unit :=
  say INFO "DispatcherClient" StartingOfferPolling.

(** *** [HealthServer] *)

Definition set_healthServerStarted (b : bool) : Js unit :=
  set_node (λ n,
    {| config := config n; baseUrl := baseUrl n;
       walletManager := walletManager n; metrics := metrics n;
       isRunning := isRunning n; activeOffers := activeOffers n;
       heartbeatInterval := heartbeatInterval n;
       healthServerStarted := b |}).

Definition port : number :=
  parseInt (or_default (process_env env "HEALTH_PORT") "8080").

(** [HealthServer.start]: the promise resolves in the callback of [listen]
    and rejects on the server's [error] event. *)
Definition healthServer_start : Hosted unit :=
  lift (set_healthServerStarted true) ;;
  host_try_catch
    (lift (interact (λ t, server_listen net t port)) ;;
     say INFO "HealthServer" (HealthServerListening port))
    (λ error,
     say_error ERROR "HealthServer" (HealthServerError error) error ;;
     host_throw error).

Definition cors : list (string * string) :=
  [("Access-Control-Allow-Origin", "*");
   ("Access-Control-Allow-Methods", "GET, OPTIONS");
   ("Access-Control-Allow-Headers", "Content-Type")].

Definition json : list (string * string) :=
  [("Content-Type", "application/json")].

Section Handlers.

(** The callback the server was constructed with. *)
Variable getHealthStatus_ : Js HealthStatus.

Definition handleHealth : Hosted Reply :=
  status_ ← lift getHealthStatus_;
  let httpStatus :=
    match status status_ with
    | healthy => 200
    | degraded => 200
    | unhealthy => 503
    end in
  now ← lift (interact (λ t, Ok (Date_now env t)));
  mret {| statusCode := httpStatus;
          reply_headers := cors ++ json;
          reply_body :=
            HealthReply (status status_) (uptime status_)
              (List.length (wallets status_))
              (List.length (List.filter isActive (wallets status_)))
              (hs_activeOffers status_) (hs_metrics status_) now |}.

Definition handleMetrics : Hosted Reply :=
  status_ ← lift getHealthStatus_;
  mret {| statusCode := 200;
          reply_headers := cors ++ json;
          reply_body := MetricsReply (hs_metrics status_) |}.

Definition isReady (status_ : HealthStatus) : bool :=
  match status status_ with
  | unhealthy => false
  | _ => true
  end
  && existsb isActive (wallets status_).

Definition handleReady : Hosted Reply :=
  status_ ← lift getHealthStatus_;
  mret {| statusCode := if isReady status_ then 200 else 503;
          reply_headers := cors ++ json;
          reply_body :=
            ReadyReply (isReady status_)
              (if isReady status_ then "Node is ready to accept offers"
               else "Node not ready - check wallet balances") |}.

Definition handleNotFound : Hosted Reply :=
  mret {| statusCode := 404;
          reply_headers := cors ++ json;
          reply_body :=
            NotFoundReply "Not found" ["/health"; "/metrics"; "/ready"] |}.

(** [error.message]: the message of an error, [undefined] on another value,
    and a [TypeError] on [null] and [undefined]. *)
Definition message_of (e : thrown) : outcome (option string) :=
  match e with
  | JsError m | JsErrorOf _ m | JsBigIntError _ m => Ok (Some m)
  | JsOther _ => Ok None
  | JsNull => Throw (cannot_read "null" "message")
  | JsUndefined => Throw (cannot_read "undefined" "message")
  end.

(** [handleError] has written the status line when it reads
    [error.message]; if that throws, the response is never ended and the
    reply is lost with the exception. *)
Definition handleError (e : thrown) : Hosted Reply :=
  message_ ← lift (lib (message_of e));
  mret {| statusCode := 500;
          reply_headers := cors ++ json;
          reply_body := ErrorReply "Internal server error" message_ |}.

(** [handleRequest(req, res)] for [req.method] and [req.url]. *)
Definition handleRequest (req_method : string) (req_url : option string)
    : Hosted Reply :=
  let url_ := or_default req_url "/" in
  if bool_decide (req_method = "OPTIONS")
  then mret {| statusCode := 204; reply_headers := cors;
               reply_body := EmptyReply |}
  else
    host_try_catch
      (if bool_decide (url_ = "/health") || bool_decide (url_ = "/")
       then handleHealth
       else if bool_decide (url_ = "/metrics") then handleMetrics
       else if bool_decide (url_ = "/ready") then handleReady
       else handleNotFound)
      (λ error,
       say_error ERROR "HealthServer" (RequestHandlerError error) error ;;
       handleError error).

End Handlers.

(** *** [ShhNode] *)

Definition validateConnection : Hosted unit :=
  host_try_catch
    (slot ← lift (interact (getSlot net));
     say INFO "ShhNode" (ConnectedToSolana slot))
    (λ error,
     host_throw (JsError ("Failed to connect to Solana RPC: "
                          +:+ template_text error))).

(** [dispatcher.onOffer] registers [handleOffer] as the callback. *)
Definition start : Hosted unit :=
  n ← lift get_node;
  if isRunning n then host_throw (JsError "Node is already running")
  else
    say INFO "ShhNode" ConnectingToSolana ;;
    validateConnection ;;
    say INFO "ShhNode" ValidatingBalances ;;
    lift (validateBalances env) ;;
    say INFO "ShhNode" ConnectingToDispatcher ;;
    connect ;;
    say INFO "ShhNode" StartingMonitoring ;;
    healthServer_start ;;
    say INFO "ShhNode" StartingHeartbeat ;;
    lift (startHeartbeat env) ;;
    say INFO "ShhNode" SubscribingToOffers ;;
    subscribeToOffers ;;
    lift (set_isRunning true) ;;
    say INFO "ShhNode" NodeStarted.

End Startup.

(** * Properties *)

(** ** Vocabulary of the statements *)

(** [k] consecutive calls of a method, with their results in call order. *)
Fixpoint calls {A} (k : nat) (m : Js A) : Js (list A) :=
  match k with
  | O => mret []
  | S k' => x ← m; xs ← calls k' m; mret (x :: xs)
  end.

Definition pool (w : World) : list Keypair :=
  relayKeypairs (walletManager (node w)).

Definition cursor (w : World) : nat :=
  currentRelayIndex (walletManager (node w)).

(** The node with the rotation cursor set to [c] and nothing else changed. *)
Definition node_with_cursor (c : nat) (n : ShhNode) : ShhNode :=
  {| config := config n; baseUrl := baseUrl n;
     walletManager :=
       {| nodeKeypair := nodeKeypair (walletManager n);
          relayKeypairs := relayKeypairs (walletManager n);
          currentRelayIndex := c |};
     metrics := metrics n;
     isRunning := isRunning n;
     activeOffers := activeOffers n;
     heartbeatInterval := heartbeatInterval n;
     healthServerStarted := healthServerStarted n |}.

Definition with_cursor (c : nat) (w : World) : World :=
  {| node := node_with_cursor c (node w);
     interactions := interactions w;
     trace := trace w |}.

(** The events a run added to the trace: [w'] continues [w] with [evs]. *)
Definition continues (w w' : World) (evs : list Event) : Prop :=
  trace w' = (trace w ++ evs)%list.

(** The failure receipt of [execute] for a thrown [e]. *)
Definition is_failure_receipt (offer : Offer) (e : thrown)
    (r : ExecutionReceipt) : Prop :=
  r_partId r = partId offer ∧ txSignature r = "" ∧ spentLamports r = Num 0
  ∧ feePaid r = 0 ∧ success r = false ∧ error r = Some (error_text e).

(** *** A sample deployment, for concrete runs *)

Definition relay1 : Keypair := {| publicKey := "Relay1"; secretKey := "s1" |}.
Definition relay2 : Keypair := {| publicKey := "Relay2"; secretKey := "s2" |}.
Definition relay3 : Keypair := {| publicKey := "Relay3"; secretKey := "s3" |}.

Definition sample_metrics : Metrics :=
  {| startTime := 0; c_offersReceived := 0; c_offersAccepted := 0;
     c_offersCompleted := 0; c_offersFailed := 0; c_heartbeats := 0;
     c_heartbeatErrors := 0; executionTimes := []; m_totalEarnings := 0 |}.

Definition sample_node (relays : list Keypair) (running : bool) : ShhNode :=
  {| config := {| version := "1.0.0"; maxConcurrent := 5; retry_max := 3 |};
     baseUrl := "https://dispatcher.dev.shh.cash";
     walletManager :=
       {| nodeKeypair := {| publicKey := "Node"; secretKey := "s0" |};
          relayKeypairs := relays;
          currentRelayIndex := 0 |};
     metrics := sample_metrics;
     isRunning := running;
     activeOffers := ∅;
     heartbeatInterval :=
       Some {| interval := Num 30000; cleared := false |};
     healthServerStarted := true |}.

Definition sample_world (relays : list Keypair) (running : bool) : World :=
  {| node := sample_node relays running; interactions := 0; trace := [] |}.

(** A dispatcher and a chain that answer every call with success; balance
    queries are answered from [lamports]. *)
Definition mock_env (lamports : string → float) : Env :=
  {| Date_now := λ t, 1700000000000 + Z.of_nat t;
     process_uptime := λ _, 60%float;
     process_env := λ _, None;
     fetch := λ _ _, Ok {| http_status := 200; statusText := "OK" |};
     fetch_rejection := ltac:(intros ? ? ? H; discriminate H);
     sign_detached := λ _ _, "c2ln";
     JSON_stringify := λ _, "{}";
     JSON_parse := λ _, Ok ["s1"; "s2"; "s3"];
     Keypair_fromSecretKey :=
       λ secret, Ok {| publicKey := "Key:" +:+ secret; secretKey := secret |};
     new_PublicKey := λ s, Ok s;
     getAssociatedTokenAddress := λ _ owner, Ok ("ata:" +:+ owner);
     getBalance := λ _ key, Ok (lamports key);
     getAccount := λ _ _, Ok 0%float;
     getLatestBlockhash := λ _, Ok "BLOCKHASH";
     toBufferLE :=
       λ _, Throw (JsErrorOf "TypeError"
                     "Blob.encode[amount] requires (length 8) Uint8Array as src");
     sendAndConfirmTransaction := λ _ _ _ _, Ok "SIG1" |}.

Definition funded : string → float := λ _, 1000000000%float.

(** What [execute] reports when the transfer went through: the signature
    the chain returned for the submitted transaction, the offer's fee, and
    as spent amount the lamports transferred, which are the amount as
    [parseInt] reads it (SOL), or the token-account creation fee, if the
    account had to be created (USDC). *)
Definition is_success_receipt (env : Env) (offer : Offer) (w : World)
    (evs : list Event) (r : ExecutionReceipt) : Prop :=
  r_partId r = partId offer ∧ success r = true ∧ error r = None
  ∧ feePaid r = feeLamports offer
  ∧ ∃ tx,
      SendAndConfirm tx [pool w !! cursor w] (retry_max (config (node w)))
        (Ok (txSignature r)) ∈ evs
      ∧ ((asset offer = "SOL"
          ∧ ∃ a,
              parseInt (amount offer) = Num a
              ∧ 0 <= a < 2 ^ 64
              ∧ spentLamports r = Num a
              ∧ ∃ source target,
                  instructions tx = [SystemTransfer source target (Num a)])
         ∨ (asset offer = "USDC"
            ∧ ∃ ata source owner transfer,
                createTransferInstruction env source ata owner
                  (parseInt (amount offer)) = Ok transfer
                ∧ (((∃ a, GetAccount ata (Ok a) ∈ evs)
                    ∧ spentLamports r = Num 0
                    ∧ instructions tx = [transfer])
                   ∨ ((∃ e, GetAccount ata (Throw e) ∈ evs)
                      ∧ spentLamports r = Num 2000000
                      ∧ ∃ payer target,
                          instructions tx =
                            [CreateAssociatedTokenAccount payer ata target
                               USDC_MINT;
                             transfer])))).

(** Every way the [try] block of [execute] can fail: there is no relay
    wallet; the recipient is no public key; the asset is neither SOL nor
    USDC; the cursor points outside of the pool; a token address cannot be
    derived; the transfer cannot be encoded, because the amount has no
    [BigInt] or does not fit a [u64]; the block hash query fails; the
    submission or the confirmation fails. *)
Definition failure_cause (env : Env) (offer : Offer) (w : World)
    (evs : list Event) (e : thrown) : Prop :=
  (pool w = [] ∧ e = JsError "No relay wallets available")
  ∨ new_PublicKey env (recipient offer) = Throw e
  ∨ (asset offer ≠ "SOL" ∧ asset offer ≠ "USDC"
     ∧ e = JsError ("Unsupported asset: " +:+ asset offer))
  ∨ (pool w !! cursor w = None ∧ e = cannot_read "undefined" "publicKey")
  ∨ (∃ owner, getAssociatedTokenAddress env USDC_MINT owner = Throw e)
  ∨ (asset offer = "SOL"
     ∧ ∃ source target,
         SystemProgram_transfer source target (parseInt (amount offer))
           = Throw e)
  ∨ (asset offer = "USDC"
     ∧ ∃ source target owner,
         createTransferInstruction env source target owner
           (parseInt (amount offer)) = Throw e)
  ∨ (∃ t, getLatestBlockhash env t = Throw e)
  ∨ (∃ tx, SendAndConfirm tx [pool w !! cursor w]
             (retry_max (config (node w))) (Throw e) ∈ evs).

(** Events [execute] may add: log lines and chain calls. *)
Definition chain_or_log (e : Event) : Prop :=
  match e with
  | Log _ | SendAndConfirm _ _ _ _ | GetAccount _ _ => True
  | Fetch _ _ | ActiveSet _ _ | ActiveDelete _ => False
  end.

Definition is_log (e : Event) : Prop :=
  match e with
  | Log _ => True
  | _ => False
  end.

(** A claim request: a [fetch] that carries an [OfferAcceptance]. *)
Definition is_claim_request (e : Event) : Prop :=
  match e with
  | Fetch request _ =>
      match body request with AcceptanceBody _ => True | _ => False end
  | _ => False
  end.

(** A claim the dispatcher answered with HTTP 409. *)
Definition is_lost_claim (e : Event) : Prop :=
  match e with
  | Fetch request (Ok response) =>
      match body request with
      | AcceptanceBody _ => http_status response = 409
      | _ => False
      end
  | _ => False
  end.

(** A receipt submission: a [fetch] that carries an [ExecutionReceipt]. *)
Definition is_receipt_submission (e : Event) : Prop :=
  match e with
  | Fetch request _ =>
      match body request with ReceiptBody _ => True | _ => False end
  | _ => False
  end.

Definition is_active_set (e : Event) : Prop :=
  match e with
  | ActiveSet _ _ => True
  | _ => False
  end.

(** The three admission conditions of [validateOffer], evaluated in world
    [w] (the clock is read at the world's next interaction). *)
Definition over_ceiling (env : Env) (offer : Offer) : bool :=
  bool_decide (asset offer = "SOL")
  && number_gt (parseInt (amount offer)) (maxPerTx env).

Definition at_capacity (offer : Offer) (w : World) : bool :=
  bool_decide (Z.of_nat (size (activeOffers (node w)))
               >= maxConcurrent (config (node w))).

Definition expired (env : Env) (offer : Offer) (w : World) : bool :=
  truthy (expiresAt offer)
  && bool_decide (Date_now env (interactions w) > default 0 (expiresAt offer)).

Definition admissible (env : Env) (offer : Offer) (w : World) : bool :=
  negb (over_ceiling env offer) && negb (at_capacity offer w)
  && negb (expired env offer w).

(** What the dispatcher's answer to a claim means for [acceptOffer]. *)
Definition claim_result (answer : outcome Response) : outcome bool :=
  match answer with
  | Throw e => Throw e
  | Ok response =>
      if bool_decide (http_status response = 409) then Ok false
      else if response_ok response then Ok true
      else Throw (JsError ("Failed to accept offer: " +:+ statusText response))
  end.

Definition receipt_result (answer : outcome Response) : outcome unit :=
  match answer with
  | Throw e => Throw e
  | Ok response =>
      if response_ok response then Ok tt
      else Throw (JsError ("Failed to submit receipt: "
                             +:+ statusText response))
  end.

(** The world after one reading of the clock. *)
Definition tick (w : World) : World :=
  {| node := node w; interactions := S (interactions w); trace := trace w |}.

(** The request claims [offer]. *)
Definition claims (offer : Offer) (request : Request) : Prop :=
  ∃ acceptance,
    body request = AcceptanceBody acceptance ∧ offerId acceptance = id offer.

Definition line (l : LogLevel) (m : LogMsg) : Event :=
  Log {| level := l; component := "ShhNode"; message := m |}.

(** The terminal paths of [handleOffer], each with the events it adds to
    the trace and what it leaves of the node: the offer is not admitted; the
    claim is lost to another node; the claim request fails; the claim is
    won and [execute] throws; the claim is won and the offer is executed and
    reported. *)
Inductive handled (env : Env) (offer : Offer) (w w' : World)
    : list Event → Prop :=
| handled_rejected logs :
    admissible env offer (tick w) = false →
    Forall is_log logs →
    node w' = node w →
    handled env offer w w' logs
| handled_claim_lost logs request answer :
    admissible env offer (tick w) = true →
    Forall is_log logs →
    claims offer request →
    claim_result answer = Ok false →
    node w' = node w →
    handled env offer w w'
      (logs ++ [Fetch request answer;
                line INFO (ClaimedByAnotherNode (id offer))])
| handled_claim_failed logs request answer e :
    admissible env offer (tick w) = true →
    Forall is_log logs →
    claims offer request →
    claim_result answer = Throw e →
    activeOffers (node w') = delete (id offer) (activeOffers (node w)) →
    isRunning (node w') = isRunning (node w) →
    handled env offer w w'
      (logs ++ [Fetch request answer;
                ActiveDelete (id offer);
                line ERROR (FailedToExecuteOffer (id offer) e)])
| handled_aborted logs request answer chain :
    admissible env offer (tick w) = true →
    Forall is_log logs →
    claims offer request →
    claim_result answer = Ok true →
    Forall chain_or_log chain →
    activeOffers (node w') = delete (id offer) (activeOffers (node w)) →
    isRunning (node w') = isRunning (node w) →
    handled env offer w w'
      (logs ++ [Fetch request answer;
                ActiveSet (id offer) offer;
                line INFO (AcceptedOfferExecuting (id offer))]
            ++ chain
            ++ [ActiveDelete (id offer);
                line ERROR
                  (FailedToExecuteOffer (id offer) bigint_not_serializable)])
| handled_claimed logs request answer chain receipt request' answer' last :
    admissible env offer (tick w) = true →
    Forall is_log logs →
    claims offer request →
    claim_result answer = Ok true →
    Forall chain_or_log chain →
    body request' = ReceiptBody receipt →
    r_partId receipt = partId offer →
    match receipt_result answer' with
    | Ok _ => last = CompletedOffer (id offer) (txSignature receipt)
    | Throw e => last = FailedToExecuteOffer (id offer) e
    end →
    activeOffers (node w') = delete (id offer) (activeOffers (node w)) →
    isRunning (node w') = isRunning (node w) →
    handled env offer w w'
      (logs ++ [Fetch request answer;
                ActiveSet (id offer) offer;
                line INFO (AcceptedOfferExecuting (id offer))]
            ++ chain
            ++ [Fetch request' answer';
                ActiveDelete (id offer);
                line (match receipt_result answer' with
                      | Ok _ => INFO
                      | Throw _ => ERROR
                      end) last]).

(** How the handling of a claimed offer ends, once [execute] has settled:
    [execute] returned a receipt, of success or of failure, and the
    dispatcher acknowledged it; or the submission of the receipt failed; or
    [execute] itself threw.  Each time the offer is deleted from the
    active-offer map. *)
Inductive resolution (offer : Offer) : list Event → Prop :=
| receipt_acknowledged receipt request answer :
    body request = ReceiptBody receipt →
    r_partId receipt = partId offer →
    receipt_result answer = Ok tt →
    resolution offer
      [Fetch request answer;
       ActiveDelete (id offer);
       line INFO (CompletedOffer (id offer) (txSignature receipt))]
| receipt_lost receipt request answer e :
    body request = ReceiptBody receipt →
    r_partId receipt = partId offer →
    receipt_result answer = Throw e →
    resolution offer
      [Fetch request answer;
       ActiveDelete (id offer);
       line ERROR (FailedToExecuteOffer (id offer) e)]
| execution_threw :
    resolution offer
      [ActiveDelete (id offer);
       line ERROR (FailedToExecuteOffer (id offer) bigint_not_serializable)].

Definition sol_offer : Offer :=
  {| id := "offer-1"; partId := "part-1"; asset := "SOL";
     amount := "10000000"; recipient := "Recipient1";
     feeLamports := 5000; expiresAt := None |}.

Definition usdc_offer : Offer :=
  {| id := "offer-2"; partId := "part-2"; asset := "USDC";
     amount := "2500000"; recipient := "Recipient2";
     feeLamports := 5000; expiresAt := None |}.

Definition btc_offer : Offer :=
  {| id := "offer-3"; partId := "part-3"; asset := "BTC";
     amount := "1"; recipient := "Recipient3";
     feeLamports := 5000; expiresAt := None |}.

(** A SOL offer of a negative amount, which has no [u64] encoding. *)
Definition negative_offer : Offer :=
  {| id := "offer-6"; partId := "part-6"; asset := "SOL";
     amount := "-5"; recipient := "Recipient6";
     feeLamports := 5000; expiresAt := None |}.

(** A SOL offer whose amount is no number. *)
Definition unparsable_offer : Offer :=
  {| id := "offer-7"; partId := "part-7"; asset := "SOL";
     amount := "abc"; recipient := "Recipient7";
     feeLamports := 5000; expiresAt := None |}.

(** A SOL offer of 2^53 + 1 lamports, which is no double. *)
Definition huge_offer : Offer :=
  {| id := "offer-8"; partId := "part-8"; asset := "SOL";
     amount := "9007199254740993"; recipient := "Recipient8";
     feeLamports := 5000; expiresAt := None |}.

(** A SOL offer of 600,000,000 lamports, above the default ceiling of
    500,000,000. *)
Definition large_offer : Offer :=
  {| id := "offer-4"; partId := "part-4"; asset := "SOL";
     amount := "600000000"; recipient := "Recipient4";
     feeLamports := 5000; expiresAt := None |}.

(** An offer that expires at the very instant [validateOffer] reads the
    clock of [mock_env] in a fresh world. *)
Definition expiring_offer : Offer :=
  {| id := "offer-5"; partId := "part-5"; asset := "SOL";
     amount := "10000000"; recipient := "Recipient5";
     feeLamports := 5000; expiresAt := Some 1700000000000 |}.

(** Relay balances of 0.005, 0.02 and 0 SOL, in lamports. *)
Definition mixed_balances (key : string) : float :=
  if bool_decide (key = "Relay1") then 5000000%float
  else if bool_decide (key = "Relay2") then 20000000%float
  else 0%float.

(** Relay balances of 0.005, 0.002 and 0 SOL, in lamports. *)
Definition low_balances (key : string) : float :=
  if bool_decide (key = "Relay1") then 5000000%float
  else if bool_decide (key = "Relay2") then 2000000%float
  else 0%float.

(** The dispatcher cannot be reached: every [fetch] rejects. *)
Definition unreachable_env : Env :=
  {| Date_now := Date_now (mock_env funded);
     process_uptime := process_uptime (mock_env funded);
     process_env := process_env (mock_env funded);
     fetch := λ _ _, Throw (JsError "fetch failed");
     fetch_rejection := ltac:(intros ? ? ? [= <-]; reflexivity);
     sign_detached := sign_detached (mock_env funded);
     JSON_stringify := JSON_stringify (mock_env funded);
     JSON_parse := JSON_parse (mock_env funded);
     Keypair_fromSecretKey := Keypair_fromSecretKey (mock_env funded);
     new_PublicKey := new_PublicKey (mock_env funded);
     getAssociatedTokenAddress := getAssociatedTokenAddress (mock_env funded);
     getBalance := getBalance (mock_env funded);
     getAccount := getAccount (mock_env funded);
     getLatestBlockhash := getLatestBlockhash (mock_env funded);
     toBufferLE := toBufferLE (mock_env funded);
     sendAndConfirmTransaction :=
       sendAndConfirmTransaction (mock_env funded) |}.

(** [mock_env funded] with the per-transaction ceiling set to 2^53. *)
Definition ceiling_env : Env :=
  {| Date_now := Date_now (mock_env funded);
     process_uptime := process_uptime (mock_env funded);
     process_env :=
       λ key,
         if bool_decide (key = "MAX_PER_TX_LAMPORTS")
         then Some "9007199254740992" else None;
     fetch := fetch (mock_env funded);
     fetch_rejection := fetch_rejection (mock_env funded);
     sign_detached := sign_detached (mock_env funded);
     JSON_stringify := JSON_stringify (mock_env funded);
     JSON_parse := JSON_parse (mock_env funded);
     Keypair_fromSecretKey := Keypair_fromSecretKey (mock_env funded);
     new_PublicKey := new_PublicKey (mock_env funded);
     getAssociatedTokenAddress := getAssociatedTokenAddress (mock_env funded);
     getBalance := getBalance (mock_env funded);
     getAccount := getAccount (mock_env funded);
     getLatestBlockhash := getLatestBlockhash (mock_env funded);
     toBufferLE := toBufferLE (mock_env funded);
     sendAndConfirmTransaction :=
       sendAndConfirmTransaction (mock_env funded) |}.

(** The dispatcher grants claims and is gone when the receipt is
    submitted. *)
Definition receipt_lost_env : Env :=
  {| Date_now := Date_now (mock_env funded);
     process_uptime := process_uptime (mock_env funded);
     process_env := process_env (mock_env funded);
     fetch :=
       λ _ request,
         match body request with
         | ReceiptBody _ => Throw (JsErrorOf "TypeError" "fetch failed")
         | _ => Ok {| http_status := 200; statusText := "OK" |}
         end;
     fetch_rejection :=
       ltac:(intros ? request ?; cbv beta; destruct (body request);
             intros H;
             [discriminate H..| |discriminate H];
             injection H as <-; reflexivity);
     sign_detached := sign_detached (mock_env funded);
     JSON_stringify := JSON_stringify (mock_env funded);
     JSON_parse := JSON_parse (mock_env funded);
     Keypair_fromSecretKey := Keypair_fromSecretKey (mock_env funded);
     new_PublicKey := new_PublicKey (mock_env funded);
     getAssociatedTokenAddress := getAssociatedTokenAddress (mock_env funded);
     getBalance := getBalance (mock_env funded);
     getAccount := getAccount (mock_env funded);
     getLatestBlockhash := getLatestBlockhash (mock_env funded);
     toBufferLE := toBufferLE (mock_env funded);
     sendAndConfirmTransaction :=
       sendAndConfirmTransaction (mock_env funded) |}.

(** Another node has claimed every offer: each [fetch] is answered with
    HTTP 409. *)
Definition conflict_env : Env :=
  {| Date_now := Date_now (mock_env funded);
     process_uptime := process_uptime (mock_env funded);
     process_env := process_env (mock_env funded);
     fetch := λ _ _, Ok {| http_status := 409; statusText := "Conflict" |};
     fetch_rejection := ltac:(intros ? ? ? H; discriminate H);
     sign_detached := sign_detached (mock_env funded);
     JSON_stringify := JSON_stringify (mock_env funded);
     JSON_parse := JSON_parse (mock_env funded);
     Keypair_fromSecretKey := Keypair_fromSecretKey (mock_env funded);
     new_PublicKey := new_PublicKey (mock_env funded);
     getAssociatedTokenAddress := getAssociatedTokenAddress (mock_env funded);
     getBalance := getBalance (mock_env funded);
     getAccount := getAccount (mock_env funded);
     getLatestBlockhash := getLatestBlockhash (mock_env funded);
     toBufferLE := toBufferLE (mock_env funded);
     sendAndConfirmTransaction :=
       sendAndConfirmTransaction (mock_env funded) |}.

Definition sample_heartbeat : HeartbeatData :=
  {| hb_timestamp := 1700000000000; hb_status := healthy;
     hb_balances := []; hb_activeOffers := 0; hb_version := "1.0.0" |}.

(** The world with [isRunning] set to [b] and nothing else changed. *)
Definition node_with_isRunning (b : bool) (n : ShhNode) : ShhNode :=
  {| config := config n; baseUrl := baseUrl n;
     walletManager := walletManager n; metrics := metrics n;
     isRunning := b; activeOffers := activeOffers n;
     heartbeatInterval := heartbeatInterval n;
     healthServerStarted := healthServerStarted n |}.

Definition with_isRunning (b : bool) (w : World) : World :=
  {| node := node_with_isRunning b (node w);
     interactions := interactions w;
     trace := trace w |}.

(** A method that neither reads nor writes what [f] overwrites: running it
    after [f] is running it and then applying [f]. *)
Definition commutes_with {A} (f : World → World) (m : Js A) : Prop :=
  ∀ w, m (f w) = (let '(r, w') := m w in (r, f w')).

Definition low_balance_warning (balances : list WalletBalance) : Event :=
  Log {| level := WARN; component := "WalletManager";
         message := LowBalanceWallets
           (String.concat ", "
              (wb_publicKey <$> List.filter lowBalance balances)) |}.

Definition all_low : thrown :=
  JsError
    "All wallets have insufficient balance. Please fund your relay wallets.".

Definition heartbeat_result (answer : outcome Response) : outcome unit :=
  match answer with
  | Ok _ => Ok tt
  | Throw e => Throw e
  end.

(** What [sendHeartbeat] logs for the dispatcher's answer. *)
Definition heartbeat_warning (answer : outcome Response) : list Event :=
  match answer with
  | Ok response =>
      if response_ok response then []
      else [Log {| level := WARN; component := "DispatcherClient";
                   message := HeartbeatFailedStatus (statusText response) |}]
  | Throw _ => []
  end.

Definition heartbeats (w : World) : nat := c_heartbeats (metrics (node w)).

Definition heartbeatErrors (w : World) : nat :=
  c_heartbeatErrors (metrics (node w)).

(** *** Vocabulary of the further properties *)

(** An environment variable that is not set, or set to the empty string. *)
Definition unset (x : option string) : Prop := x = None ∨ x = Some "".

(** The lines the constructor of [WalletManager] logs. *)
Definition node_loaded (keypair : Keypair) : LogLine :=
  {| level := INFO; component := "WalletManager";
     message := NodeSignerLoaded (publicKey keypair) |}.

Definition relay_loaded (i : nat) (keypair : Keypair) : LogLine :=
  {| level := INFO; component := "WalletManager";
     message := RelayWalletLoaded (i + 1) (publicKey keypair) |}.

(** The secret [secret] decodes to the keypair [keypair]. *)
Definition decodes (env : Env) (secret : string) (keypair : Keypair) : Prop :=
  Keypair_fromSecretKey env secret = Ok keypair.

(** [mock_env funded] with the RPC URL and the two signer variables set. *)
Definition configured (key : string) : option string :=
  if bool_decide (key = "NODE_SIGNER_SECRET") then Some "s0"
  else if bool_decide (key = "RELAY_SIGNERS") then Some "[s1, s2, s3]"
  else if bool_decide (key = "RPC_URL")
  then Some "https://api.devnet.solana.com"
  else None.

Definition configured_env : Env :=
  {| Date_now := Date_now (mock_env funded);
     process_uptime := process_uptime (mock_env funded);
     process_env := configured;
     fetch := fetch (mock_env funded);
     fetch_rejection := fetch_rejection (mock_env funded);
     sign_detached := sign_detached (mock_env funded);
     JSON_stringify := JSON_stringify (mock_env funded);
     JSON_parse := JSON_parse (mock_env funded);
     Keypair_fromSecretKey := Keypair_fromSecretKey (mock_env funded);
     new_PublicKey := new_PublicKey (mock_env funded);
     getAssociatedTokenAddress := getAssociatedTokenAddress (mock_env funded);
     getBalance := getBalance (mock_env funded);
     getAccount := getAccount (mock_env funded);
     getLatestBlockhash := getLatestBlockhash (mock_env funded);
     toBufferLE := toBufferLE (mock_env funded);
     sendAndConfirmTransaction :=
       sendAndConfirmTransaction (mock_env funded) |}.

(** The USDC balance [getBalances] reports for a wallet whose token
    account is asked for at the interaction [t]: the amount of the account,
    in USDC, when the mint address and the token address could be derived
    and the account could be read, and nothing otherwise. *)
Definition usdc_entry (env : Env) (keypair : Keypair) (t : nat)
    : option float :=
  match new_PublicKey env USDC_MINT with
  | Ok usdcMint =>
      match getAssociatedTokenAddress env usdcMint (publicKey keypair) with
      | Ok ata =>
          match getAccount env t ata with
          | Ok tokens => Some (tokens / 1000000)%float
          | Throw _ => None
          end
      | Throw _ => None
      end
  | Throw _ => None
  end.

(** What [getBalances] reports for the wallet [keypair] whose balance is
    asked for at the interaction [t]: the balance the RPC node answered
    with, and the USDC balance, asked for next; or a zero balance of an
    inactive wallet when the balance query failed. *)
Definition balance_entry (env : Env) (keypair : Keypair) (t : nat)
    (entry : WalletBalance) : Prop :=
  wb_publicKey entry = publicKey keypair
  ∧ match getBalance env t (publicKey keypair) with
    | Ok lamports =>
        balanceSOL entry = (lamports / LAMPORTS_PER_SOL)%float
        ∧ isActive entry = PrimFloat.leb 0.001%float (balanceSOL entry)
        ∧ balanceUSDC entry = usdc_entry env keypair (S t)
    | Throw _ =>
        balanceSOL entry = 0%float
        ∧ balanceUSDC entry = None
        ∧ isActive entry = false
    end.

(** The interactions [getBalances] has with the RPC node for a wallet: the
    balance query, and the query of the token account if the former
    succeeded and the addresses could be derived. *)
Definition balance_queries (env : Env) (keypair : Keypair) (t : nat) : nat :=
  match getBalance env t (publicKey keypair) with
  | Ok _ =>
      match new_PublicKey env USDC_MINT with
      | Ok usdcMint =>
          match getAssociatedTokenAddress env usdcMint (publicKey keypair)
          with
          | Ok _ => 2
          | Throw _ => 1
          end
      | Throw _ => 1
      end
  | Throw _ => 1
  end.

(** The entries of [getBalances] for the wallets [keypairs], the first of
    which is asked for at the interaction [t]. *)
Fixpoint balance_entries (env : Env) (keypairs : list Keypair) (t : nat)
    (entries : list WalletBalance) : Prop :=
  match keypairs, entries with
  | [], [] => True
  | keypair :: keypairs', entry :: entries' =>
      balance_entry env keypair t entry
      ∧ balance_entries env keypairs' (t + balance_queries env keypair t)
          entries'
  | _, _ => False
  end.

Definition times (w : World) : list Z := executionTimes (metrics (node w)).

(** The string ends with a slash. *)
Definition slash_terminated (s : string) : Prop := ∃ s', s = s' +:+ "/".

(** The rotation cursor after one pick of a wallet: an empty pool has
    nothing to pick and leaves the cursor where it is. *)
Definition next_cursor (w : World) : nat :=
  match pool w with
  | [] => cursor w
  | _ :: _ => (cursor w + 1) `mod` List.length (pool w)
  end.

(** The submissions of a transaction to the chain among the events. *)
Definition is_submission (e : Event) : bool :=
  match e with
  | SendAndConfirm _ _ _ _ => true
  | _ => false
  end.

Definition submissions (evs : list Event) : list Event :=
  List.filter is_submission evs.

(** The chain confirmed a submitted transaction with [signature]. *)
Definition confirmed (evs : list Event) (signature : string) : Prop :=
  ∃ tx signers retries,
    SendAndConfirm tx signers retries (Ok signature) ∈ evs.

(** The events [execute] adds for [offer] from the world [w]: log lines
    of the executor, token-account look-ups, and submissions of a
    transaction that the wallet under the cursor signs and pays for, and
    that holds the transfer the offer asks for, to the offer's recipient:
    of the lamports [parseInt] reads in the amount, a number from 0 to
    2^64 - 1, or of the tokens the library encodes for it. *)
Definition submission (env : Env) (offer : Offer) (w : World) (e : Event)
    : Prop :=
  match e with
  | SendAndConfirm tx signers retries _ =>
      ∃ wallet target,
        pool w !! cursor w = Some wallet
        ∧ new_PublicKey env (recipient offer) = Ok target
        ∧ signers = [Some wallet]
        ∧ feePayer tx = Some (publicKey wallet)
        ∧ is_Some (recentBlockhash tx)
        ∧ retries = retry_max (config (node w))
        ∧ ((asset offer = "SOL"
            ∧ ∃ a,
                parseInt (amount offer) = Num a
                ∧ 0 <= a < 2 ^ 64
                ∧ instructions tx =
                    [SystemTransfer (publicKey wallet) target (Num a)])
           ∨ (asset offer = "USDC"
              ∧ ∃ source destination transfer,
                  getAssociatedTokenAddress env USDC_MINT (publicKey wallet)
                    = Ok source
                  ∧ getAssociatedTokenAddress env USDC_MINT target
                    = Ok destination
                  ∧ createTransferInstruction env source destination
                      (publicKey wallet) (parseInt (amount offer))
                    = Ok transfer
                  ∧ (instructions tx = [transfer]
                     ∨ instructions tx =
                         [CreateAssociatedTokenAccount (publicKey wallet)
                            destination target USDC_MINT;
                          transfer])))
  | Log l => component l = "TransactionExecutor"
  | GetAccount _ _ => True
  | Fetch _ _ | ActiveSet _ _ | ActiveDelete _ => False
  end.

(** The first line [execute] logs. *)
Definition executing (offer : Offer) : Event :=
  Log {| level := INFO; component := "TransactionExecutor";
         message := ExecutingOffer (id offer) (asset offer) (amount offer) |}.

(** The text of the request body the signature covers: the JSON text of a
    POST, the empty string of a GET. *)
Definition body_text (env : Env) (payload : JsonBody) : string :=
  match payload with
  | NoBody => ""
  | _ => JSON_stringify env payload
  end.

(** [request] is the request the node [n] sends to [path] of the dispatcher
    with [payload]: it goes to the node's base URL, and carries the public
    key of the node identity, the instant of signing, and the signature, by
    the node identity's secret key, of instant, method, path and body text. *)
Definition authenticated (env : Env) (n : ShhNode) (method_ path : string)
    (payload : JsonBody) (request : Request) : Prop :=
  url request = baseUrl n +:+ path
  ∧ method request = method_
  ∧ body request = payload
  ∧ X_Node_Pubkey (headers request) = publicKey (nodeKeypair (walletManager n))
  ∧ ∃ now : Z,
      X_Timestamp (headers request) = pretty now
      ∧ X_Signature (headers request) =
          sign_detached env
            (pretty now +:+ method_ +:+ path +:+ body_text env payload)
            (secretKey (nodeKeypair (walletManager n))).

(** The claim request of the node of [w] for [offer]. *)
Definition claim_request (env : Env) (offer : Offer) (w : World)
    (request : Request) : Prop :=
  ∃ now : Z,
    authenticated env (node w) "POST" "/api/node/accept"
      (AcceptanceBody
         {| offerId := id offer;
            nodeId := publicKey (nodeKeypair (walletManager (node w)));
            acc_timestamp := now |})
      request.

(** The receipt submission of the node of [w] for [receipt]. *)
Definition receipt_request (env : Env) (receipt : ExecutionReceipt)
    (w : World) (request : Request) : Prop :=
  authenticated env (node w) "POST" "/api/node/receipt" (ReceiptBody receipt)
    request.

(** What handling an offer never touches: the configuration, the base URL,
    the running flag, the timers and servers, the keys, and the counters that
    are not about offers handled. *)
Definition same_frame (n n' : ShhNode) : Prop :=
  config n' = config n
  ∧ baseUrl n' = baseUrl n
  ∧ isRunning n' = isRunning n
  ∧ heartbeatInterval n' = heartbeatInterval n
  ∧ healthServerStarted n' = healthServerStarted n
  ∧ nodeKeypair (walletManager n') = nodeKeypair (walletManager n)
  ∧ relayKeypairs (walletManager n') = relayKeypairs (walletManager n)
  ∧ startTime (metrics n') = startTime (metrics n)
  ∧ c_offersReceived (metrics n') = c_offersReceived (metrics n)
  ∧ c_heartbeats (metrics n') = c_heartbeats (metrics n)
  ∧ c_heartbeatErrors (metrics n') = c_heartbeatErrors (metrics n)
  ∧ m_totalEarnings (metrics n') = m_totalEarnings (metrics n).

Definition accepted (w : World) : nat := c_offersAccepted (metrics (node w)).
Definition completed (w : World) : nat := c_offersCompleted (metrics (node w)).
Definition failed (w : World) : nat := c_offersFailed (metrics (node w)).

(** The runs of [handleOffer], each with all it does: the events it adds
    and the node it leaves.  The offer is not admitted; the claim is lost to
    another node; the claim request fails; the offer is claimed and
    [execute] throws; the offer is claimed and executed and the dispatcher
    acknowledges the receipt; the offer is claimed and executed and the
    submission of the receipt fails. *)
Inductive offer_run (env : Env) (offer : Offer) (w w' : World)
    : list Event → Prop :=
| run_rejected logs :
    admissible env offer (tick w) = false →
    Forall is_log logs →
    node w' = node w →
    offer_run env offer w w'
      (logs ++ [line WARN (InvalidOfferSkipping (id offer))])
| run_lost logs request answer :
    admissible env offer (tick w) = true →
    Forall is_log logs →
    claim_request env offer w request →
    claim_result answer = Ok false →
    node w' = node w →
    offer_run env offer w w'
      (logs ++ [Fetch request answer;
                line INFO (ClaimedByAnotherNode (id offer))])
| run_claim_failed logs request answer e :
    admissible env offer (tick w) = true →
    Forall is_log logs →
    claim_request env offer w request →
    claim_result answer = Throw e →
    same_frame (node w) (node w') →
    activeOffers (node w') = delete (id offer) (activeOffers (node w)) →
    cursor w' = cursor w →
    accepted w' = accepted w →
    completed w' = completed w →
    failed w' = S (failed w) →
    times w' = times w →
    offer_run env offer w w'
      (logs ++ [Fetch request answer;
                ActiveDelete (id offer);
                line ERROR (FailedToExecuteOffer (id offer) e)])
| run_aborted logs request answer chain :
    admissible env offer (tick w) = true →
    Forall is_log logs →
    claim_request env offer w request →
    claim_result answer = Ok true →
    Forall (submission env offer w) chain →
    (List.length (submissions chain) ≤ 1)%nat →
    (∀ signature, ¬ confirmed chain signature) →
    same_frame (node w) (node w') →
    activeOffers (node w') = delete (id offer) (activeOffers (node w)) →
    cursor w' = next_cursor w →
    accepted w' = S (accepted w) →
    completed w' = completed w →
    failed w' = S (failed w) →
    times w' = times w →
    offer_run env offer w w'
      (logs ++ [Fetch request answer;
                ActiveSet (id offer) offer;
                line INFO (AcceptedOfferExecuting (id offer))]
            ++ chain
            ++ [ActiveDelete (id offer);
                line ERROR
                  (FailedToExecuteOffer (id offer) bigint_not_serializable)])
| run_reported logs request answer chain receipt request' answer' elapsed :
    admissible env offer (tick w) = true →
    Forall is_log logs →
    claim_request env offer w request →
    claim_result answer = Ok true →
    Forall (submission env offer w) chain →
    (List.length (submissions chain) ≤ 1)%nat →
    r_partId receipt = partId offer →
    (success receipt = true ↔ confirmed chain (txSignature receipt)) →
    receipt_request env receipt w request' →
    receipt_result answer' = Ok tt →
    same_frame (node w) (node w') →
    activeOffers (node w') = delete (id offer) (activeOffers (node w)) →
    cursor w' = next_cursor w →
    accepted w' = S (accepted w) →
    completed w' = S (completed w) →
    failed w' = failed w →
    times w' = push_executionTime elapsed (times w) →
    offer_run env offer w w'
      (logs ++ [Fetch request answer;
                ActiveSet (id offer) offer;
                line INFO (AcceptedOfferExecuting (id offer))]
            ++ chain
            ++ [Fetch request' answer';
                ActiveDelete (id offer);
                line INFO (CompletedOffer (id offer) (txSignature receipt))])
| run_unreported logs request answer chain receipt request' answer' e :
    admissible env offer (tick w) = true →
    Forall is_log logs →
    claim_request env offer w request →
    claim_result answer = Ok true →
    Forall (submission env offer w) chain →
    (List.length (submissions chain) ≤ 1)%nat →
    r_partId receipt = partId offer →
    (success receipt = true ↔ confirmed chain (txSignature receipt)) →
    receipt_request env receipt w request' →
    receipt_result answer' = Throw e →
    same_frame (node w) (node w') →
    activeOffers (node w') = delete (id offer) (activeOffers (node w)) →
    cursor w' = next_cursor w →
    accepted w' = S (accepted w) →
    completed w' = completed w →
    failed w' = S (failed w) →
    times w' = times w →
    offer_run env offer w w'
      (logs ++ [Fetch request answer;
                ActiveSet (id offer) offer;
                line INFO (AcceptedOfferExecuting (id offer))]
            ++ chain
            ++ [Fetch request' answer';
                ActiveDelete (id offer);
                line ERROR (FailedToExecuteOffer (id offer) e)]).

(** The dispatcher's answers to the requests of [handleOffer]: a claim it
    granted, a receipt it acknowledged, and a claim request or a receipt
    submission that failed. *)
Definition grants (e : Event) : bool :=
  match e with
  | Fetch request answer =>
      match body request, claim_result answer with
      | AcceptanceBody _, Ok true => true
      | _, _ => false
      end
  | _ => false
  end.

Definition acknowledges (e : Event) : bool :=
  match e with
  | Fetch request answer =>
      match body request, receipt_result answer with
      | ReceiptBody _, Ok _ => true
      | _, _ => false
      end
  | _ => false
  end.

Definition refuses (e : Event) : bool :=
  match e with
  | Fetch request answer =>
      match body request with
      | AcceptanceBody _ =>
          match claim_result answer with Throw _ => true | Ok _ => false end
      | ReceiptBody _ =>
          match receipt_result answer with Throw _ => true | Ok _ => false end
      | _ => false
      end
  | _ => false
  end.

(** A receipt submitted to the dispatcher, whatever the answer. *)
Definition submits (e : Event) : bool :=
  match e with
  | Fetch request _ =>
      match body request with ReceiptBody _ => true | _ => false end
  | _ => false
  end.

Definition is_fetch (e : Event) : bool :=
  match e with
  | Fetch _ _ => true
  | _ => false
  end.

Definition count (f : Event → bool) (evs : list Event) : nat :=
  List.length (List.filter f evs).

(** [clearInterval] on a timer. *)
Definition clear (t : Timer) : Timer :=
  {| interval := interval t; cleared := true |}.

(** [mock_env funded] with a clock that advances by [step] milliseconds at
    every interaction. *)
Definition clock_env (step : Z) : Env :=
  {| Date_now := λ t, 1700000000000 + step * Z.of_nat t;
     process_uptime := process_uptime (mock_env funded);
     process_env := process_env (mock_env funded);
     fetch := fetch (mock_env funded);
     fetch_rejection := fetch_rejection (mock_env funded);
     sign_detached := sign_detached (mock_env funded);
     JSON_stringify := JSON_stringify (mock_env funded);
     JSON_parse := JSON_parse (mock_env funded);
     Keypair_fromSecretKey := Keypair_fromSecretKey (mock_env funded);
     new_PublicKey := new_PublicKey (mock_env funded);
     getAssociatedTokenAddress := getAssociatedTokenAddress (mock_env funded);
     getBalance := getBalance (mock_env funded);
     getAccount := getAccount (mock_env funded);
     getLatestBlockhash := getLatestBlockhash (mock_env funded);
     toBufferLE := toBufferLE (mock_env funded);
     sendAndConfirmTransaction :=
       sendAndConfirmTransaction (mock_env funded) |}.

(** A running node with one offer still in its active-offer map. *)
Definition busy_world : World :=
  {| node :=
       {| config := config (sample_node [relay1] true);
          baseUrl := baseUrl (sample_node [relay1] true);
          walletManager := walletManager (sample_node [relay1] true);
          metrics := sample_metrics;
          isRunning := true;
          activeOffers := {[ "offer-1" := sol_offer ]};
          heartbeatInterval :=
            Some {| interval := Num 30000; cleared := false |};
          healthServerStarted := true |};
     interactions := 0;
     trace := [] |}.

(** [mock_env funded] with an RPC node that does not answer balance
    queries. *)
Definition rpc_down_env : Env :=
  {| Date_now := Date_now (mock_env funded);
     process_uptime := process_uptime (mock_env funded);
     process_env := process_env (mock_env funded);
     fetch := fetch (mock_env funded);
     fetch_rejection := fetch_rejection (mock_env funded);
     sign_detached := sign_detached (mock_env funded);
     JSON_stringify := JSON_stringify (mock_env funded);
     JSON_parse := JSON_parse (mock_env funded);
     Keypair_fromSecretKey := Keypair_fromSecretKey (mock_env funded);
     new_PublicKey := new_PublicKey (mock_env funded);
     getAssociatedTokenAddress := getAssociatedTokenAddress (mock_env funded);
     getBalance := λ _ _, Throw (JsError "RPC node unreachable");
     getAccount := getAccount (mock_env funded);
     getLatestBlockhash := getLatestBlockhash (mock_env funded);
     toBufferLE := toBufferLE (mock_env funded);
     sendAndConfirmTransaction :=
       sendAndConfirmTransaction (mock_env funded) |}.

(** What the dispatcher's answer to the ping means for [connect]: every
    failure is reported as a failure to connect. *)
Definition ping_result (answer : outcome Response) : outcome unit :=
  match answer with
  | Ok response =>
      if response_ok response then Ok tt
      else Throw (JsError
             ("Failed to connect to dispatcher: "
                +:+ template_text
                      (JsError ("Dispatcher ping failed: "
                                  +:+ statusText response))))
  | Throw e =>
      Throw (JsError ("Failed to connect to dispatcher: " +:+ template_text e))
  end.

Definition host_line (l : LogLevel) (c : string) (m : HostMsg) : HostLine :=
  {| h_level := l; h_component := c; h_message := m |}.

(** What [connect] logs for the dispatcher's answer. *)
Definition ping_line (n : ShhNode) (answer : outcome Response)
    : list HostLine :=
  match ping_result answer with
  | Ok _ =>
      [host_line INFO "DispatcherClient" (ConnectedToDispatcher (baseUrl n))]
  | Throw _ => []
  end.

(** The node after a heartbeat has been counted, as sent or as failed: one
    of the two heartbeat counters has moved by one and everything else is
    as it was. *)
Definition heartbeat_counted (sent : bool) (n : ShhNode) : ShhNode :=
  {| config := config n; baseUrl := baseUrl n;
     walletManager := walletManager n;
     metrics :=
       {| startTime := startTime (metrics n);
          c_offersReceived := c_offersReceived (metrics n);
          c_offersAccepted := c_offersAccepted (metrics n);
          c_offersCompleted := c_offersCompleted (metrics n);
          c_offersFailed := c_offersFailed (metrics n);
          c_heartbeats :=
            if sent then S (c_heartbeats (metrics n))
            else c_heartbeats (metrics n);
          c_heartbeatErrors :=
            if sent then c_heartbeatErrors (metrics n)
            else S (c_heartbeatErrors (metrics n));
          executionTimes := executionTimes (metrics n);
          m_totalEarnings := m_totalEarnings (metrics n) |};
     isRunning := isRunning n; activeOffers := activeOffers n;
     heartbeatInterval := heartbeatInterval n;
     healthServerStarted := healthServerStarted n |}.

(** Whether the dispatcher answered at all. *)
Definition answered (answer : outcome Response) : bool :=
  match answer with
  | Ok _ => true
  | Throw _ => false
  end.

(** What the tick logs after the request: the warning of [sendHeartbeat]
    for a status that is no success and, at the debug level, that the
    heartbeat was sent; or the error [fetch] threw. *)
Definition heartbeat_lines (env : Env) (answer : outcome Response)
    : list Event :=
  match answer with
  | Ok _ =>
      (heartbeat_warning answer
         ++ if bool_decide (process_env env "LOG_LEVEL" = Some "debug")
            then [Log {| level := DEBUG; component := "ShhNode";
                         message := HeartbeatSent |}]
            else [])%list
  | Throw e => [line WARN (HeartbeatFailed e)]
  end.

(** The heartbeat timer [startHeartbeat] sets. *)
Definition heartbeat_timer (env : Env) : Timer :=
  {| interval :=
       parseInt (or_default (process_env env "HEARTBEAT_INTERVAL_MS") "30000");
     cleared := false |}.

(** [k] periods of the heartbeat timer elapse, one after the other. *)
Fixpoint beats (env : Env) (k : nat) : Js unit :=
  match k with
  | O => mret tt
  | S k' => heartbeat_fires env ;; beats env k'
  end.

(** The errors [start] can throw. *)
Definition start_error (env : Env) (net : Net) (e : thrown) : Prop :=
  e = JsError "Node is already running"
  ∨ (∃ cause t,
       getSlot net t = Throw cause
       ∧ e = JsError ("Failed to connect to Solana RPC: "
                        +:+ template_text cause))
  ∨ e = all_low
  ∨ (∃ answer, ping_result answer = Throw e)
  ∨ (∃ t, server_listen net t (port env) = Throw e).

(** The routes of the health server. *)
Definition route (req_url : option string) : string := or_default req_url "/".

(** A network in which the RPC node answers and the health port is free. *)
Definition mock_net : Net :=
  {| getSlot := λ _, Ok 250000000;
     server_listen := λ _ _, Ok tt;
     listen_error := ltac:(intros ? ? ? H; discriminate H);
     URL_valid := λ _, true;
     JSON_array := λ _, Ok (Some 3%nat) |}.

Definition sample_host (w : World) : Host :=
  {| process := w; console := [] |}.

(** The events of [getBalances]: look-ups of token accounts, and a
    warning for each balance query that failed. *)
Definition balance_event (e : Event) : Prop :=
  match e with
  | GetAccount _ _ => True
  | Log l =>
      level l = WARN ∧ component l = "WalletManager"
      ∧ ∃ walletNo cause, message l = FailedToGetBalance walletNo cause
  | _ => False
  end.

(** The requests for which the health server calls its callback: all but
    OPTIONS requests and requests of a path that is not served. *)
Definition asks_status (req_method : string) (req_url : option string)
    : bool :=
  negb (bool_decide (req_method = "OPTIONS"))
  && (bool_decide (route req_url = "/health")
      || bool_decide (route req_url = "/")
      || bool_decide (route req_url = "/metrics")
      || bool_decide (route req_url = "/ready")).

(** The status codes of the two probes for the health status [hs]. *)
Definition health_code (hs : HealthStatus) : Z :=
  match status hs with
  | unhealthy => 503
  | _ => 200
  end.

Definition ready_code (hs : HealthStatus) : Z :=
  if isReady hs then 200 else 503.

(** A health callback that fails. *)
Definition failing_callback : Js HealthStatus :=
  throw (JsError "RPC node unreachable").

(** A health callback that throws [undefined]. *)
Definition throwing_undefined : Js HealthStatus := throw JsUndefined.

(** The offers of a list, handled one after the other: each handling has
    returned before the next begins. *)
Fixpoint handle_each (env : Env) (offers : list Offer) : Js unit :=
  match offers with
  | [] => mret tt
  | offer :: rest => handleOffer env offer ;; handle_each env rest
  end.

(** The rotation cursor of [w] after [k] picks of a wallet. *)
Definition rotated (w : World) (k : nat) : nat :=
  match k, pool w with
  | O, _ | _, [] => cursor w
  | S _, _ :: _ => (cursor w + k) `mod` List.length (pool w)
  end.

(** The two readings of [JSON.parse] agree: a text that parses to an array
    of [n] entries parses to [n] secrets. *)
Definition parses_alike (env : Env) (net : Net) : Prop :=
  ∀ text n,
    JSON_array net text = Ok (Some n) →
    ∃ secrets, JSON_parse env text = Ok secrets ∧ List.length secrets = n.

(** ** Proof tools *)

Ltac js_unfold :=
  unfold logger_log in *;
  unfold mbind, mret, Js_bind, Js_ret, js_bind, js_ret, get_node, set_node,
    throw, lib, interact, observe, emit, try_catch, pending in *.

(** The logger prints what it can write. *)
Lemma formatMessage_ok (m : LogMsg) :
  forallb json_writable (log_arguments m) = true → formatMessage m = Ok m.
Proof. unfold formatMessage. by intros ->. Qed.

Lemma formatMessage_throws (m : LogMsg) :
  forallb json_writable (log_arguments m) = false →
  formatMessage m = Throw bigint_not_serializable.
Proof. unfold formatMessage. by intros ->. Qed.

Lemma continues_refl (w : World) : continues w w [].
Proof. unfold continues. by rewrite app_nil_r. Qed.

Lemma continues_trans (w1 w2 w3 : World) (evs evs' : list Event) :
  continues w1 w2 evs → continues w2 w3 evs' →
  continues w1 w3 (evs ++ evs').
Proof. unfold continues. intros -> ->. by rewrite app_assoc. Qed.

(** ** Wallet rotation *)

Lemma with_cursor_same (w : World) : with_cursor (cursor w) w = w.
Proof. by destruct w as [[? ? [] ? ? ? ? ?] ? ?]. Qed.

Lemma with_cursor_twice (c c' : nat) (w : World) :
  with_cursor c (with_cursor c' w) = with_cursor c w.
Proof. done. Qed.

Lemma pool_with_cursor (c : nat) (w : World) : pool (with_cursor c w) = pool w.
Proof. done. Qed.

Lemma cursor_with_cursor (c : nat) (w : World) : cursor (with_cursor c w) = c.
Proof. done. Qed.

Lemma getNextRelayWallet_step (w : World) :
  pool w ≠ [] →
  getNextRelayWallet w =
    (Settled (Ok (pool w !! cursor w)),
     with_cursor ((cursor w + 1) `mod` List.length (pool w)) w).
Proof.
  intros Hne. unfold getNextRelayWallet, set_walletManager, pool, cursor in *.
  js_unfold. cbn.
  rewrite bool_decide_eq_false_2; [done|].
  by destruct (relayKeypairs _).
Qed.

Lemma getNextRelayWallet_empty (w : World) :
  pool w = [] →
  getNextRelayWallet w =
    (Settled (Throw (JsError "No relay wallets available")), w).
Proof.
  intros He. unfold getNextRelayWallet, pool in *.
  js_unfold. cbn. by rewrite He.
Qed.

(** From a cursor [c] inside the pool, [k] calls that do not pass its end
    return the [k] wallets from position [c] on. *)
Lemma calls_from_cursor (k : nat) (w : World) :
  (cursor w < List.length (pool w))%nat →
  (cursor w + k ≤ List.length (pool w))%nat →
  calls k getNextRelayWallet w =
    (Settled (Ok (Some <$> take k (drop (cursor w) (pool w)))),
     with_cursor ((cursor w + k) `mod` List.length (pool w)) w).
Proof.
  revert w. induction k as [|k IH]; intros w Hc Hk.
  - cbn. rewrite Nat.add_0_r, Nat.mod_small by done.
    by rewrite with_cursor_same.
  - assert (Hne : pool w ≠ []) by (destruct (pool w); cbn in *; [lia|done]).
    cbn [calls]. unfold mbind at 1, Js_bind, js_bind.
    rewrite (getNextRelayWallet_step w Hne).
    destruct (lookup_lt_is_Some_2 (pool w) (cursor w) Hc) as [kp Hkp].
    rewrite (drop_S _ _ _ Hkp). cbn [take fmap list_fmap].
    destruct (decide (k = 0%nat)) as [->|Hk0].
    + cbn. unfold mbind, mret, Js_bind, Js_ret, js_bind, js_ret.
      by rewrite Hkp, take_0.
    + assert (Hmod : ((cursor w + 1) `mod` List.length (pool w) =
                       S (cursor w))%nat)
        by (rewrite Nat.mod_small; lia).
      rewrite Hmod.
      unfold mbind at 1, Js_bind, js_bind.
      rewrite (IH (with_cursor (S (cursor w)) w));
        rewrite ?pool_with_cursor, ?cursor_with_cursor; [|lia..].
      unfold mret, Js_ret, js_ret. rewrite Hkp, with_cursor_twice.
      by rewrite Nat.add_succ_comm.
Qed.

(** Calls made one after the other: [j + k] calls are [j] calls followed
    by [k] calls. *)
Lemma calls_app {A} (j k : nat) (m : Js A) (w w' : World) (xs : list A) :
  calls j m w = (Settled (Ok xs), w') →
  calls (j + k) m w =
    match calls k m w' with
    | (Settled (Ok ys), w'') => (Settled (Ok (xs ++ ys)%list), w'')
    | r => r
    end.
Proof.
  revert w w' xs. induction j as [|j IH]; intros w w' xs Hj.
  - cbn in Hj. injection Hj as <- <-. cbn.
    by destruct (calls k m w) as [[[]|] ?].
  - cbn [calls Nat.add] in *.
    unfold mbind, mret, Js_bind, Js_ret, js_bind, js_ret in *.
    destruct (m w) as [[[x|e]|] w1]; try done.
    destruct (calls j m w1) as [[[xs'|e]|] w2] eqn:Hc; try done.
    injection Hj as <- <-.
    rewrite (IH _ _ _ Hc).
    by destruct (calls k m w2) as [[[]|] ?].
Qed.

(** A constructed [WalletManager] has at least one relay wallet and its
    cursor at 0. *)
Lemma WalletManager_new_pool (env : Env) (wm : WalletManager)
    (logs : list LogLine) :
  WalletManager_new env = (Ok wm, logs) →
  relayKeypairs wm ≠ [] ∧ currentRelayIndex wm = 0%nat.
Proof.
  unfold WalletManager_new, loadRelaySigners. intros Hnew.
  repeat case_match; simplify_eq; cbn.
  split; [|done]. intros ->. by case_bool_decide.
Qed.

(** C2.  Rotation is round-robin: in a pool of N >= 1 relay wallets with
    the cursor at 0, N consecutive calls of [getNextRelayWallet] return the N
    wallets once each in insertion order, and the call after them returns the
    first wallet again; every call returns the wallet under the cursor and
    moves the cursor to (cursor + 1) mod N; on an empty pool the call throws
    and returns no wallet. *)
Theorem getNextRelayWallet_round_robin (w : World) :
  let N := List.length (pool w) in
  ((N ≥ 1)%nat → cursor w = 0%nat →
     calls N getNextRelayWallet w =
       (Settled (Ok (Some <$> pool w)), w)
     ∧ calls (S N) getNextRelayWallet w =
       (Settled (Ok ((Some <$> pool w) ++ [head (pool w)])%list),
        with_cursor (1 `mod` N) w))
  ∧ ((N ≥ 1)%nat →
     getNextRelayWallet w =
       (Settled (Ok (pool w !! cursor w)),
        with_cursor ((cursor w + 1) `mod` N) w))
  ∧ (N = 0%nat →
     getNextRelayWallet w =
       (Settled (Throw (JsError "No relay wallets available")), w)).
Proof.
  intros N. subst N. split; [|split].
  - intros HN Hc.
    assert (Hne : pool w ≠ []) by (destruct (pool w); cbn in *; [lia|done]).
    assert (HN' : calls (List.length (pool w)) getNextRelayWallet w =
                  (Settled (Ok (Some <$> pool w)), w)).
    { rewrite calls_from_cursor by lia.
      rewrite Hc, drop_0, firstn_all, Nat.add_0_l, Nat.Div0.mod_same.
      by rewrite <- Hc, with_cursor_same. }
    split; [done|].
    (* N + 1 calls are N calls followed by one more *)
    rewrite <- Nat.add_1_r, (calls_app _ 1 _ _ _ _ HN').
    cbn [calls]. unfold mbind at 1, Js_bind, js_bind.
    rewrite (getNextRelayWallet_step w Hne), Hc. cbn.
    by destruct (pool w).
  - intros HN. apply getNextRelayWallet_step.
    destruct (pool w); cbn in *; [lia|done].
  - intros HN. apply getNextRelayWallet_empty.
    by destruct (pool w).
Qed.

(** The rotation of C2 in a pool of three wallets. *)
Lemma getNextRelayWallet_round_robin_witness :
  (calls 4 getNextRelayWallet (sample_world [relay1; relay2; relay3] true)).1 =
    Settled (Ok [Some relay1; Some relay2; Some relay3; Some relay1])
  ∧ (getNextRelayWallet (sample_world [] true)).1 =
      Settled (Throw (JsError "No relay wallets available")).
Proof.
  pose proof (getNextRelayWallet_round_robin
                (sample_world [relay1; relay2; relay3] true)) as [H3 _].
  pose proof (getNextRelayWallet_round_robin (sample_world [] true))
    as (_ & _ & H0).
  cbv zeta in H3, H0.
  destruct (H3 ltac:(cbn; lia) eq_refl) as [_ H4].
  split.
  - exact (f_equal fst H4).
  - exact (f_equal fst (H0 eq_refl)).
Defined.

(** ** [execute] *)

(** [getNextRelayWallet] settles; it touches nothing but the cursor. *)
Lemma getNextRelayWallet_cases (w : World) :
  (pool w = [] ∧
   getNextRelayWallet w =
     (Settled (Throw (JsError "No relay wallets available")), w))
  ∨ ∃ c, getNextRelayWallet w = (Settled (Ok (pool w !! cursor w)),
                                 with_cursor c w).
Proof.
  destruct (decide (pool w = [])) as [He|Hne].
  - left. split; [done|]. by apply getNextRelayWallet_empty.
  - right. eexists. by apply getNextRelayWallet_step.
Qed.

Lemma node_with_cursor_same (n : ShhNode) :
  node_with_cursor (currentRelayIndex (walletManager n)) n = n.
Proof. by destruct n as [? ? [] ? ? ? ? ?]. Qed.

Ltac in_list :=
  repeat first [ apply list_elem_of_here | apply list_elem_of_further ].

Ltac forall_list :=
  repeat first [ apply Forall_nil_2 | apply Forall_cons_2; [exact I|] ].

(** What [SystemProgram.transfer] returns, when it does. *)
Lemma SystemProgram_transfer_ok (source target : string) (x : number)
    (transfer : Instruction) :
  SystemProgram_transfer source target x = Ok transfer →
  ∃ a, x = Num a ∧ 0 <= a < 2 ^ 64
       ∧ transfer = SystemTransfer source target (Num a).
Proof.
  unfold SystemProgram_transfer, u64_codec.
  destruct x as [a| | |]; cbn [BigInt]; [|done..].
  case_bool_decide as Ha; [|done]. intros [= <-]. by exists a.
Qed.

(** The [try] block of [execute] settles, with a receipt of success or with
    a thrown error of one of the listed causes; it changes nothing of the
    node but the rotation cursor, and adds only log lines and chain calls to
    the trace. *)
Lemma execute_try_spec (env : Env) (offer : Offer) (st : Z) (w : World) :
  ∃ o w' evs c,
    execute_try env offer st w = (Settled o, w')
    ∧ continues w w' evs
    ∧ Forall chain_or_log evs
    ∧ node w' = node_with_cursor c (node w)
    ∧ match o with
      | Ok r => is_success_receipt env offer w evs r
      | Throw e => failure_cause env offer w evs e
      end.
Proof.
  unfold execute_try, logger_info, logger_log.
  unfold mbind at 1, Js_bind, js_bind. unfold mbind at 1, Js_bind, js_bind.
  unfold lib at 1. cbn [formatMessage log_arguments forallb].
  unfold emit at 1.
  unfold mbind at 1, Js_bind, js_bind.
  match goal with |- context [getNextRelayWallet ?w0] =>
    destruct (getNextRelayWallet_cases w0) as [[He ->]| [c ->]] end.
  - exists (Throw (JsError "No relay wallets available")).
    eexists _, _, (cursor w). split; [done|]. unfold continues. cbn.
    split; [done|]. split; [forall_list|].
    split; [by unfold cursor; rewrite node_with_cursor_same|]. by left.
  - unfold createUSDCTransfer, createSOLTransfer, property, logger_info,
      logger_log.
    js_unfold. cbn -[SystemProgram_transfer createTransferInstruction].
    unfold is_success_receipt, failure_cause, continues.
    replace (pool (with_cursor c _)) with (pool w) by done.
    unfold pool, cursor.
    repeat case_match; simplify_eq;
      cbn -[SystemProgram_transfer createTransferInstruction];
      eexists _, _, _, c; (split; [done|]);
      cbn -[SystemProgram_transfer createTransferInstruction];
      rewrite <- ?app_assoc;
      cbn -[SystemProgram_transfer createTransferInstruction];
      (split; [done|]); (split; [forall_list|]); (split; [done|]).
    all: cbn -[SystemProgram_transfer createTransferInstruction] in *;
      repeat match goal with H : _ !! _ = _ |- _ => rewrite H end.
    all: repeat match goal with
         | H : bool_decide _ = false |- _ => apply bool_decide_eq_false_1 in H
         | H : bool_decide _ = true |- _ => apply bool_decide_eq_true_1 in H
         end.
    all: try (right; left; done).
    all: try (do 4 right; left; eauto; done).
    all: try (do 3 right; left; done).
    all: try (do 2 right; left; done).
    all: try (do 5 right; left; eauto; done).
    all: try (do 6 right; left; eauto 10; done).
    all: try (do 7 right; left; eauto; done).
    all: try (do 8 right; eexists; in_list; done).
    all: do 4 (split; [done|]); eexists; (split; [in_list|]).
    all: try match goal with
         | H : SystemProgram_transfer _ _ _ = Ok _ |- _ =>
             apply SystemProgram_transfer_ok
               in H as (lamports_ & Hparsed & Hrange & ->);
             left; (split; [done|]); exists lamports_; rewrite Hparsed;
             (split; [done|]); (split; [exact Hrange|]); eauto
         end.
    all: right; (split; [done|]); eexists _, _, _, _; (split; [eassumption|]).
    all: try (left; split; [eexists; in_list|done]).
    all: right; (split; [eexists; in_list|]); eauto.
Qed.

(** [execute] settles.  What its [try] block threw becomes a failure
    receipt, unless the logger cannot write the error: then the log
    statement of the [catch] block throws, and [execute] with it. *)
Lemma execute_spec (env : Env) (offer : Offer) (w : World) :
  ∃ o w' evs c,
    execute env offer w = (Settled o, w')
    ∧ continues w w' evs
    ∧ Forall chain_or_log evs
    ∧ node w' = node_with_cursor c (node w)
    ∧ match o with
      | Ok r =>
          is_success_receipt env offer w evs r
          ∨ ∃ e, failure_cause env offer w evs e
                 ∧ json_writable e = true
                 ∧ is_failure_receipt offer e r
      | Throw e' =>
          e' = bigint_not_serializable
          ∧ ∃ e, failure_cause env offer w evs e ∧ json_writable e = false
      end.
Proof.
  unfold execute. unfold mbind at 1, Js_bind, js_bind, interact at 1.
  unfold try_catch.
  match goal with |- context [execute_try env offer ?st ?w0] =>
    destruct (execute_try_spec env offer st w0)
      as ([r|e] & w1 & evs & c & -> & Hc & Hev & Hn & Hr) end.
  - exists (Ok r), w1, evs, c. repeat split; try done. by left.
  - unfold execute_catch, logger_error, logger_log, formatMessage.
    cbn [log_arguments forallb]. rewrite andb_true_r.
    js_unfold. cbn. unfold continues in *. cbn in *.
    destruct (json_writable e) eqn:Hjson; cbn.
    + eexists (Ok _), _, (evs ++ [_])%list, c. split; [done|].
      cbn. rewrite Hc.
      split; [by rewrite app_assoc|].
      split; [apply Forall_app; split; [done|forall_list]|].
      split; [done|]. right. exists e. split; [|done].
      unfold failure_cause in *. cbn in Hr.
      destruct Hr as [?|[?|[?|[?|[?|[?|[?|[?|[tx ?]]]]]]]]]; eauto 12.
      do 8 right. exists tx. apply elem_of_app. by left.
    + eexists (Throw _), _, evs, c. split; [done|].
      cbn. split; [done|]. split; [done|]. split; [done|].
      split; [done|]. by exists e.
Qed.

(** ** The claims about [execute] *)

(** C7.  [execute] does not always return a receipt.  For the SOL offer of
    the amount "-5", [SystemProgram.transfer] throws an error that carries
    the amount as a [bigint]; the [catch] block of [execute] hands it to
    [logger.error], whose [JSON.stringify] throws a [TypeError] on it; and
    [execute] rejects with that [TypeError]: no receipt is returned, nothing
    is submitted to the chain, and the failure is not logged. *)
Theorem execute_rejects_negative_amount :
  let w := sample_world [relay1] true in
  parseInt (amount negative_offer) = Num (-5)
  ∧ (∃ e,
       SystemProgram_transfer "Relay1" "Recipient6" (Num (-5)) = Throw e
       ∧ json_writable e = false
       ∧ formatMessage (FailedToExecute "offer-6" 1 e) =
           Throw bigint_not_serializable)
  ∧ ∃ w',
      execute (mock_env funded) negative_offer w =
        (Settled (Throw bigint_not_serializable), w')
      ∧ trace w' =
          [Log {| level := INFO; component := "TransactionExecutor";
                  message := ExecutingOffer "offer-6" "SOL" "-5" |}].
Proof.
  split; [reflexivity|]. split.
  - eexists. split; [reflexivity|]. split; reflexivity.
  - eexists. split; vm_compute; reflexivity.
Qed.

(** The estimate [0.002 * LAMPORTS_PER_SOL] is the integer 2000000 in
    binary64 arithmetic. *)
Lemma ata_creation_fee_binary64 :
  (0.002 * LAMPORTS_PER_SOL)%float = 2000000%float.
Proof. reflexivity. Qed.

(** An integer of magnitude below 2^53 is a double. *)
Lemma to_binary64_exact (z : Z) : Z.abs z < 2 ^ 53 → to_binary64 z = Num z.
Proof.
  intros Hz. unfold to_binary64, round_magnitude.
  rewrite (bool_decide_eq_true_2 _ Hz).
  rewrite bool_decide_eq_true_2 by (change (2 ^ 53) with 9007199254740992 in Hz;
    change (2 ^ 1024) with (2 ^ 53 * 2 ^ 971); nia).
  f_equal. destruct z; cbn; lia.
Qed.

(** C8.  On a successful execution the receipt has [success = true], the
    signature the chain returned for the submitted transaction, and
    [feePaid] equal to the offer's fee.  Its spent amount is, for a SOL
    offer, the number of lamports transferred: the amount as [parseInt]
    reads it, a binary64 number between 0 and 2^64; for a USDC offer it is
    the token-account creation fee (2,000,000) if the recipient's account
    had to be created and zero if it existed.  What [parseInt] reads is the
    double nearest to the integer written, which is that integer when it is
    below 2^53.  A SOL offer of 10,000,000 confirmed with signature "SIG1"
    yields [spentLamports = 10000000], [success = true],
    [txSignature = "SIG1"]. *)
Theorem execute_success_accounting :
  (∀ (env : Env) (offer : Offer) (w w' : World) (r : ExecutionReceipt),
     execute env offer w = (Settled (Ok r), w') →
     success r = true →
     ∃ evs, continues w w' evs ∧ is_success_receipt env offer w evs r)
  ∧ (∀ z, Z.abs z < 2 ^ 53 → to_binary64 z = Num z)
  ∧ (∃ timestamp w',
       execute (mock_env funded) sol_offer (sample_world [relay1] true) =
         (Settled (Ok {| r_partId := "part-1";
                         txSignature := "SIG1";
                         spentLamports := Num 10000000;
                         feePaid := 5000;
                         r_timestamp := timestamp;
                         success := true;
                         error := None |}), w')).
Proof.
  split; [|split].
  - intros env offer w w' r Hrun Hsucc.
    destruct (execute_spec env offer w)
      as (o & w0 & evs & c & Hrun0 & Hc & _ & _ & Hr).
    rewrite Hrun in Hrun0. injection Hrun0 as <- <-.
    exists evs. split; [done|].
    destruct Hr as [Hs|(e & _ & _ & Hf)]; [done|].
    destruct Hf as (_ & _ & _ & _ & Hfalse & _). congruence.
  - apply to_binary64_exact.
  - eexists _, _. vm_compute. reflexivity.
Qed.

(** The general part of C8 at a USDC offer whose recipient has a token
    account: nothing is counted as spent. *)
Lemma execute_success_accounting_witness :
  ∃ r w',
    execute (mock_env funded) usdc_offer (sample_world [relay1] true) =
      (Settled (Ok r), w')
    ∧ success r = true
    ∧ spentLamports r = Num 0
    ∧ ∃ evs,
        is_success_receipt (mock_env funded) usdc_offer
          (sample_world [relay1] true) evs r.
Proof.
  eexists _, _. split; [vm_compute; reflexivity|]. split; [reflexivity|].
  split; [reflexivity|].
  destruct (proj1 execute_success_accounting (mock_env funded) usdc_offer
              (sample_world [relay1] true) _ _
              ltac:(vm_compute; reflexivity) eq_refl)
    as (evs & _ & Hs).
  exists evs. exact Hs.
Defined.

(** The claim of C8 as it is written fails above 2^53: for the SOL offer of
    9007199254740993 lamports the transfer goes through and the receipt
    reports 9007199254740992 lamports as spent. *)
Lemma spent_amount_is_rounded :
  ∃ r w',
    execute (mock_env funded) huge_offer (sample_world [relay1] true) =
      (Settled (Ok r), w')
    ∧ success r = true
    ∧ amount huge_offer = "9007199254740993"
    ∧ spentLamports r = Num 9007199254740992.
Proof.
  eexists _, _. split; [vm_compute; reflexivity|]. repeat split.
Qed.

(** ** The dispatcher client *)

Lemma post_spec (env : Env) (path : string) (payload : JsonBody) (w : World) :
  ∃ request answer w',
    post env path payload w =
      (Settled answer, w')
    ∧ continues w w' [Fetch request answer]
    ∧ node w' = node w
    ∧ body request = payload
    ∧ url request = baseUrl (node w) +:+ path
    ∧ (∀ e, answer = Throw e → json_writable e = true).
Proof.
  unfold post, getAuthHeaders. js_unfold. cbn.
  eexists _, _, _. split; [done|]. unfold continues. cbn.
  repeat split. intros e He. by eapply fetch_rejection.
Qed.

(** The errors of the dispatcher client can be logged. *)
Lemma claim_result_writable (answer : outcome Response) (e : thrown) :
  (∀ e, answer = Throw e → json_writable e = true) →
  claim_result answer = Throw e → json_writable e = true.
Proof.
  intros Hw. destruct answer as [response|e']; cbn.
  - repeat case_match; try done. by intros [= <-].
  - intros [= <-]. by apply Hw.
Qed.

Lemma receipt_result_writable (answer : outcome Response) (e : thrown) :
  (∀ e, answer = Throw e → json_writable e = true) →
  receipt_result answer = Throw e → json_writable e = true.
Proof.
  intros Hw. destruct answer as [response|e']; cbn.
  - repeat case_match; try done. by intros [= <-].
  - intros [= <-]. by apply Hw.
Qed.

Lemma acceptOffer_spec (env : Env) (acceptance : OfferAcceptance) (w : World) :
  ∃ request answer w',
    acceptOffer env acceptance w = (Settled (claim_result answer), w')
    ∧ continues w w' [Fetch request answer]
    ∧ node w' = node w
    ∧ body request = AcceptanceBody acceptance
    ∧ url request = baseUrl (node w) +:+ "/api/node/accept"
    ∧ (∀ e, answer = Throw e → json_writable e = true).
Proof.
  unfold acceptOffer. unfold mbind at 1, Js_bind, js_bind.
  destruct (post_spec env "/api/node/accept" (AcceptanceBody acceptance) w)
    as (request & answer & w' & -> & Hc & Hn & Hb & Hu).
  exists request, answer, w'. split; [|done].
  destruct answer as [response|e]; [|done]. cbn.
  js_unfold. by repeat case_match.
Qed.

Lemma submitReceipt_spec (env : Env) (receipt : ExecutionReceipt) (w : World) :
  ∃ request answer w',
    submitReceipt env receipt w = (Settled (receipt_result answer), w')
    ∧ continues w w' [Fetch request answer]
    ∧ node w' = node w
    ∧ body request = ReceiptBody receipt
    ∧ url request = baseUrl (node w) +:+ "/api/node/receipt"
    ∧ (∀ e, answer = Throw e → json_writable e = true).
Proof.
  unfold submitReceipt. unfold mbind at 1, Js_bind, js_bind.
  destruct (post_spec env "/api/node/receipt" (ReceiptBody receipt) w)
    as (request & answer & w' & -> & Hc & Hn & Hb & Hu).
  exists request, answer, w'. split; [|done].
  destruct answer as [response|e]; [|done]. cbn.
  js_unfold. by repeat case_match.
Qed.

(** ** Admission *)

Lemma validateOffer_spec (env : Env) (offer : Offer) (w : World) :
  ∃ w' evs,
    validateOffer env offer w = (Settled (Ok (admissible env offer w)), w')
    ∧ continues w w' evs
    ∧ Forall is_log evs
    ∧ node w' = node w
    ∧ (over_ceiling env offer = true → interactions w' = interactions w).
Proof.
  unfold validateOffer, admissible, over_ceiling, at_capacity, expired,
    logger_warn, continues.
  destruct (bool_decide (asset offer = "SOL") && number_gt _ _) eqn:Hceil.
  { js_unfold. cbn. eexists _, _. split; [done|]. cbn.
    split; [done|]. split; [forall_list|]. done. }
  js_unfold. cbn.
  destruct (bool_decide (_ >= _)) eqn:Hcap.
  { cbn. eexists _, _. split; [done|]. cbn.
    split; [done|]. split; [forall_list|]. done. }
  destruct (truthy (expiresAt offer)) eqn:Hexp; cbn.
  - destruct (bool_decide (_ > _)) eqn:Hnow; cbn.
    + eexists _, _. split; [done|]. cbn.
      split; [done|]. split; [forall_list|]. done.
    + eexists _, []. split; [done|]. cbn.
      split; [by rewrite app_nil_r|]. done.
  - eexists _, []. split; [done|]. cbn.
    split; [by rewrite app_nil_r|]. done.
Qed.

(** ** [handleOffer] *)

Lemma admissible_same (env : Env) (offer : Offer) (w w' : World) :
  node w' = node w → interactions w' = interactions w →
  admissible env offer w' = admissible env offer w.
Proof.
  unfold admissible, at_capacity, expired. by intros -> ->.
Qed.

(** [handleOffer] always returns, and along one of the five paths: what
    reaches its [catch] block is an error of the dispatcher client or the
    [TypeError] with which [execute] rejects, and the logger can write
    both. *)
Lemma handleOffer_spec (env : Env) (offer : Offer) (w : World) :
  ∃ w' evs,
    handleOffer env offer w = (Settled (Ok tt), w')
    ∧ continues w w' evs
    ∧ handled env offer w w' evs.
Proof.
  unfold handleOffer, handleOffer_try, handleOffer_catch, activeOffers_set,
    activeOffers_delete, set_activeOffers, recordOfferAccepted,
    recordOfferCompleted, recordOfferFailed, set_metrics, logger_info,
    logger_warn, logger_error.
  js_unfold. cbn -[validateOffer acceptOffer execute submitReceipt].
  match goal with |- context [validateOffer env offer ?w0] =>
    destruct (validateOffer_spec env offer w0)
      as (w2 & evs2 & -> & Hc2 & Hl2 & Hn2 & _);
    rewrite (admissible_same env offer (tick w) w0) by done
  end.
  unfold continues in *. cbn in Hc2, Hn2.
  assert (Hlogs : Forall is_log
    (Log {| level := INFO; component := "ShhNode";
            message := ReceivedOffer (id offer) (asset offer) (amount offer) |}
       :: evs2)) by by apply Forall_cons_2.
  destruct (admissible env offer (tick w)) eqn:Hadm;
    cbn -[validateOffer acceptOffer execute submitReceipt].
  2:{ (* not admitted *)
    eexists _, _. split; [done|]. cbn.
    rewrite Hc2, <- !app_assoc. split; [done|].
    apply handled_rejected; [done| |done].
    cbn. apply Forall_cons_2; [done|]. apply Forall_app. split; [done|].
    forall_list. }
  match goal with |- context [acceptOffer env ?a ?w0] =>
    destruct (acceptOffer_spec env a w0)
      as (req & ans & w3 & -> & Hc3 & Hn3 & Hb3 & _ & Hw3)
  end.
  unfold continues in *. cbn in Hc3, Hn3.
  assert (Hclaims : claims offer req) by (eexists; split; [exact Hb3|done]).
  destruct (claim_result ans) as [[|]|e] eqn:Hres;
    cbn -[validateOffer acceptOffer execute submitReceipt].
  - (* claim won *)
    match goal with |- context [execute env offer ?w0] =>
      destruct (execute_spec env offer w0)
        as ([r|e] & w4 & evs4 & c & -> & Hc4 & Hl4 & Hn4 & Hr4)
    end.
    2:{ (* execute throws *)
      destruct Hr4 as [-> _].
      unfold continues in *. cbn in Hc4, Hn4.
      rewrite formatMessage_ok by done.
      cbn -[validateOffer acceptOffer execute submitReceipt].
      eexists _, _. split; [done|]. cbn.
      rewrite Hc4, Hc3, Hc2, <- !app_assoc. cbn.
      split; [done|].
      match goal with |- handled _ _ _ ?W _ =>
        pose proof (handled_aborted env offer w W
          (line INFO (ReceivedOffer (id offer) (asset offer) (amount offer))
             :: evs2) req ans evs4) as Hh
      end.
      unfold line in Hh. rewrite <- ?app_assoc in Hh. cbn in Hh.
      apply Hh; try done.
      * cbn. rewrite Hn4, Hn3, Hn2. cbn. by rewrite delete_insert_eq.
      * cbn. by rewrite Hn4, Hn3, Hn2. }
    unfold continues in *. cbn in Hc4, Hn4.
    destruct (submitReceipt_spec env r w4)
      as (req' & ans' & w5 & -> & Hc5 & Hn5 & Hb5 & _ & Hw5).
    unfold continues in *.
    assert (Hpart : r_partId r = partId offer).
    { destruct Hr4 as [Hs|(e & _ & _ & Hf)]; [apply Hs|apply Hf]. }
    destruct (receipt_result ans') as [[]|e] eqn:Hres';
      cbn -[validateOffer acceptOffer execute submitReceipt].
    + eexists _, _. split; [done|]. cbn.
      rewrite Hc5, Hc4, Hc3, Hc2, <- !app_assoc. cbn.
      split; [done|].
      match goal with |- handled _ _ _ ?W _ =>
        pose proof (handled_claimed env offer w W (line INFO (ReceivedOffer (id offer) (asset offer) (amount offer))
           :: evs2) req ans evs4 r
                      req' ans'
                      (CompletedOffer (id offer) (txSignature r))) as Hh
      end.
      rewrite Hres' in Hh. unfold line in Hh.
      rewrite <- ?app_assoc in Hh. cbn in Hh.
      apply Hh; try done.
      * rewrite Hn5, Hn4, Hn3, Hn2. cbn. by rewrite delete_insert_eq.
      * by rewrite Hn5, Hn4, Hn3, Hn2.
    + rewrite formatMessage_ok
        by (cbn; by rewrite (receipt_result_writable ans' e Hw5 Hres')).
      cbn -[validateOffer acceptOffer execute submitReceipt].
      eexists _, _. split; [done|]. cbn.
      rewrite Hc5, Hc4, Hc3, Hc2, <- !app_assoc. cbn.
      split; [done|].
      match goal with |- handled _ _ _ ?W _ =>
        pose proof (handled_claimed env offer w W (line INFO (ReceivedOffer (id offer) (asset offer) (amount offer))
           :: evs2) req ans evs4 r
                      req' ans'
                      (FailedToExecuteOffer (id offer) e)) as Hh
      end.
      rewrite Hres' in Hh. unfold line in Hh.
      rewrite <- ?app_assoc in Hh. cbn in Hh.
      apply Hh; try done.
      * rewrite Hn5, Hn4, Hn3, Hn2. cbn. by rewrite delete_insert_eq.
      * by rewrite Hn5, Hn4, Hn3, Hn2.
  - (* claim lost *)
    eexists _, _. split; [done|]. cbn.
    rewrite Hc3, Hc2, <- !app_assoc. cbn. split; [done|].
    match goal with |- handled _ _ _ ?W _ =>
      pose proof (handled_claim_lost env offer w W (line INFO (ReceivedOffer (id offer) (asset offer) (amount offer))
           :: evs2) req ans) as Hh
    end.
    unfold line in Hh. rewrite <- ?app_assoc in Hh. cbn in Hh.
    apply Hh; try done.
    cbn. by rewrite Hn3, Hn2.
  - (* claim request failed *)
    rewrite formatMessage_ok
      by (cbn; by rewrite (claim_result_writable ans e Hw3 Hres)).
    cbn -[validateOffer acceptOffer execute submitReceipt].
    eexists _, _. split; [done|]. cbn.
    rewrite Hc3, Hc2, <- !app_assoc. cbn. split; [done|].
    match goal with |- handled _ _ _ ?W _ =>
      pose proof (handled_claim_failed env offer w W (line INFO (ReceivedOffer (id offer) (asset offer) (amount offer))
           :: evs2) req ans e)
        as Hh
    end.
    unfold line in Hh. rewrite <- ?app_assoc in Hh. cbn in Hh.
    apply Hh; try done.
    + cbn. by rewrite Hn3, Hn2.
    + cbn. by rewrite Hn3, Hn2.
Qed.

(** ** The claims about [handleOffer] *)

Lemma is_log_quiet (e : Event) :
  is_log e →
  ¬ is_active_set e ∧ ¬ is_claim_request e ∧ ¬ is_lost_claim e
  ∧ ¬ is_receipt_submission e.
Proof. destruct e; cbn; tauto. Qed.

Lemma chain_or_log_quiet (e : Event) :
  chain_or_log e →
  ¬ is_active_set e ∧ ¬ is_claim_request e ∧ ¬ is_lost_claim e
  ∧ ¬ is_receipt_submission e.
Proof. destruct e; cbn; tauto. Qed.

Lemma Forall_is_log (P : Event → Prop) (l : list Event) :
  (∀ e, is_log e → P e) → Forall is_log l → Forall P l.
Proof. intros HP Hl. by eapply Forall_impl. Qed.

Lemma Forall_chain_or_log (P : Event → Prop) (l : list Event) :
  (∀ e, chain_or_log e → P e) → Forall chain_or_log l → Forall P l.
Proof. intros HP Hl. by eapply Forall_impl. Qed.

Lemma lost_claim_result (request : Request) (answer : outcome Response) :
  is_lost_claim (Fetch request answer) → claim_result answer = Ok false.
Proof.
  destruct answer as [response|e]; cbn; [|done].
  destruct (body request); try done.
  intros ->. by rewrite bool_decide_eq_true_2.
Qed.

Lemma receipt_is_no_claim (request : Request) (answer : outcome Response)
    (r : ExecutionReceipt) :
  body request = ReceiptBody r →
  ¬ is_lost_claim (Fetch request answer)
  ∧ ¬ is_claim_request (Fetch request answer).
Proof. intros Hb. cbn. rewrite Hb. destruct answer; cbn; tauto. Qed.

Lemma claim_is_no_receipt (offer : Offer) (request : Request)
    (answer : outcome Response) :
  claims offer request → ¬ is_receipt_submission (Fetch request answer).
Proof. intros (a & Hb & _). cbn. rewrite Hb. tauto. Qed.

Ltac forall_quiet :=
  repeat first [ apply Forall_nil_2 | apply Forall_cons_2; [cbn; tauto|] ].

(** C1.  [handleOffer] always returns normally, and whenever it has
    inserted the offer into the active-offer map, the map has no entry for
    the offer's id when it returns: the insertion is followed, after the log
    lines and chain calls of [execute], by the deletion of that id, along
    one of three endings.  Either [execute] returned a receipt, reporting
    success or a failure, and the dispatcher acknowledged it; or the
    submission of the receipt threw; or [execute] itself threw, in which
    case no receipt is submitted and the [catch] block deletes the offer. *)
Theorem active_set_never_leaks (env : Env) (offer : Offer) (w : World) :
  ∃ w' evs,
    handleOffer env offer w = (Settled (Ok tt), w')
    ∧ continues w w' evs
    ∧ (Exists is_active_set evs →
       activeOffers (node w') !! id offer = None
       ∧ ∃ before chain ending,
           evs = (before
                    ++ ActiveSet (id offer) offer
                    :: line INFO (AcceptedOfferExecuting (id offer))
                    :: chain ++ ending)%list
           ∧ Forall (λ e, ¬ is_active_set e) before
           ∧ Forall chain_or_log chain
           ∧ resolution offer ending
           ∧ ActiveDelete (id offer) ∈ ending
           ∧ Forall (λ e, ¬ is_active_set e) (chain ++ ending)).
Proof.
  destruct (handleOffer_spec env offer w) as (w' & evs & Hrun & Hc & Hh).
  exists w', evs. split; [done|]. split; [done|]. intros Hset.
  destruct Hh as [logs Hadm Hlogs Hn
                 |logs req ans Hadm Hlogs Hcl Hres Hn
                 |logs req ans e Hadm Hlogs Hcl Hres Ha Hr
                 |logs req ans chain Hadm Hlogs Hcl Hres Hchain Ha Hr
                 |logs req ans chain r req' ans' last Hadm Hlogs Hcl Hres
                    Hchain Hb Hp Hlast Ha Hr].
  - apply Exists_exists in Hset as (e & He & Hs).
    rewrite Forall_forall in Hlogs. destruct (is_log_quiet e (Hlogs e He)) as (? & ? & ? & ?); done.
  - apply Exists_app in Hset as [Hset|Hset].
    + apply Exists_exists in Hset as (e & He & Hs).
      rewrite Forall_forall in Hlogs.
      destruct (is_log_quiet e (Hlogs e He)) as (? & ? & ? & ?); done.
    + by repeat (apply Exists_cons in Hset as [Hset|Hset]; [done|]);
        apply Exists_nil in Hset.
  - apply Exists_app in Hset as [Hset|Hset].
    + apply Exists_exists in Hset as (e' & He & Hs).
      rewrite Forall_forall in Hlogs.
      destruct (is_log_quiet e' (Hlogs e' He)) as (? & ? & ? & ?); done.
    + by repeat (apply Exists_cons in Hset as [Hset|Hset]; [done|]);
        apply Exists_nil in Hset.
  - split; [by rewrite Ha, lookup_delete_eq|].
    exists (logs ++ [Fetch req ans])%list, chain. eexists.
    split; [by rewrite <- app_assoc|].
    split.
    { apply Forall_app. split; [|forall_quiet].
      eapply Forall_is_log; [|done]. intros e' He'.
      destruct (is_log_quiet e' He') as (? & ? & ? & ?); done. }
    split; [done|]. split; [apply execution_threw|].
    split; [in_list|].
    apply Forall_app. split; [|forall_quiet].
    eapply Forall_chain_or_log; [|done]. intros e' He'.
    destruct (chain_or_log_quiet e' He') as (? & ? & ? & ?); done.
  - split; [by rewrite Ha, lookup_delete_eq|].
    exists (logs ++ [Fetch req ans])%list, chain. eexists.
    split; [by rewrite <- app_assoc|].
    split.
    { apply Forall_app. split; [|forall_quiet].
      eapply Forall_is_log; [|done]. intros e' He'.
      destruct (is_log_quiet e' He') as (? & ? & ? & ?); done. }
    split; [done|].
    split.
    { destruct (receipt_result ans') as [[]|e] eqn:Hres'; subst last.
      - by eapply receipt_acknowledged.
      - by eapply receipt_lost. }
    split; [in_list|].
    apply Forall_app. split; [|forall_quiet].
    eapply Forall_chain_or_log; [|done]. intros e' He'.
    destruct (chain_or_log_quiet e' He') as (? & ? & ? & ?); done.
Qed.

(** Four runs of C1, each with the offer inserted and gone at the end: all
    goes well; [execute] returns a failure receipt (an asset that is not
    supported); the submission of the receipt throws; and [execute] throws
    (a negative amount), where a failure is counted and the dispatcher sees
    no receipt. *)
Lemma active_set_never_leaks_witness :
  (∃ w',
     handleOffer (mock_env funded) sol_offer (sample_world [relay1] true) =
       (Settled (Ok tt), w')
     ∧ ActiveSet "offer-1" sol_offer ∈ trace w'
     ∧ activeOffers (node w') !! "offer-1" = None)
  ∧ (∃ w',
       handleOffer (mock_env funded) btc_offer (sample_world [relay1] true) =
         (Settled (Ok tt), w')
       ∧ ActiveSet "offer-3" btc_offer ∈ trace w'
       ∧ activeOffers (node w') !! "offer-3" = None)
  ∧ (∃ w',
       handleOffer receipt_lost_env sol_offer (sample_world [relay1] true) =
         (Settled (Ok tt), w')
       ∧ ActiveSet "offer-1" sol_offer ∈ trace w'
       ∧ activeOffers (node w') !! "offer-1" = None)
  ∧ (∃ w',
       handleOffer (mock_env funded) negative_offer
         (sample_world [relay1] true) = (Settled (Ok tt), w')
       ∧ ActiveSet "offer-6" negative_offer ∈ trace w'
       ∧ activeOffers (node w') !! "offer-6" = None
       ∧ c_offersFailed (metrics (node w')) = 1%nat
       ∧ Forall (λ e, ¬ is_receipt_submission e) (trace w')
       ∧ execute (mock_env funded) negative_offer
           (sample_world [relay1] true) =
           (Settled (Throw bigint_not_serializable),
            (execute (mock_env funded) negative_offer
               (sample_world [relay1] true)).2)).
Proof.
  split; [|split; [|split]].
  - destruct (active_set_never_leaks (mock_env funded) sol_offer
                (sample_world [relay1] true))
      as (w' & evs & Hrun & Hc & Hleak).
    let r := eval vm_compute in
        (handleOffer (mock_env funded) sol_offer (sample_world [relay1] true)) in
    assert (Hw : handleOffer (mock_env funded) sol_offer
                   (sample_world [relay1] true) = r)
      by (vm_compute; reflexivity).
    assert (Hw' := eq_trans (eq_sym Hw) Hrun). injection Hw' as Hw'.
    subst w'. unfold continues in Hc. cbn [trace sample_world app] in Hc.
    subst evs.
    eexists. split; [exact Hrun|]. cbn [trace].
    split; [in_list|].
    apply Hleak. apply Exists_exists.
    exists (ActiveSet "offer-1" sol_offer). split; [in_list|exact I].
  - eexists. split; [vm_compute; reflexivity|].
    split; [cbn [trace]; in_list|]. vm_compute. reflexivity.
  - eexists. split; [vm_compute; reflexivity|].
    split; [cbn [trace]; in_list|]. vm_compute. reflexivity.
  - eexists. split; [vm_compute; reflexivity|].
    split; [cbn [trace]; in_list|].
    split; [vm_compute; reflexivity|]. split; [reflexivity|].
    split; [cbn [trace]; repeat constructor; cbn; tauto|].
    vm_compute. reflexivity.
Defined.

(** C4.  A claim answered with HTTP 409 makes [acceptOffer] return [false]
    (it does not throw), and [handleOffer] then does nothing more than log:
    the offer is never inserted into the active-offer map, no receipt is
    submitted, and the node is left exactly as it was. *)
Theorem lost_claim_is_dropped (env : Env) (offer : Offer) (w : World) :
  (∀ acceptance w0 r w1 request response,
     acceptOffer env acceptance w0 = (r, w1) →
     trace w1 = (trace w0 ++ [Fetch request (Ok response)])%list →
     http_status response = 409 →
     r = Settled (Ok false))
  ∧ ∃ w' evs,
      handleOffer env offer w = (Settled (Ok tt), w')
      ∧ continues w w' evs
      ∧ (Exists is_lost_claim evs →
         node w' = node w
         ∧ Forall (λ e, ¬ is_active_set e ∧ ¬ is_receipt_submission e) evs
         ∧ ∃ logs request answer,
             evs = (logs ++ [Fetch request answer;
                             line INFO (ClaimedByAnotherNode (id offer))])%list
             ∧ Forall is_log logs).
Proof.
  split.
  { intros acceptance w0 r w1 request response Hrun Htrace Hstatus.
    destruct (acceptOffer_spec env acceptance w0)
      as (request' & answer & w1' & Hrun' & Hc & _).
    rewrite Hrun in Hrun'. injection Hrun' as -> <-.
    unfold continues in Hc. rewrite Htrace in Hc.
    apply app_inv_head in Hc. injection Hc as _ <-.
    cbn. by rewrite bool_decide_eq_true_2. }
  destruct (handleOffer_spec env offer w) as (w' & evs & Hrun & Hc & Hh).
  exists w', evs. split; [done|]. split; [done|]. intros Hlost.
  destruct Hh as [logs Hadm Hlogs Hn
                 |logs req ans Hadm Hlogs Hcl Hres Hn
                 |logs req ans e Hadm Hlogs Hcl Hres Ha Hr
                 |logs req ans chain Hadm Hlogs Hcl Hres Hchain Ha Hr
                 |logs req ans chain r req' ans' last Hadm Hlogs Hcl Hres
                    Hchain Hb Hp Hlast Ha Hr].
  - apply Exists_exists in Hlost as (e & He & Hs).
    rewrite Forall_forall in Hlogs. destruct (is_log_quiet e (Hlogs e He)) as (? & ? & ? & ?); done.
  - split; [done|]. split; [|exists logs, req, ans; split; [reflexivity|assumption]].
    apply Forall_app. split.
    + eapply Forall_is_log; [|done]. intros e' He'.
      destruct (is_log_quiet e' He') as (? & ? & ? & ?); done.
    + apply Forall_cons_2; [|forall_quiet].
      split; [cbn; tauto|]. by eapply claim_is_no_receipt.
  - exfalso. apply Exists_app in Hlost as [Hlost|Hlost].
    + apply Exists_exists in Hlost as (e' & He & Hs).
      rewrite Forall_forall in Hlogs.
      destruct (is_log_quiet e' (Hlogs e' He)) as (? & ? & ? & ?); done.
    + apply Exists_cons in Hlost as [Hlost|Hlost].
      { apply lost_claim_result in Hlost. congruence. }
      by repeat (apply Exists_cons in Hlost as [Hlost|Hlost]; [done|]);
        apply Exists_nil in Hlost.
  - exfalso. apply Exists_app in Hlost as [Hlost|Hlost].
    { apply Exists_exists in Hlost as (e' & He & Hs).
      rewrite Forall_forall in Hlogs.
      destruct (is_log_quiet e' (Hlogs e' He)) as (? & ? & ? & ?); done. }
    apply Exists_app in Hlost as [Hlost|Hlost].
    { apply Exists_cons in Hlost as [Hlost|Hlost].
      { apply lost_claim_result in Hlost. congruence. }
      by repeat (apply Exists_cons in Hlost as [Hlost|Hlost]; [done|]);
        apply Exists_nil in Hlost. }
    apply Exists_app in Hlost as [Hlost|Hlost].
    { apply Exists_exists in Hlost as (e' & He & Hs).
      rewrite Forall_forall in Hchain.
      destruct (chain_or_log_quiet e' (Hchain e' He)) as (? & ? & ? & ?); done. }
    by repeat (apply Exists_cons in Hlost as [Hlost|Hlost]; [done|]);
      apply Exists_nil in Hlost.
  - exfalso. apply Exists_app in Hlost as [Hlost|Hlost].
    { apply Exists_exists in Hlost as (e' & He & Hs).
      rewrite Forall_forall in Hlogs.
      destruct (is_log_quiet e' (Hlogs e' He)) as (? & ? & ? & ?); done. }
    apply Exists_app in Hlost as [Hlost|Hlost].
    { apply Exists_cons in Hlost as [Hlost|Hlost].
      { apply lost_claim_result in Hlost. congruence. }
      by repeat (apply Exists_cons in Hlost as [Hlost|Hlost]; [done|]);
        apply Exists_nil in Hlost. }
    apply Exists_app in Hlost as [Hlost|Hlost].
    { apply Exists_exists in Hlost as (e' & He & Hs).
      rewrite Forall_forall in Hchain.
      destruct (chain_or_log_quiet e' (Hchain e' He)) as (? & ? & ? & ?); done. }
    apply Exists_cons in Hlost as [Hlost|Hlost].
    { by destruct (receipt_is_no_claim req' ans' r Hb). }
    by repeat (apply Exists_cons in Hlost as [Hlost|Hlost]; [done|]);
      apply Exists_nil in Hlost.
Qed.

(** C4 when the dispatcher answers the claim with HTTP 409. *)
Lemma lost_claim_is_dropped_witness :
  ∃ w',
    handleOffer conflict_env sol_offer (sample_world [relay1] true) =
      (Settled (Ok tt), w')
    ∧ node w' = node (sample_world [relay1] true)
    ∧ Forall (λ e, ¬ is_active_set e ∧ ¬ is_receipt_submission e) (trace w').
Proof.
  destruct (lost_claim_is_dropped conflict_env sol_offer
              (sample_world [relay1] true))
    as (_ & w' & evs & Hrun & Hc & Hlost).
  let r := eval vm_compute in
      (handleOffer conflict_env sol_offer (sample_world [relay1] true)) in
  assert (Hw : handleOffer conflict_env sol_offer
                 (sample_world [relay1] true) = r)
    by (vm_compute; reflexivity).
  assert (Hw' := eq_trans (eq_sym Hw) Hrun). injection Hw' as Hw'.
  subst w'. unfold continues in Hc. cbn [trace sample_world app] in Hc.
  subst evs.
  eexists. split; [exact Hrun|]. cbn [trace].
  assert (Hex : Exists is_lost_claim
    (trace (handleOffer conflict_env sol_offer
              (sample_world [relay1] true)).2)).
  { rewrite Hw. cbn [snd trace]. apply Exists_exists.
    eexists (Fetch _ _). split; [in_list|reflexivity]. }
  rewrite Hw in Hex. cbn [snd trace] in Hex.
  destruct (Hlost Hex) as (Hn & Hq & _). split; [exact Hn|exact Hq].
Defined.

(** ** Admission *)

Lemma number_gt_spec (a m : Z) : number_gt (Num a) (Num m) = true ↔ a > m.
Proof. cbn. by rewrite bool_decide_eq_true. Qed.

Lemma truthy_spec (x : option Z) :
  truthy x = false ↔ x = None ∨ x = Some 0.
Proof.
  destruct x as [z|]; cbn.
  - rewrite negb_false_iff, bool_decide_eq_true.
    split; [intros ->; by right|]. by intros [|[= ->]].
  - split; [by left|done].
Qed.

(** C5, as the code has it.  A SOL offer whose amount is greater than the
    per-transaction ceiling, both as [parseInt] reads them into binary64
    numbers, is refused by [validateOffer], whatever the size of the
    active-offer map and the offer's expiry, and [handleOffer] then only
    logs: no claim request is sent and the node is left as it was.  When
    both texts are read as finite numbers, the comparison is that of their
    values; an amount that is no number is not greater than anything, and an
    amount that [parseInt] rounds to the ceiling is not greater than it: an
    offer of 2^53 + 1 lamports against a ceiling of 2^53 is admitted.  The
    ceiling is checked for SOL offers only.  An offer is admitted exactly
    when it is not such an offer, the active-offer map is smaller than
    [maxConcurrent], and its expiry is absent, zero, or not exceeded by the
    current time ([Date.now() <= expiresAt]). *)
Theorem per_tx_ceiling_and_admission (env : Env) (offer : Offer) (w : World) :
  (asset offer = "SOL" →
   number_gt (parseInt (amount offer)) (maxPerTx env) = true →
   (∃ w1, validateOffer env offer w = (Settled (Ok false), w1))
   ∧ ∃ w' logs,
       handleOffer env offer w = (Settled (Ok tt), w')
       ∧ continues w w' logs ∧ Forall is_log logs ∧ node w' = node w)
  ∧ (∀ a m,
       parseInt (amount offer) = Num a → maxPerTx env = Num m →
       (number_gt (parseInt (amount offer)) (maxPerTx env) = true ↔ a > m))
  ∧ (parseInt (amount offer) = NaN →
     number_gt (parseInt (amount offer)) (maxPerTx env) = false)
  ∧ (maxPerTx ceiling_env = Num 9007199254740992
     ∧ amount huge_offer = "9007199254740993"
     ∧ (validateOffer ceiling_env huge_offer (sample_world [relay1] true)).1 =
         Settled (Ok true))
  ∧ ∃ b w1,
      validateOffer env offer w = (Settled (Ok b), w1)
      ∧ (b = true ↔
         ¬ (asset offer = "SOL"
            ∧ number_gt (parseInt (amount offer)) (maxPerTx env) = true)
         ∧ Z.of_nat (size (activeOffers (node w)))
           < maxConcurrent (config (node w))
         ∧ (expiresAt offer = None ∨ expiresAt offer = Some 0
            ∨ ∃ t, expiresAt offer = Some t
                   ∧ Date_now env (interactions w) <= t)).
Proof.
  split; [|split; [|split; [|split]]].
  - intros Hsol Hgt.
    assert (Hover : over_ceiling env offer = true).
    { unfold over_ceiling. by rewrite bool_decide_eq_true_2, Hgt. }
    split.
    + destruct (validateOffer_spec env offer w) as (w1 & _ & Hrun & _).
      exists w1. rewrite Hrun. unfold admissible. by rewrite Hover.
    + destruct (handleOffer_spec env offer w) as (w' & evs & Hrun & Hc & Hh).
      assert (Hadm' : admissible env offer (tick w) = false)
        by (unfold admissible; by rewrite Hover).
      destruct Hh as [logs Hadm Hlogs Hn|? ? ? Hadm|? ? ? ? Hadm|? ? ? ? Hadm
                     |? ? ? ? ? ? ? ? Hadm]; try congruence.
      by exists w', logs.
  - intros a m -> ->. apply number_gt_spec.
  - by intros ->.
  - split; [reflexivity|]. split; [reflexivity|]. vm_compute. reflexivity.
  - destruct (validateOffer_spec env offer w) as (w1 & _ & Hrun & _).
    exists (admissible env offer w), w1. split; [done|].
    unfold admissible, over_ceiling, at_capacity, expired.
    rewrite !andb_true_iff, !negb_true_iff, andb_false_iff, andb_false_iff.
    rewrite !bool_decide_eq_false, truthy_spec.
    rewrite <- (not_true_iff_false (number_gt _ _)).
    split.
    + intros [[Hceil Hcap] Hexp]. split; [|split; [lia|]].
      * intros [Hsol Hgt]. by destruct Hceil.
      * destruct Hexp as [[?|?]|Hnow]; [by left|by right; left|].
        destruct (expiresAt offer) as [t|]; [|by left].
        right; right. exists t. split; [done|]. cbn in Hnow. lia.
    + intros (Hceil & Hcap & Hexp). split; [split; [|lia]|].
      * destruct (decide (asset offer = "SOL")) as [Hsol|Hsol]; [|by left].
        right. intros Hgt. by apply Hceil.
      * destruct Hexp as [?|[?|(t & Ht & Hnow)]];
          [by left; left|by left; right|].
        right. rewrite Ht. cbn. lia.
Qed.

(** The example of C5: a SOL offer of 600,000,000 lamports against the
    default ceiling of 500,000,000 is dropped before any claim. *)
Lemma per_tx_ceiling_and_admission_witness :
  (∃ w1, validateOffer (mock_env funded) large_offer
           (sample_world [relay1] true) = (Settled (Ok false), w1))
  ∧ ∃ w' logs,
      handleOffer (mock_env funded) large_offer (sample_world [relay1] true) =
        (Settled (Ok tt), w')
      ∧ continues (sample_world [relay1] true) w' logs
      ∧ Forall is_log logs
      ∧ node w' = node (sample_world [relay1] true).
Proof.
  apply (proj1 (per_tx_ceiling_and_admission (mock_env funded) large_offer
                  (sample_world [relay1] true)));
    [reflexivity|reflexivity].
Defined.

(** An offer whose expiry is not in the future, being the very instant at
    which [validateOffer] reads the clock, is admitted. *)
Lemma expiry_now_is_admitted :
  expiresAt expiring_offer =
    Some (Date_now (mock_env funded)
            (interactions (sample_world [relay1] true)))
  ∧ (validateOffer (mock_env funded) expiring_offer
       (sample_world [relay1] true)).1 = Settled (Ok true).
Proof. split; vm_compute; reflexivity. Qed.

(** ** Shutdown *)

Section Commutes.

Variable b : bool.

Lemma commutes_ret {A} (a : A) : commutes_with (with_isRunning b) (mret a).
Proof. done. Qed.

Lemma commutes_throw {A} (e : thrown) : commutes_with (with_isRunning b) (@throw A e).
Proof. done. Qed.

Lemma commutes_lib {A} (o : outcome A) : commutes_with (with_isRunning b) (lib o).
Proof. done. Qed.

Lemma commutes_interact {A} (answer : nat → outcome A) :
  commutes_with (with_isRunning b) (interact answer).
Proof. done. Qed.

Lemma commutes_observe {A} (answer : nat → outcome A)
    (event : outcome A → Event) :
  commutes_with (with_isRunning b) (observe answer event).
Proof. done. Qed.

Lemma commutes_emit (e : Event) : commutes_with (with_isRunning b) (emit e).
Proof. done. Qed.

Lemma commutes_bind {A B} (m : Js A) (k : A → Js B) :
  commutes_with (with_isRunning b) m → (∀ a, commutes_with (with_isRunning b) (k a)) →
  commutes_with (with_isRunning b) (m ≫= k).
Proof.
  intros Hm Hk w. unfold mbind, Js_bind, js_bind. rewrite Hm.
  destruct (m w) as [[[a|e]|] w1]; [|done..]. apply Hk.
Qed.

Lemma commutes_try_catch {A} (m : Js A) (h : thrown → Js A) :
  commutes_with (with_isRunning b) m → (∀ e, commutes_with (with_isRunning b) (h e)) →
  commutes_with (with_isRunning b) (try_catch m h).
Proof.
  intros Hm Hh w. unfold try_catch. rewrite Hm.
  destruct (m w) as [[[a|e]|] w1]; [done| |done]. apply Hh.
Qed.

(** Reading the node and using anything but [isRunning]. *)
Lemma commutes_get_node {B} (k : ShhNode → Js B) :
  (∀ n, k (node_with_isRunning b n) = k n) →
  (∀ n, commutes_with (with_isRunning b) (k n)) →
  commutes_with (with_isRunning b) (get_node ≫= k).
Proof.
  intros Hk1 Hk2 w. unfold mbind, Js_bind, js_bind, get_node.
  cbn. rewrite Hk1. apply Hk2.
Qed.

(** Updating any field but [isRunning]. *)
Lemma commutes_set_node (g : ShhNode → ShhNode) :
  (∀ n, g (node_with_isRunning b n) = node_with_isRunning b (g n)) →
  commutes_with (with_isRunning b) (set_node g).
Proof.
  intros Hg w. unfold set_node. cbn. unfold with_isRunning. cbn.
  by rewrite Hg.
Qed.

Lemma commutes_if {A} (c : bool) (m1 m2 : Js A) :
  commutes_with (with_isRunning b) m1 → commutes_with (with_isRunning b) m2 →
  commutes_with (with_isRunning b) (if c then m1 else m2).
Proof. by destruct c. Qed.

Lemma commutes_property {A B} (what : string) (x : option A) (g : A → B) :
  commutes_with (with_isRunning b) (property what x g).
Proof. by destruct x. Qed.

Ltac commutes :=
  repeat first
    [ apply commutes_ret | apply commutes_throw | apply commutes_lib
    | apply commutes_interact | apply commutes_observe | apply commutes_emit
    | apply commutes_property
    | apply commutes_set_node; intros; reflexivity
    | apply commutes_get_node; [intros; reflexivity|intros]
    | apply commutes_bind; [|intros]
    | apply commutes_try_catch; [|intros]
    | apply commutes_if
    | match goal with
      | |- commutes_with _ (let '(_, _) := ?p in _) => destruct p
      | |- commutes_with _ (match ?x with _ => _ end) => destruct x
      end ].

Lemma commutes_getNextRelayWallet : commutes_with (with_isRunning b) getNextRelayWallet.
Proof. unfold getNextRelayWallet, set_walletManager. commutes. Qed.

Lemma commutes_execute (env : Env) (offer : Offer) :
  commutes_with (with_isRunning b) (execute env offer).
Proof.
  unfold execute, execute_try, execute_catch, createSOLTransfer,
    createUSDCTransfer, logger_info, logger_error.
  commutes; apply commutes_getNextRelayWallet.
Qed.

Lemma commutes_handleOffer (env : Env) (offer : Offer) :
  commutes_with (with_isRunning b) (handleOffer env offer).
Proof.
  unfold handleOffer, handleOffer_try, handleOffer_catch, validateOffer,
    acceptOffer, submitReceipt, post, getAuthHeaders, activeOffers_set,
    activeOffers_delete, set_activeOffers, recordOfferAccepted,
    recordOfferCompleted, recordOfferFailed, set_metrics, logger_info,
    logger_warn, logger_error.
  commutes; apply commutes_execute.
Qed.

End Commutes.

Lemma stop_loop_node (env : Env) (polls : nat) :
  ∀ (start timeoutMs : Z) (w : World),
    node (waitForActiveOffers_loop env polls start timeoutMs w).2 = node w.
Proof.
  induction polls as [|polls IH]; intros start timeoutMs w; cbn;
    js_unfold; cbn; repeat case_match; simplify_eq; cbn; try done.
  by rewrite IH.
Qed.

(** [stop] leaves [isRunning] false, however the drain ends. *)
Lemma stop_clears_isRunning (env : Env) (polls : nat) (w : World) :
  isRunning (node (stop env polls w).2) = false.
Proof.
  unfold stop, waitForActiveOffers, disconnect, healthServer_stop,
    set_isRunning, set_heartbeatInterval, logger_info, logger_warn.
  js_unfold. cbn -[waitForActiveOffers_loop].
  destruct (isRunning (node w)) eqn:Hrun; cbn -[waitForActiveOffers_loop];
    [|done].
  repeat (case_match; simplify_eq; cbn -[waitForActiveOffers_loop] in *);
    try done.
  all: match goal with
       | H : waitForActiveOffers_loop ?e ?p ?s ?t ?w0 = (_, ?w1) |- _ =>
           pose proof (stop_loop_node e p s t w0) as Hloop;
           rewrite H in Hloop; cbn in Hloop
       end.
  all: try (rewrite Hloop; done).
  all: match goal with
       | H : node ?w2 = _ |- context [node ?w2] => rewrite H
       end; done.
Qed.

(** Whatever [isRunning] is, an admitted offer is claimed, and a granted
    claim puts the offer into the active-offer map. *)
Lemma admitted_offer_is_claimed (env : Env) (offer : Offer) (w : World) :
  admissible env offer (tick w) = true →
  ∃ w' evs,
    handleOffer env offer w = (Settled (Ok tt), w')
    ∧ continues w w' evs
    ∧ Exists is_claim_request evs
    ∧ ((∃ request answer,
          Fetch request answer ∈ evs ∧ claims offer request
          ∧ claim_result answer = Ok true) →
       ActiveSet (id offer) offer ∈ evs).
Proof.
  intros Hadm'.
  destruct (handleOffer_spec env offer w) as (w' & evs & Hrun & Hc & Hh).
  exists w', evs. split; [done|]. split; [done|].
  assert (Hfetch : ∀ request answer,
            claims offer request → is_claim_request (Fetch request answer)).
  { intros request answer (a & Hb & _). cbn. by rewrite Hb. }
  assert (Hlogs' : ∀ logs request answer,
            Forall is_log logs → Fetch request answer ∈ logs → False).
  { intros logs request answer Hl Hin. rewrite Forall_forall in Hl.
    apply (Hl _ Hin). }
  destruct Hh as [logs Hadm Hlogs Hn
                 |logs req ans Hadm Hlogs Hcl Hres Hn
                 |logs req ans e Hadm Hlogs Hcl Hres Ha Hr
                 |logs req ans chain Hadm Hlogs Hcl Hres Hchain Ha Hr
                 |logs req ans chain r req' ans' last Hadm Hlogs Hcl Hres
                    Hchain Hb Hp Hlast Ha Hr]; [congruence|..].
  - split.
    { apply Exists_app. right. apply Exists_cons_hd. by apply Hfetch. }
    intros (request & answer & Hin & _ & Hok). exfalso.
    apply elem_of_app in Hin as [Hin|Hin]; [by eapply Hlogs'|].
    apply elem_of_cons in Hin as [Hin|Hin]; [congruence|].
    apply elem_of_cons in Hin as [Hin|Hin]; [done|].
    by apply elem_of_nil in Hin.
  - split.
    { apply Exists_app. right. apply Exists_cons_hd. by apply Hfetch. }
    intros (request & answer & Hin & _ & Hok). exfalso.
    apply elem_of_app in Hin as [Hin|Hin]; [by eapply Hlogs'|].
    apply elem_of_cons in Hin as [Hin|Hin]; [congruence|].
    apply elem_of_cons in Hin as [Hin|Hin]; [done|].
    apply elem_of_cons in Hin as [Hin|Hin]; [done|].
    by apply elem_of_nil in Hin.
  - split.
    { apply Exists_app. right. apply Exists_cons_hd. by apply Hfetch. }
    intros _. apply elem_of_app. right. in_list.
  - split.
    { apply Exists_app. right. apply Exists_cons_hd. by apply Hfetch. }
    intros _. apply elem_of_app. right. in_list.
Qed.

(** C3, as the code has it.  [stop] sets [isRunning] to false, but
    [handleOffer] neither reads nor writes the flag: an offer delivered after
    shutdown has begun is handled exactly as one delivered while the node
    runs.  If it passes [validateOffer] a claim request is sent, and if the
    claim is granted the offer enters the active-offer map. *)
Theorem shutdown_does_not_gate_offers :
  (∀ (env : Env) (polls : nat) (w : World),
     isRunning (node (stop env polls w).2) = false)
  ∧ (∀ (env : Env) (offer : Offer) (b : bool) (w : World),
       handleOffer env offer (with_isRunning b w) =
         (let '(r, w') := handleOffer env offer w in
          (r, with_isRunning b w')))
  ∧ (∀ (env : Env) (offer : Offer) (w : World),
       isRunning (node w) = false →
       admissible env offer (tick w) = true →
       ∃ w' evs,
         handleOffer env offer w = (Settled (Ok tt), w')
         ∧ continues w w' evs
         ∧ Exists is_claim_request evs
         ∧ ((∃ request answer,
               Fetch request answer ∈ evs ∧ claims offer request
               ∧ claim_result answer = Ok true) →
            ActiveSet (id offer) offer ∈ evs)).
Proof.
  split; [|split].
  - apply stop_clears_isRunning.
  - intros env offer b w. apply commutes_handleOffer.
  - intros env offer w _. apply admitted_offer_is_claimed.
Qed.

(** After [stop] has returned, an offer is still claimed and still enters
    the active-offer map. *)
Lemma stopped_node_still_claims :
  let stopped := (stop (mock_env funded) 0 (sample_world [relay1] true)).2 in
  let w' := (handleOffer (mock_env funded) sol_offer stopped).2 in
  isRunning (node stopped) = false
  ∧ Exists is_claim_request (trace w')
  ∧ ActiveSet "offer-1" sol_offer ∈ trace w'.
Proof.
  cbv zeta.
  let t := eval vm_compute in
      (trace (handleOffer (mock_env funded) sol_offer
                (stop (mock_env funded) 0 (sample_world [relay1] true)).2).2)
  in assert (Ht : trace (handleOffer (mock_env funded) sol_offer
                (stop (mock_env funded) 0 (sample_world [relay1] true)).2).2
                  = t) by (vm_compute; reflexivity).
  split; [vm_compute; reflexivity|].
  rewrite Ht. split; [|in_list].
  apply Exists_exists. eexists (Fetch _ _). split; [in_list|]. exact I.
Qed.

(** ** Balances *)

(** One round of the loop of [getBalances]: it always yields an entry for
    the wallet, whatever the RPC node answers. *)
Lemma getBalances_from_spec (env : Env) (keypairs : list Keypair) :
  ∀ (index : nat) (balances : list WalletBalance) (w : World),
  ∃ entries w' evs,
    getBalances_from env index keypairs balances w =
      (Settled (Ok (balances ++ entries)%list), w')
    ∧ continues w w' evs
    ∧ Forall chain_or_log evs
    ∧ node w' = node w
    ∧ wb_publicKey <$> entries = publicKey <$> keypairs.
Proof.
  induction keypairs as [|keypair rest IH]; intros index balances w.
  - exists [], w, []. cbn. rewrite app_nil_r.
    split; [done|]. split; [apply continues_refl|]. done.
  - cbn [getBalances_from].
    unfold mbind at 1, Js_bind, js_bind.
    match goal with |- context [try_catch ?body ?handler w] =>
      assert (∃ entry w1 evs1,
        try_catch body handler w = (Settled (Ok entry), w1)
        ∧ continues w w1 evs1 ∧ Forall chain_or_log evs1
        ∧ node w1 = node w ∧ wb_publicKey entry = publicKey keypair)
        as (entry & w1 & evs1 & -> & Hc1 & Hl1 & Hn1 & Hk1)
    end.
    { unfold usdcBalance, logger_warn, continues. js_unfold. cbn.
      repeat case_match; simplify_eq; eexists _, _, _;
        (split; [done|]); cbn; rewrite <- ?app_assoc; cbn;
        (split; [first [done | symmetry; apply app_nil_r]|]);
        (split; [forall_list|]); done. }
    destruct (IH (S index) (balances ++ [entry])%list w1)
      as (entries & w' & evs & -> & Hc & Hl & Hn & Hk).
    exists (entry :: entries), w', (evs1 ++ evs)%list.
    rewrite <- app_assoc. split; [done|].
    split; [by eapply continues_trans|].
    split; [by apply Forall_app|].
    split; [by rewrite Hn|]. cbn. by rewrite Hk, Hk1.
Qed.

(** [getBalances] never fails as a whole: it returns one entry per relay
    wallet, in order, and leaves the node as it was. *)
Lemma getBalances_spec (env : Env) (w : World) :
  ∃ balances w' evs,
    getBalances env w = (Settled (Ok balances), w')
    ∧ continues w w' evs
    ∧ Forall chain_or_log evs
    ∧ node w' = node w
    ∧ wb_publicKey <$> balances = publicKey <$> pool w.
Proof.
  unfold getBalances. unfold mbind, Js_bind, js_bind, get_node.
  destruct (getBalances_from_spec env (pool w) 0 [] w)
    as (entries & w' & evs & H & ?). cbn in H.
  by exists entries, w', evs.
Qed.

Lemma filter_length_all {A} (f : A → bool) (l : list A) :
  List.length (List.filter f l) = List.length l ↔ ∀ x, x ∈ l → f x = true.
Proof.
  induction l as [|a l IH]; cbn.
  - split; [|done]. intros _ x Hx. by apply elem_of_nil in Hx.
  - pose proof (List.filter_length_le f l) as Hle.
    destruct (f a) eqn:Ha; cbn.
    + split.
      * intros Hl x Hx. apply elem_of_cons in Hx as [->|Hx]; [done|].
        apply IH; [lia|done].
      * intros Hall. f_equal. apply IH. intros x Hx. apply Hall.
        by apply list_elem_of_further.
    + split; [lia|]. intros Hall.
      rewrite (Hall a) in Ha; [done|apply list_elem_of_here].
Qed.

Lemma filter_nonempty {A} (f : A → bool) (l : list A) :
  (0 < List.length (List.filter f l))%nat ↔ ∃ x, x ∈ l ∧ f x = true.
Proof.
  induction l as [|a l IH]; cbn.
  - split; [lia|]. intros (x & Hx & _). by apply elem_of_nil in Hx.
  - destruct (f a) eqn:Ha; cbn.
    + split; [|lia]. intros _. exists a. split; [apply list_elem_of_here|done].
    + rewrite IH. split.
      * intros (x & Hx & Hf). exists x. split; [|done].
        by apply list_elem_of_further.
      * intros (x & Hx & Hf). apply elem_of_cons in Hx as [->|Hx];
          [congruence|]. by exists x.
Qed.

(** C6.  [validateBalances] fails with the insufficient-funds error exactly
    when every wallet's SOL balance is below 0.01; as soon as one wallet is
    not below it, the call succeeds; the wallets below the threshold, when
    there are any, are listed in a warning.  With balances of 0.005, 0.02 and
    0 SOL it succeeds and warns about the first and the third wallet; with
    0.005, 0.002 and 0 SOL it fails. *)
Theorem validateBalances_threshold :
  (∀ (env : Env) (w : World),
    ∃ balances w1 r w' evs,
      getBalances env w = (Settled (Ok balances), w1)
      ∧ validateBalances env w = (Settled r, w')
      ∧ continues w1 w' evs
      ∧ (r = Throw all_low ∨ r = Ok tt)
      ∧ (r = Throw all_low ↔ ∀ b, b ∈ balances → lowBalance b = true)
      ∧ ((∃ b, b ∈ balances ∧ lowBalance b = false) → r = Ok tt)
      ∧ (low_balance_warning balances ∈ evs
         ↔ ∃ b, b ∈ balances ∧ lowBalance b = true))
  ∧ (∃ balances w' w'',
      validateBalances (mock_env mixed_balances)
        (sample_world [relay1; relay2; relay3] true) =
        (Settled (Ok tt), w')
      ∧ getBalances (mock_env mixed_balances)
          (sample_world [relay1; relay2; relay3] true) =
          (Settled (Ok balances), w'')
      ∧ balanceSOL <$> balances = [0.005; 0.02; 0]%float
      ∧ Log {| level := WARN; component := "WalletManager";
               message := LowBalanceWallets "Relay1, Relay3" |} ∈ trace w')
  ∧ (∃ balances w' w'',
      validateBalances (mock_env low_balances)
        (sample_world [relay1; relay2; relay3] true) =
        (Settled (Throw all_low), w')
      ∧ getBalances (mock_env low_balances)
          (sample_world [relay1; relay2; relay3] true) =
          (Settled (Ok balances), w'')
      ∧ balanceSOL <$> balances = [0.005; 0.002; 0]%float).
Proof.
  split; [|split].
  - intros env w.
    destruct (getBalances_spec env w)
      as (balances & w1 & evs1 & Hb & Hc1 & _ & Hn1 & _).
    unfold validateBalances. unfold mbind at 1, Js_bind, js_bind.
    rewrite Hb. unfold logger_warn, logger_info, continues,
      low_balance_warning.
    pose proof (filter_length_all lowBalance balances) as Hall.
    pose proof (filter_nonempty lowBalance balances) as Hsome.
    js_unfold.
    destruct (bool_decide (0 < _)%nat) eqn:Hlow;
      [apply bool_decide_eq_true_1 in Hlow
      |apply bool_decide_eq_false_1 in Hlow];
      (destruct (bool_decide (_ = _)) eqn:Heq;
       [apply bool_decide_eq_true_1 in Heq
       |apply bool_decide_eq_false_1 in Heq]); cbn;
      eexists balances, w1, _, _, _; (split; [done|]); (split; [done|]);
      cbn; rewrite <- ?app_assoc; cbn;
      (split; [first [done | symmetry; apply app_nil_r]|]).
    + split; [by left|]. split; [by rewrite <- Hall|].
      split; [|by rewrite <- Hsome; split; [|intros; apply list_elem_of_here]].
      intros (b & Hb1 & Hb2).
      pose proof (proj1 Hall Heq b Hb1) as Hb3.
        unfold lowBalance in *. congruence.
    + split; [by right|]. split; [by rewrite <- Hall|].
      split; [done|]. rewrite <- Hsome.
      split; [done|]. intros _. apply list_elem_of_here.
    + split; [by left|]. split; [by rewrite <- Hall|].
      split.
      * intros (b & Hb1 & Hb2).
        pose proof (proj1 Hall Heq b Hb1) as Hb3.
        unfold lowBalance in *. congruence.
      * rewrite <- Hsome. split; [|done]. intros Hin.
        by apply elem_of_nil in Hin.
    + split; [by right|]. split; [by rewrite <- Hall|].
      split; [done|]. rewrite <- Hsome. split; [|done].
      intros Hin. apply elem_of_cons in Hin as [Hin|Hin]; [done|].
      by apply elem_of_nil in Hin.
  - eexists _, _, _. split; [vm_compute; reflexivity|].
    split; [vm_compute; reflexivity|]. split; [vm_compute; reflexivity|].
    cbn. in_list.
  - eexists _, _, _. split; [vm_compute; reflexivity|].
    split; [vm_compute; reflexivity|]. vm_compute; reflexivity.
Qed.

(** ** Health and heartbeat *)

(** [getHealthStatus] always returns; its [wallets] are what [getBalances]
    returns and its [status] is computed from them. *)
Lemma getHealthStatus_spec (env : Env) (w : World) :
  ∃ balances w1 hs w' evs,
    getBalances env w = (Settled (Ok balances), w1)
    ∧ getHealthStatus env w = (Settled (Ok hs), w')
    ∧ continues w w' evs
    ∧ Forall chain_or_log evs
    ∧ node w' = node w
    ∧ wallets hs = balances
    ∧ status hs = healthLevel balances
    ∧ wb_publicKey <$> balances = publicKey <$> pool w.
Proof.
  destruct (getBalances_spec env w)
    as (balances & w1 & evs & Hb & Hc & Hl & Hn & Hk).
  unfold getHealthStatus, getSnapshot.
  unfold mbind at 1, Js_bind, js_bind. rewrite Hb.
  js_unfold. cbn.
  eexists balances, w1, _, _, evs. split; [done|]. split; [done|].
  unfold continues in *. cbn. done.
Qed.

Lemma healthLevel_solely_balances (l1 l2 : list WalletBalance) :
  balanceSOL <$> l1 = balanceSOL <$> l2 → healthLevel l1 = healthLevel l2.
Proof.
  intros Heq. unfold healthLevel. cbv zeta.
  assert (Hlen : List.length l1 = List.length l2).
  { by rewrite <- (length_fmap balanceSOL l1), Heq, length_fmap. }
  assert (Hlow : List.length (List.filter lowBalance l1) =
                 List.length (List.filter lowBalance l2)).
  { clear Hlen. revert l2 Heq.
    induction l1 as [|a l1 IH]; intros [|c l2] Heq; try done.
    injection Heq as Ha Heq. cbn [List.filter].
    assert (Hac : lowBalance a = lowBalance c)
      by (unfold lowBalance; by rewrite Ha).
    rewrite Hac. destruct (lowBalance c); cbn [List.length];
      by rewrite (IH l2). }
  by rewrite Hlow, Hlen.
Qed.

Lemma not_all_true {A} (f : A → bool) (l : list A) :
  (¬ ∀ x, x ∈ l → f x = true) ↔ ∃ x, x ∈ l ∧ f x = false.
Proof.
  split.
  - induction l as [|a l IH]; intros Hn.
    + destruct Hn. intros x Hx. by apply elem_of_nil in Hx.
    + destruct (f a) eqn:Ha.
      * destruct IH as (x & Hx & Hf).
        { intros Hall. apply Hn. intros x Hx.
          apply elem_of_cons in Hx as [->|Hx]; [done|]. by apply Hall. }
        exists x. split; [by apply list_elem_of_further|done].
      * exists a. split; [apply list_elem_of_here|done].
  - intros (x & Hx & Hf) Hall. rewrite (Hall x Hx) in Hf. done.
Qed.

Lemma healthLevel_spec (l : list WalletBalance) :
  l ≠ [] →
  (healthLevel l = healthy ↔ ∀ b, b ∈ l → lowBalance b = false)
  ∧ (healthLevel l = unhealthy ↔ ∀ b, b ∈ l → lowBalance b = true)
  ∧ (healthLevel l = degraded ↔
       (∃ b, b ∈ l ∧ lowBalance b = true)
       ∧ (∃ b, b ∈ l ∧ lowBalance b = false)).
Proof.
  intros Hne. unfold healthLevel. cbv zeta.
  pose proof (filter_length_all lowBalance l) as Hall.
  pose proof (filter_nonempty lowBalance l) as Hsome.
  assert (Hnot : (∀ b, b ∈ l → lowBalance b = false)
                 ↔ ¬ ∃ b, b ∈ l ∧ lowBalance b = true).
  { split.
    - intros Hf (b & Hb & Ht). rewrite (Hf b Hb) in Ht. done.
    - intros Hn b Hb. destruct (lowBalance b) eqn:Hlb; [|done].
      destruct Hn. by exists b. }
  pose proof (not_all_true lowBalance l) as Hex.
  destruct l as [|a l]; [done|].
  case_bool_decide as Hlow; [case_bool_decide as Heq|].
  - split; [|split].
    + split; [done|]. intros Hf. apply Hnot in Hf. destruct Hf.
      by apply Hsome.
    + split; [intros _; by apply Hall|done].
    + split; [done|]. intros [_ Hf]. apply Hex in Hf. destruct Hf.
      by apply Hall.
  - split; [|split].
    + split; [done|]. intros Hf. apply Hnot in Hf. destruct Hf.
      by apply Hsome.
    + split; [done|]. intros Ht. destruct Heq. by apply Hall.
    + split; [intros _|done]. split; [by apply Hsome|].
      apply Hex. intros Ht. destruct Heq. by apply Hall.
  - split; [|split].
    + split; [intros _|done]. apply Hnot. intros Hf. destruct Hlow.
      by apply Hsome.
    + split; [done|]. intros Ht. destruct Hlow. apply Hsome.
      exists a. split; [apply list_elem_of_here|]. apply Ht.
      apply list_elem_of_here.
    + split; [done|]. intros [Hf _]. destruct Hlow. by apply Hsome.
Qed.

(** C10.  The status of [getHealthStatus] depends on nothing but the SOL
    balances of the wallets, compared with 0.01: it is [healthy] when no
    wallet is below, [unhealthy] when every wallet is below, and [degraded]
    when some wallet is below and some is not.  (A node has at least one
    relay wallet: the constructor of [WalletManager] refuses an empty
    list.) *)
Theorem health_status_levels (env : Env) (w : World) :
  pool w ≠ [] →
  ∃ hs w',
    getHealthStatus env w = (Settled (Ok hs), w')
    ∧ (∃ w1, getBalances env w = (Settled (Ok (wallets hs)), w1))
    ∧ (∀ others,
         balanceSOL <$> others = balanceSOL <$> wallets hs →
         healthLevel others = status hs)
    ∧ (status hs = healthy ↔ ∀ b, b ∈ wallets hs → lowBalance b = false)
    ∧ (status hs = unhealthy ↔ ∀ b, b ∈ wallets hs → lowBalance b = true)
    ∧ (status hs = degraded ↔
         (∃ b, b ∈ wallets hs ∧ lowBalance b = true)
         ∧ (∃ b, b ∈ wallets hs ∧ lowBalance b = false)).
Proof.
  intros Hne.
  destruct (getHealthStatus_spec env w)
    as (balances & w1 & hs & w' & evs & Hb & Hrun & _ & _ & _ & Hw & Hs & Hk).
  exists hs, w'. split; [done|]. rewrite Hw, Hs.
  split; [by exists w1|].
  split; [intros others Heq; by apply healthLevel_solely_balances|].
  apply healthLevel_spec. intros ->. cbn in Hk.
  destruct (pool w); [done|]. done.
Qed.

(** C10 at relay balances of 0.005, 0.02 and 0 SOL: the status is
    [degraded]. *)
Lemma health_status_levels_witness :
  ∃ hs w',
    getHealthStatus (mock_env mixed_balances)
      (sample_world [relay1; relay2; relay3] true) = (Settled (Ok hs), w')
    ∧ balanceSOL <$> wallets hs = [0.005; 0.02; 0]%float
    ∧ status hs = degraded.
Proof.
  destruct (health_status_levels (mock_env mixed_balances)
              (sample_world [relay1; relay2; relay3] true)
              ltac:(discriminate))
    as (hs & w' & Hrun & _).
  exists hs, w'. split; [exact Hrun|].
  let r := eval vm_compute in
      (getHealthStatus (mock_env mixed_balances)
         (sample_world [relay1; relay2; relay3] true)) in
  assert (Hr : getHealthStatus (mock_env mixed_balances)
                 (sample_world [relay1; relay2; relay3] true) = r)
    by (vm_compute; reflexivity).
  assert (Hr' := eq_trans (eq_sym Hr) Hrun). injection Hr' as Hhs _.
  subst hs. split; reflexivity.
Defined.

Lemma sendHeartbeat_spec (env : Env) (heartbeat : HeartbeatData) (w : World) :
  ∃ request answer w',
    sendHeartbeat env heartbeat w = (Settled (heartbeat_result answer), w')
    ∧ continues w w' (Fetch request answer :: heartbeat_warning answer)
    ∧ node w' = node w
    ∧ body request = HeartbeatBody heartbeat
    ∧ (∀ e, answer = Throw e → json_writable e = true).
Proof.
  unfold sendHeartbeat. unfold mbind at 1, Js_bind, js_bind.
  destruct (post_spec env "/api/node/heartbeat" (HeartbeatBody heartbeat) w)
    as (request & answer & w1 & -> & Hc & Hn & Hb & _ & Hw).
  unfold continues in *.
  destruct answer as [response|e]; cbn.
  - unfold logger_warn. js_unfold.
    destruct (response_ok response) eqn:Hok; cbn.
    + exists request, (Ok response), w1. cbn. by rewrite Hok.
    + eexists request, (Ok response), _. split; [done|]. cbn.
      rewrite Hok, Hc, <- app_assoc. done.
  - by exists request, (Throw e), w1.
Qed.

(** C9, as the code has it.  [sendHeartbeat] returns normally whatever
    HTTP status the dispatcher answers with, logging a warning for a
    non-success status; an error thrown by [fetch] itself is thrown on to the
    caller.  The caller, the heartbeat tick of [startHeartbeat], never throws:
    it counts a heartbeat when [sendHeartbeat] returned, and logs the error
    and counts a heartbeat error when [sendHeartbeat] threw. *)
Theorem heartbeat_faults_stay_in_tick (env : Env) (w : World) :
  (∀ heartbeat, ∃ request answer w',
     sendHeartbeat env heartbeat w =
       (Settled (heartbeat_result answer), w')
     ∧ continues w w' (Fetch request answer :: heartbeat_warning answer)
     ∧ node w' = node w)
  ∧ ∃ w' chain request answer,
      heartbeat_tick env w = (Settled (Ok tt), w')
      ∧ Forall chain_or_log chain
      ∧ match answer with
        | Ok _ =>
            ∃ sent,
              continues w w'
                (chain ++ Fetch request answer :: heartbeat_warning answer
                       ++ sent)
              ∧ Forall is_log sent
              ∧ heartbeats w' = S (heartbeats w)
              ∧ heartbeatErrors w' = heartbeatErrors w
        | Throw e =>
            continues w w'
              (chain ++ [Fetch request answer;
                         line WARN (HeartbeatFailed e)])
            ∧ heartbeats w' = heartbeats w
            ∧ heartbeatErrors w' = S (heartbeatErrors w)
        end.
Proof.
  split.
  { intros heartbeat.
    destruct (sendHeartbeat_spec env heartbeat w)
      as (request & answer & w' & ? & ? & ? & _).
    by exists request, answer, w'. }
  unfold heartbeat_tick, try_catch.
  unfold mbind at 1, Js_bind, js_bind.
  destruct (getHealthStatus_spec env w)
    as (balances & w0 & hs & w1 & evs & _ & -> & Hc1 & Hl1 & Hn1 & _).
  unfold mbind at 1, Js_bind, js_bind, interact at 1.
  unfold mbind at 1, Js_bind, js_bind, get_node at 1.
  unfold mbind at 1, Js_bind, js_bind.
  match goal with |- context [sendHeartbeat env ?hb ?w2] =>
    destruct (sendHeartbeat_spec env hb w2)
      as (request & answer & w3 & -> & Hc3 & Hn3 & _ & Hw3)
  end.
  unfold continues, heartbeats, heartbeatErrors in *. cbn in Hc3, Hn3.
  destruct answer as [response|e]; cbn [heartbeat_result].
  - unfold recordHeartbeat, set_metrics, logger_debug. js_unfold. cbn.
    case_bool_decide; cbn;
      eexists _, evs, request, (Ok response); (split; [done|]);
      (split; [done|]); cbn.
    + eexists [_]. rewrite Hc3, Hc1, Hn3, Hn1, <- !app_assoc. cbn.
      split; [done|]. split; [forall_list|done].
    + exists []. rewrite Hc3, Hc1, Hn3, Hn1, <- !app_assoc, app_nil_r. cbn.
      done.
  - unfold recordHeartbeatError, set_metrics, logger_warn. js_unfold.
    rewrite formatMessage_ok by (cbn; by rewrite (Hw3 e eq_refl)). cbn.
    eexists _, evs, request, (Throw e). split; [done|].
    split; [done|]. cbn.
    rewrite Hc3, Hc1, Hn3, Hn1, <- !app_assoc. cbn. done.
Qed.

(** With the dispatcher unreachable, [sendHeartbeat] throws to its
    caller. *)
Lemma sendHeartbeat_throws_when_fetch_fails :
  (sendHeartbeat unreachable_env sample_heartbeat
     (sample_world [relay1] true)).1 =
    Settled (Throw (JsError "fetch failed")).
Proof. vm_compute. reflexivity. Qed.

(** * Further properties *)

(** ** [WalletManager] *)

(** X1.  [getRelayWalletByIndex] is bounds-checked: it returns [null]
    exactly when the index is negative or not below the number of relay
    wallets, returns the wallet at the index otherwise, and never moves the
    rotation cursor or touches anything else. *)
Theorem getRelayWalletByIndex_bounds (index : Z) (w : World) :
  ∃ r,
    getRelayWalletByIndex index w = (Settled (Ok r), w)
    ∧ (r = None ↔ index < 0 ∨ index >= Z.of_nat (List.length (pool w)))
    ∧ (0 <= index < Z.of_nat (List.length (pool w)) →
       r = pool w !! Z.to_nat index).
Proof.
  unfold getRelayWalletByIndex, pool. js_unfold. cbn.
  case_bool_decide as Hout; eexists; (split; [done|]).
  - split; [done|]. lia.
  - split; [|done]. split; [|done]. intros Hnone.
    apply lookup_ge_None in Hnone. lia.
Qed.

Lemma loadRelaySigners_from_ok (env : Env) (secrets : list string) :
  ∀ (index : nat) (keypairs : list Keypair) (logs : list LogLine)
    (keypairs' : list Keypair) (logs' : list LogLine),
    loadRelaySigners_from env index secrets keypairs logs =
      (Ok keypairs', logs') →
    ∃ new,
      keypairs' = (keypairs ++ new)%list
      ∧ Forall2 (decodes env) secrets new
      ∧ logs' = (logs ++ imap (λ j, relay_loaded (index + j)) new)%list.
Proof.
  induction secrets as [|secret rest IH];
    intros index keypairs logs keypairs' logs' Hload; cbn in Hload.
  - injection Hload as <- <-. exists []. cbn. by rewrite !app_nil_r.
  - destruct (Keypair_fromSecretKey env secret) as [keypair|e] eqn:Hkey;
      [|done].
    destruct (IH _ _ _ _ _ Hload) as (new & -> & Hall & ->).
    exists (keypair :: new). rewrite <- !app_assoc. cbn.
    split; [done|]. split; [by apply Forall2_cons|].
    unfold relay_loaded at 2. rewrite Nat.add_0_r. do 2 f_equal.
    apply imap_ext. intros j k _. cbn. f_equal. lia.
Qed.

Lemma loadRelaySigners_from_throw (env : Env) (secrets : list string) :
  ∀ (index : nat) (keypairs : list Keypair) (logs : list LogLine)
    (e : thrown) (logs' : list LogLine),
    loadRelaySigners_from env index secrets keypairs logs = (Throw e, logs') →
    ∃ secret, secret ∈ secrets ∧ Keypair_fromSecretKey env secret = Throw e.
Proof.
  induction secrets as [|secret rest IH];
    intros index keypairs logs e logs' Hload; cbn in Hload; [done|].
  destruct (Keypair_fromSecretKey env secret) as [keypair|e'] eqn:Hkey.
  - destruct (IH _ _ _ _ _ Hload) as (s & Hs & Hthrow).
    exists s. split; [by apply list_elem_of_further|done].
  - injection Hload as <- <-. exists secret.
    split; [apply list_elem_of_here|done].
Qed.

(** X2.  A constructed [WalletManager] holds the keypair decoded from
    NODE_SIGNER_SECRET and, in the order of the RELAY_SIGNERS array, the
    keypair decoded from each of its entries; there is at least one relay
    wallet, the rotation cursor is at 0, and one line was logged for the node
    signer and one for each relay wallet, numbered from 1. *)
Theorem WalletManager_new_loads_in_order (env : Env) (wm : WalletManager)
    (logs : list LogLine) :
  WalletManager_new env = (Ok wm, logs) →
  ∃ node_secret relay_text secrets,
    process_env env "NODE_SIGNER_SECRET" = Some node_secret
    ∧ decodes env node_secret (nodeKeypair wm)
    ∧ process_env env "RELAY_SIGNERS" = Some relay_text
    ∧ JSON_parse env relay_text = Ok secrets
    ∧ Forall2 (decodes env) secrets (relayKeypairs wm)
    ∧ (0 < List.length (relayKeypairs wm))%nat
    ∧ currentRelayIndex wm = 0%nat
    ∧ logs = node_loaded (nodeKeypair wm)
               :: imap relay_loaded (relayKeypairs wm).
Proof.
  unfold WalletManager_new, loadRelaySigners. intros Hnew.
  repeat case_match; simplify_eq; cbn.
  match goal with H : loadRelaySigners_from _ _ _ _ _ = _ |- _ =>
    destruct (loadRelaySigners_from_ok _ _ _ _ _ _ _ H) as (new & -> & ? & ->)
  end.
  eexists _, _, _. repeat (split; [done|]). cbn in *.
  split; [|done].
  match goal with H : bool_decide _ = false |- _ =>
    apply bool_decide_eq_false_1 in H end.
  lia.
Qed.

Lemma WalletManager_new_loads_in_order_witness :
  ∃ node_secret relay_text secrets,
    process_env configured_env "NODE_SIGNER_SECRET" = Some node_secret
    ∧ decodes configured_env node_secret
        {| publicKey := "Key:s0"; secretKey := "s0" |}
    ∧ process_env configured_env "RELAY_SIGNERS" = Some relay_text
    ∧ JSON_parse configured_env relay_text = Ok secrets
    ∧ Forall2 (decodes configured_env) secrets
        [{| publicKey := "Key:s1"; secretKey := "s1" |};
         {| publicKey := "Key:s2"; secretKey := "s2" |};
         {| publicKey := "Key:s3"; secretKey := "s3" |}]
    ∧ (0 < 3)%nat
    ∧ 0%nat = 0%nat
    ∧ (WalletManager_new configured_env).2 =
        node_loaded {| publicKey := "Key:s0"; secretKey := "s0" |}
          :: imap relay_loaded
               [{| publicKey := "Key:s1"; secretKey := "s1" |};
                {| publicKey := "Key:s2"; secretKey := "s2" |};
                {| publicKey := "Key:s3"; secretKey := "s3" |}].
Proof.
  exact (WalletManager_new_loads_in_order configured_env
           {| nodeKeypair := {| publicKey := "Key:s0"; secretKey := "s0" |};
              relayKeypairs :=
                [{| publicKey := "Key:s1"; secretKey := "s1" |};
                 {| publicKey := "Key:s2"; secretKey := "s2" |};
                 {| publicKey := "Key:s3"; secretKey := "s3" |}];
              currentRelayIndex := 0 |}
           (WalletManager_new configured_env).2 eq_refl).
Defined.

(** X3.  Every way the constructor of [WalletManager] fails: a signer
    variable that is unset or empty, a node secret that does not decode, or,
    all three reported as a failure to load the relay signers, RELAY_SIGNERS
    that does not parse, an entry of it that does not decode, and an empty
    array. *)
Theorem WalletManager_new_failures (env : Env) (e : thrown)
    (logs : list LogLine) :
  WalletManager_new env = (Throw e, logs) →
  (unset (process_env env "NODE_SIGNER_SECRET")
   ∧ e = JsError "NODE_SIGNER_SECRET environment variable is required")
  ∨ (∃ secret cause,
       process_env env "NODE_SIGNER_SECRET" = Some secret
       ∧ Keypair_fromSecretKey env secret = Throw cause
       ∧ e = JsError ("Failed to load node signer: " +:+ template_text cause))
  ∨ (unset (process_env env "RELAY_SIGNERS")
     ∧ e = JsError "RELAY_SIGNERS environment variable is required")
  ∨ (∃ relay_text cause,
       process_env env "RELAY_SIGNERS" = Some relay_text
       ∧ e = JsError ("Failed to load relay signers: "
                        +:+ template_text cause)
       ∧ (JSON_parse env relay_text = Throw cause
          ∨ (∃ secrets secret,
               JSON_parse env relay_text = Ok secrets
               ∧ secret ∈ secrets
               ∧ Keypair_fromSecretKey env secret = Throw cause)
          ∨ (JSON_parse env relay_text = Ok []
             ∧ cause = JsError "At least one relay signer is required"))).
Proof.
  unfold WalletManager_new, loadRelaySigners, unset. intros Hnew.
  repeat case_match; simplify_eq; cbn; eauto 10.
  - (* empty array *)
    do 3 right.
    eexists _, (JsError "At least one relay signer is required").
    split; [done|]. split; [done|]. do 2 right. split; [|done].
    match goal with H : loadRelaySigners_from _ _ ?s _ _ = _ |- _ =>
      destruct s; [done|];
      destruct (loadRelaySigners_from_ok _ _ _ _ _ _ _ H) as (new & -> & Hall & _)
    end.
    apply Forall2_length in Hall.
    match goal with H : bool_decide _ = true |- _ =>
      apply bool_decide_eq_true_1 in H; cbn in *; lia end.
  - (* an entry does not decode *)
    do 3 right. eexists _, _. split; [done|]. split; [done|]. right. left.
    match goal with H : loadRelaySigners_from _ _ _ _ _ = _ |- _ =>
      destruct (loadRelaySigners_from_throw _ _ _ _ _ _ _ H) as (s & ? & ?)
    end.
    by eexists _, s.
Qed.

Lemma WalletManager_new_failures_witness :
  (unset (process_env (mock_env funded) "NODE_SIGNER_SECRET")
   ∧ JsError "NODE_SIGNER_SECRET environment variable is required" =
       JsError "NODE_SIGNER_SECRET environment variable is required")
  ∨ (∃ secret cause,
       process_env (mock_env funded) "NODE_SIGNER_SECRET" = Some secret
       ∧ Keypair_fromSecretKey (mock_env funded) secret = Throw cause
       ∧ JsError "NODE_SIGNER_SECRET environment variable is required" =
           JsError ("Failed to load node signer: " +:+ template_text cause))
  ∨ (unset (process_env (mock_env funded) "RELAY_SIGNERS")
     ∧ JsError "NODE_SIGNER_SECRET environment variable is required" =
         JsError "RELAY_SIGNERS environment variable is required")
  ∨ (∃ relay_text cause,
       process_env (mock_env funded) "RELAY_SIGNERS" = Some relay_text
       ∧ JsError "NODE_SIGNER_SECRET environment variable is required" =
           JsError ("Failed to load relay signers: " +:+ template_text cause)
       ∧ (JSON_parse (mock_env funded) relay_text = Throw cause
          ∨ (∃ secrets secret,
               JSON_parse (mock_env funded) relay_text = Ok secrets
               ∧ secret ∈ secrets
               ∧ Keypair_fromSecretKey (mock_env funded) secret = Throw cause)
          ∨ (JSON_parse (mock_env funded) relay_text = Ok []
             ∧ cause = JsError "At least one relay signer is required"))).
Proof.
  exact (WalletManager_new_failures (mock_env funded)
           (JsError "NODE_SIGNER_SECRET environment variable is required")
           [] eq_refl).
Defined.

Lemma getBalances_from_entries (env : Env) (keypairs : list Keypair) :
  ∀ (index : nat) (balances : list WalletBalance) (w : World),
  ∃ entries w',
    getBalances_from env index keypairs balances w =
      (Settled (Ok (balances ++ entries)%list), w')
    ∧ balance_entries env keypairs (interactions w) entries.
Proof.
  induction keypairs as [|keypair rest IH]; intros index balances w.
  - exists [], w. cbn. by rewrite app_nil_r.
  - cbn [getBalances_from].
    unfold mbind at 1, Js_bind, js_bind.
    match goal with |- context [try_catch ?body ?handler w] =>
      assert (∃ entry w1,
        try_catch body handler w = (Settled (Ok entry), w1)
        ∧ balance_entry env keypair (interactions w) entry
        ∧ interactions w1 =
            (interactions w + balance_queries env keypair (interactions w))%nat)
        as (entry & w1 & -> & Hentry & Ht)
    end.
    { unfold usdcBalance, logger_warn, balance_entry, usdc_entry,
        balance_queries.
      js_unfold. cbn.
      repeat case_match; simplify_eq; eexists _, _; (split; [done|]); cbn;
        (split; [done|lia]). }
    destruct (IH (S index) (balances ++ [entry])%list w1)
      as (entries & w' & -> & Hall).
    exists (entry :: entries), w'. rewrite <- app_assoc.
    split; [done|]. cbn [balance_entries]. by rewrite <- Ht.
Qed.

Lemma balance_entries_length (env : Env) (keypairs : list Keypair) :
  ∀ t entries,
    balance_entries env keypairs t entries →
    List.length entries = List.length keypairs.
Proof.
  induction keypairs as [|keypair rest IH]; intros t [|entry entries] Hall;
    try done.
  cbn. f_equal. destruct Hall as [_ Hall]. by eapply IH.
Qed.

(** X4.  [getBalances] never fails and reports every relay wallet, in the
    order of the pool, under its own public key.  A wallet whose balance
    query is answered is reported with that balance, in SOL, active when it
    is at least 0.001, and with the amount of its USDC token account, in
    USDC, exactly when the addresses could be derived and the account could
    be read by the query that follows; a wallet whose balance query failed
    is reported as inactive, with a zero balance and no USDC balance.  The
    node is left as it was. *)
Theorem getBalances_entries (env : Env) (w : World) :
  ∃ balances w',
    getBalances env w = (Settled (Ok balances), w')
    ∧ balance_entries env (pool w) (interactions w) balances
    ∧ List.length balances = List.length (pool w)
    ∧ node w' = node w.
Proof.
  destruct (getBalances_spec env w)
    as (balances & w' & evs & Hrun & _ & _ & Hn & _).
  exists balances, w'. split; [done|].
  unfold getBalances in Hrun. unfold mbind, Js_bind, js_bind, get_node in Hrun.
  destruct (getBalances_from_entries env (pool w) 0 [] w)
    as (entries & w1 & Hrun' & Hall).
  unfold pool in *. cbn [app] in Hrun'. rewrite Hrun in Hrun'.
  injection Hrun' as -> ->.
  split; [done|]. split; [by eapply balance_entries_length|done].
Qed.

(** [getBalances] on a pool of two wallets that hold 1 SOL each, and
    token accounts without USDC. *)
Lemma getBalances_entries_example :
  ∃ w',
    getBalances (mock_env funded) (sample_world [relay1; relay2] true) =
      (Settled (Ok [{| wb_publicKey := "Relay1"; balanceSOL := 1;
                       balanceUSDC := Some 0%float; isActive := true |};
                    {| wb_publicKey := "Relay2"; balanceSOL := 1;
                       balanceUSDC := Some 0%float; isActive := true |}]),
       w').
Proof. eexists. vm_compute. reflexivity. Qed.

(** ** [Metrics] *)

(** X5.  [recordOfferCompleted] counts the offer and keeps a sliding
    window of execution times: the new time is appended and, of the times
    kept before, the oldest is dropped once there are more than 100, so the
    window never holds more than 100 times and ends with the newest. *)
Theorem recordOfferCompleted_window (executionTimeMs : Z) (w : World) :
  (List.length (times w) ≤ 100)%nat →
  ∃ w',
    recordOfferCompleted executionTimeMs w = (Settled (Ok tt), w')
    ∧ times w' =
        drop (List.length (times w) + 1 - 100)
          (times w ++ [executionTimeMs])%list
    ∧ (List.length (times w') ≤ 100)%nat
    ∧ last (times w') = Some executionTimeMs
    ∧ c_offersCompleted (metrics (node w')) =
        S (c_offersCompleted (metrics (node w))).
Proof.
  intros Hlen. unfold recordOfferCompleted, set_metrics, times in *.
  js_unfold. cbn. eexists. split; [done|]. cbn.
  unfold push_executionTime. cbn zeta. rewrite length_app. cbn.
  set (ts := executionTimes (metrics (node w))) in *.
  assert (Hts :
    (if bool_decide (100 < List.length ts + 1)%nat
     then tail (ts ++ [executionTimeMs])%list
     else (ts ++ [executionTimeMs])%list)
    = drop (List.length ts + 1 - 100) (ts ++ [executionTimeMs])%list).
  { case_bool_decide.
    - replace (List.length ts + 1 - 100)%nat with 1%nat by lia.
      by destruct (ts ++ [executionTimeMs])%list.
    - by replace (List.length ts + 1 - 100)%nat with 0%nat by lia. }
  rewrite Hts. split; [done|].
  split; [rewrite length_drop, length_app; cbn; lia|].
  split; [|done].
  rewrite drop_app_le by lia. apply last_snoc.
Qed.

Lemma recordOfferCompleted_window_witness :
  ∃ w',
    recordOfferCompleted 1200 (sample_world [relay1] true) =
      (Settled (Ok tt), w')
    ∧ times w' =
        drop (List.length (times (sample_world [relay1] true)) + 1 - 100)
          (times (sample_world [relay1] true) ++ [1200])%list
    ∧ (List.length (times w') ≤ 100)%nat
    ∧ last (times w') = Some 1200
    ∧ c_offersCompleted (metrics (node w')) =
        S (c_offersCompleted (metrics (node (sample_world [relay1] true)))).
Proof.
  apply (recordOfferCompleted_window 1200 (sample_world [relay1] true)).
  cbn. lia.
Defined.

Lemma sum_within_range (ts : list Z) (lo hi : Z) :
  Forall (λ t, lo <= t <= hi) ts →
  Z.of_nat (List.length ts) * lo <= foldr Z.add 0 ts
  <= Z.of_nat (List.length ts) * hi.
Proof.
  induction 1 as [|t ts Ht _ IH]; cbn [foldr List.length]; [lia|].
  rewrite Nat2Z.inj_succ. lia.
Qed.

(** X6.  The average execution time of a snapshot is 0 when no offer has
    completed yet; otherwise it lies between the smallest and the largest of
    the execution times kept.  Taking a snapshot changes nothing of the
    node. *)
Theorem getSnapshot_average_within_range (env : Env) (w : World) :
  ∃ snapshot w',
    getSnapshot env w = (Settled (Ok snapshot), w')
    ∧ node w' = node w
    ∧ (times w = [] → avgExecutionTime snapshot = 0)
    ∧ ∀ lo hi,
        times w ≠ [] → Forall (λ t, lo <= t <= hi) (times w) →
        lo <= avgExecutionTime snapshot <= hi.
Proof.
  unfold getSnapshot, times. js_unfold. cbn.
  eexists _, _. split; [done|]. cbn. split; [done|].
  split; [by intros ->|]. intros lo hi Hne Hall.
  pose proof (sum_within_range _ lo hi Hall) as Hsum.
  unfold average.
  destruct (executionTimes (metrics (node w))) as [|t ts] eqn:Hts; [done|].
  set (n := Z.of_nat (List.length (t :: ts))) in *.
  assert (Hn : 0 < n) by (subst n; cbn [List.length]; lia).
  split.
  - apply Z.div_le_lower_bound; lia.
  - apply Z.lt_succ_r, Z.div_lt_upper_bound; lia.
Qed.

(** ** Construction *)

Lemma remove_trailing_slash_app (s : string) :
  remove_trailing_slash (s +:+ "/") = s.
Proof.
  induction s as [|c s IH]; [done|].
  change (String c s +:+ "/") with (String c (s +:+ "/")).
  cbn [remove_trailing_slash].
  destruct (s +:+ "/") as [|c' s'] eqn:Hs; [by destruct s|].
  by rewrite IH.
Qed.

Lemma remove_trailing_slash_other (s : string) :
  ¬ slash_terminated s → remove_trailing_slash s = s.
Proof.
  induction s as [|c s IH]; [done|]. intros Hno.
  cbn [remove_trailing_slash]. destruct s as [|c' s].
  - case_bool_decide as Hc; [|done]. subst c.
    destruct Hno. by exists "".
  - rewrite IH; [done|]. intros [s' Hs]. apply Hno.
    exists (String c s'). by rewrite Hs.
Qed.

(** X7.  The constructor of [DispatcherClient] removes one trailing slash
    from the base URL, and only that: a URL given with a final slash and the
    same URL given without it yield the same [baseUrl], and a URL that does
    not end with a slash is kept as it is. *)
Theorem DispatcherClient_new_trailing_slash (address : string) :
  DispatcherClient_new (address +:+ "/") = address
  ∧ (¬ slash_terminated address → DispatcherClient_new address = address).
Proof.
  split; [apply remove_trailing_slash_app|apply remove_trailing_slash_other].
Qed.

(** X8.  A freshly constructed [ShhNode] is idle: it is not running, no
    offer is active, no heartbeat timer is set, and all counters are zero.
    Its pool is not empty and its rotation cursor is at 0, so the first N
    calls of [getNextRelayWallet] on it return the N relay wallets in the
    order of RELAY_SIGNERS and bring the cursor back to 0. *)
Theorem ShhNode_new_is_idle (env : Env) (config_ : NodeConfig) (now : Z)
    (n : ShhNode) (logs : list LogLine) (w : World) :
  ShhNode_new env config_ now = (Ok n, logs) →
  node w = n →
  isRunning n = false
  ∧ activeOffers n = ∅
  ∧ heartbeatInterval n = None
  ∧ metrics n = Metrics_new now
  ∧ config n = config_
  ∧ (∃ relay_text secrets,
       process_env env "RELAY_SIGNERS" = Some relay_text
       ∧ JSON_parse env relay_text = Ok secrets
       ∧ Forall2 (decodes env) secrets (pool w))
  ∧ calls (List.length (pool w)) getNextRelayWallet w =
      (Settled (Ok (Some <$> pool w)), w).
Proof.
  unfold ShhNode_new. intros Hnew Hw.
  destruct (WalletManager_new env) as [[wm|e] logs'] eqn:Hwm; [|done].
  injection Hnew as <- <-.
  destruct (WalletManager_new_pool env wm logs' Hwm) as [Hne Hc].
  destruct w as [n0 i tr]. cbn in Hw. subst n0. cbn.
  do 5 (split; [done|]).
  split.
  { unfold WalletManager_new, loadRelaySigners in Hwm.
    repeat case_match; simplify_eq; cbn.
    match goal with H : loadRelaySigners_from _ _ _ _ _ = _ |- _ =>
      destruct (loadRelaySigners_from_ok _ _ _ _ _ _ _ H) as (new & -> & ? & _)
    end.
    by eexists _, _. }
  match goal with |- calls _ _ ?W = _ => set (w0 := W) end.
  assert (Hlen : (0 < List.length (pool w0))%nat).
  { subst w0. unfold pool. cbn. destruct (relayKeypairs wm); [done|cbn; lia]. }
  assert (Hcur : cursor w0 = 0%nat) by done.
  change (relayKeypairs wm) with (pool w0).
  rewrite calls_from_cursor by lia.
  rewrite Hcur, drop_0, firstn_all, Nat.add_0_l, Nat.Div0.mod_same.
  by rewrite <- Hcur, with_cursor_same.
Qed.

Lemma ShhNode_new_is_idle_witness :
  let n := default (sample_node [] false)
             (match (ShhNode_new configured_env
                       {| version := "1.0.0"; maxConcurrent := 5;
                          retry_max := 3 |} 1700000000000).1 with
              | Ok n => Some n
              | Throw _ => None
              end) in
  pool {| node := n; interactions := 0; trace := [] |} =
    [{| publicKey := "Key:s1"; secretKey := "s1" |};
     {| publicKey := "Key:s2"; secretKey := "s2" |};
     {| publicKey := "Key:s3"; secretKey := "s3" |}]
  ∧ calls 3 getNextRelayWallet {| node := n; interactions := 0; trace := [] |} =
      (Settled (Ok (Some <$> pool {| node := n; interactions := 0;
                                     trace := [] |})),
       {| node := n; interactions := 0; trace := [] |}).
Proof.
  intros n. split; [reflexivity|].
  exact (proj2 (proj2 (proj2 (proj2 (proj2 (proj2
    (ShhNode_new_is_idle configured_env
       {| version := "1.0.0"; maxConcurrent := 5; retry_max := 3 |}
       1700000000000 n
       (ShhNode_new configured_env
          {| version := "1.0.0"; maxConcurrent := 5; retry_max := 3 |}
          1700000000000).2
       {| node := n; interactions := 0; trace := [] |}
       eq_refl eq_refl))))))).
Defined.

(** ** The environment *)

(** X9.  An environment that [validateEnvironment] accepts has what the
    node needs to be constructed: RPC_URL, NODE_SIGNER_SECRET and
    RELAY_SIGNERS are set and not empty, the RPC URL (and the dispatcher URL,
    if given) is a valid URL, RELAY_SIGNERS parses to an array that is not
    empty, and the fee payer's secret is there when the fee payer mode asks
    for it; warnings never make an environment invalid.  In such an
    environment the constructor of [WalletManager] can fail for one reason
    only: a secret that does not decode. *)
Theorem validated_environment (env : Env) (net : Net) :
  valid (validateEnvironment env net) = true →
  errors (validateEnvironment env net) = []
  ∧ (∀ key, key ∈ ["RPC_URL"; "NODE_SIGNER_SECRET"; "RELAY_SIGNERS"] →
     ∃ c s, process_env env key = Some (String c s))
  ∧ (∃ address,
       process_env env "RPC_URL" = Some address
       ∧ URL_valid net address = true)
  ∧ (∀ address,
       process_env env "DISPATCHER_URL" = Some address → address ≠ "" →
       URL_valid net address = true)
  ∧ (∃ text n,
       process_env env "RELAY_SIGNERS" = Some text
       ∧ JSON_array net text = Ok (Some (S n)))
  ∧ (process_env env "FEE_PAYER_MODE" = Some "self" →
     ∃ c s, process_env env "FEE_PAYER_SECRET" = Some (String c s))
  ∧ (parses_alike env net →
     ∀ e logs,
       WalletManager_new env = (Throw e, logs) →
       ∃ secret cause,
         Keypair_fromSecretKey env secret = Throw cause
         ∧ (e = JsError ("Failed to load node signer: "
                           +:+ template_text cause)
            ∨ e = JsError ("Failed to load relay signers: "
                             +:+ template_text cause))).
Proof.
  unfold validateEnvironment. cbv zeta. cbn [valid errors].
  intros Hvalid. apply bool_decide_eq_true_1, length_zero_iff_nil in Hvalid.
  split; [done|].
  apply app_eq_nil in Hvalid as [Hmissing Hvalid].
  apply app_eq_nil in Hvalid as [Hrpc Hvalid].
  apply app_eq_nil in Hvalid as [Hdispatcher Hvalid].
  apply app_eq_nil in Hvalid as [Hsigners Hfee].
  unfold isValidUrl, env_truthy in *.
  assert (Hset : ∀ key,
            key ∈ ["RPC_URL"; "NODE_SIGNER_SECRET"; "RELAY_SIGNERS"] →
            ∃ c s, process_env env key = Some (String c s)).
  { intros key Hkey. cbn [flat_map] in Hmissing.
    apply app_eq_nil in Hmissing as [H1 Hmissing].
    apply app_eq_nil in Hmissing as [H2 Hmissing].
    apply app_eq_nil in Hmissing as [H3 _].
    repeat (apply elem_of_cons in Hkey as [-> | Hkey]);
      [| | |by apply elem_of_nil in Hkey].
    - destruct (process_env env "RPC_URL") as [[|c s]|]; try done.
      by exists c, s.
    - destruct (process_env env "NODE_SIGNER_SECRET") as [[|c s]|];
        try done.
      by exists c, s.
    - destruct (process_env env "RELAY_SIGNERS") as [[|c s]|]; try done.
      by exists c, s. }
  clear Hmissing. split; [done|].
  destruct (Hset "RPC_URL") as (c1 & s1 & Hrpc'); [in_list|].
  destruct (Hset "NODE_SIGNER_SECRET") as (c2 & s2 & Hnode); [in_list|].
  destruct (Hset "RELAY_SIGNERS") as (c3 & s3 & Hrelay); [in_list|].
  clear Hset. rewrite Hrpc' in Hrpc. rewrite Hrelay in Hsigners.
  assert (Harray : ∃ n, JSON_array net (String c3 s3) = Ok (Some (S n))).
  { destruct (JSON_array net (String c3 s3)) as [[[|n]|]|]; try done.
    by exists n. }
  destruct Harray as [n Harray].
  split.
  { exists (String c1 s1). split; [done|].
    by destruct (URL_valid net (String c1 s1)). }
  split.
  { intros address Hd Hne. rewrite Hd in Hdispatcher.
    destruct address as [|c s]; [done|].
    by destruct (URL_valid net (String c s)). }
  split; [by exists (String c3 s3), n|].
  split.
  { intros Hmode. rewrite Hmode in Hfee.
    rewrite bool_decide_eq_true_2 in Hfee by done.
    destruct (process_env env "FEE_PAYER_SECRET") as [[|c s]|]; try done.
    by exists c, s. }
  intros Halike e logs.
  destruct (Halike _ _ Harray) as (secrets & Hparse & Hlen).
  unfold WalletManager_new, loadRelaySigners.
  rewrite Hnode, Hrelay, Hparse.
  destruct (Keypair_fromSecretKey env (String c2 s2)) as [keypair|cause]
    eqn:Hkey.
  2:{ intros [= <- <-]. exists (String c2 s2), cause. split; [done|].
      by left. }
  destruct (loadRelaySigners_from env 0 secrets [] []) as [[keypairs|cause] l]
    eqn:Hload.
  - destruct (loadRelaySigners_from_ok _ _ _ _ _ _ _ Hload)
      as (new & -> & Hall & _).
    apply Forall2_length in Hall.
    rewrite bool_decide_eq_false_2; [done|]. cbn. lia.
  - destruct (loadRelaySigners_from_throw _ _ _ _ _ _ _ Hload)
      as (secret & _ & Hthrow).
    intros [= <- <-]. exists secret, cause. split; [done|]. by right.
Qed.

Lemma validated_environment_witness :
  errors (validateEnvironment configured_env mock_net) = []
  ∧ (∃ text n,
       process_env configured_env "RELAY_SIGNERS" = Some text
       ∧ JSON_array mock_net text = Ok (Some (S n))).
Proof.
  destruct (validated_environment configured_env mock_net eq_refl)
    as (Herrors & _ & _ & _ & Hsigners & _).
  by split.
Defined.

(** ** [execute], in full *)

Lemma next_cursor_step (w : World) :
  pool w ≠ [] →
  next_cursor w = ((cursor w + 1) `mod` List.length (pool w))%nat.
Proof. unfold next_cursor. by destruct (pool w). Qed.

Lemma next_cursor_empty (w : World) : pool w = [] → next_cursor w = cursor w.
Proof. unfold next_cursor. by intros ->. Qed.

Ltac one_submission :=
  cbn -[SystemProgram_transfer createTransferInstruction];
  first
    [ exact I
    | reflexivity
    | eexists _, _; repeat (split; [first [done | eauto]|]);
      first
        [ left; split; [done|]; eexists; split; [eassumption|];
          split; [eassumption|]; done
        | right; split; [done|]; eexists _, _, _; split; [done|];
          split; [done|]; split; [eassumption|];
          first [left; done | right; done] ] ].

Ltac forall_submissions :=
  repeat first [ apply Forall_nil_2 | apply Forall_cons_2; [one_submission|] ].

(** Membership in a list that is written out. *)
Ltac not_in_list H :=
  repeat (apply elem_of_cons in H as [H|H]; [discriminate H|]);
  by apply elem_of_nil in H.

Lemma execute_try_run (env : Env) (offer : Offer) (st : Z) (w : World) :
  ∃ o w' evs,
    execute_try env offer st w = (Settled o, w')
    ∧ continues w w' evs
    ∧ Forall (submission env offer w) evs
    ∧ (List.length (submissions evs) ≤ 1)%nat
    ∧ node w' = node_with_cursor (next_cursor w) (node w)
    ∧ match o with
      | Ok r =>
          success r = true ∧ r_partId r = partId offer
          ∧ confirmed evs (txSignature r)
      | Throw e => ∀ signature, ¬ confirmed evs signature
      end.
Proof.
  unfold execute_try, logger_info, logger_log.
  unfold mbind at 1, Js_bind, js_bind. unfold mbind at 1, Js_bind, js_bind.
  unfold lib at 1. cbn [formatMessage log_arguments forallb].
  unfold emit at 1.
  unfold mbind at 1, Js_bind, js_bind.
  destruct (decide (pool w = [])) as [He|Hne].
  - rewrite getNextRelayWallet_empty by done.
    eexists _, _, [_]. split; [done|]. unfold continues. cbn.
    split; [done|]. split; [forall_submissions|]. split; [cbn; lia|].
    split.
    + rewrite next_cursor_empty by done. unfold cursor.
      by rewrite node_with_cursor_same.
    + intros signature (tx & signers & retries & Hin). not_in_list Hin.
  - rewrite getNextRelayWallet_step by done.
    rewrite (next_cursor_step w Hne).
    unfold createUSDCTransfer, createSOLTransfer, property, logger_info,
      logger_log.
    js_unfold. cbn -[SystemProgram_transfer createTransferInstruction].
    unfold continues, confirmed.
    change (pool {| node := node w; interactions := interactions w;
                    trace := (trace w ++ [_])%list |}) with (pool w).
    change (cursor {| node := node w; interactions := interactions w;
                      trace := (trace w ++ [_])%list |}) with (cursor w).
    repeat case_match; simplify_eq;
      cbn -[SystemProgram_transfer createTransferInstruction];
      eexists _, _, _; (split; [done|]);
      cbn -[SystemProgram_transfer createTransferInstruction];
      rewrite <- ?app_assoc;
      cbn -[SystemProgram_transfer createTransferInstruction];
      (split; [done|]).
    all: cbn -[SystemProgram_transfer createTransferInstruction] in *.
    all: repeat match goal with
         | H : bool_decide _ = false |- _ => apply bool_decide_eq_false_1 in H
         | H : bool_decide _ = true |- _ => apply bool_decide_eq_true_1 in H
         end.
    all: try match goal with
         | H : SystemProgram_transfer _ _ _ = Ok _ |- _ =>
             apply SystemProgram_transfer_ok
               in H as (lamports_ & Hparsed & Hrange & ->)
         end.
    all: (split; [forall_submissions|]).
    all: (split; [cbn; lia|]).
    all: (split; [done|]).
    all: try (intros signature (tx & signers & retries & Hin);
              not_in_list Hin).
    all: split; [done|]; split; [done|]; eexists _, _, _; in_list.
Qed.

(** [execute], in full: what it returns or throws, what it leaves of the
    node, and the events it adds. *)
Lemma execute_run (env : Env) (offer : Offer) (w : World) :
  ∃ o w' evs,
    execute env offer w = (Settled o, w')
    ∧ continues w w' evs
    ∧ Forall (submission env offer w) evs
    ∧ (List.length (submissions evs) ≤ 1)%nat
    ∧ node w' = node_with_cursor (next_cursor w) (node w)
    ∧ match o with
      | Ok r =>
          r_partId r = partId offer
          ∧ (success r = true ↔ confirmed evs (txSignature r))
          ∧ (success r = false →
             (∀ signature, ¬ confirmed evs signature)
             ∧ txSignature r = "" ∧ spentLamports r = Num 0 ∧ feePaid r = 0
             ∧ ∃ e ms,
                 error r = Some (error_text e)
                 ∧ last evs =
                     Some (Log {| level := ERROR;
                                  component := "TransactionExecutor";
                                  message :=
                                    FailedToExecute (id offer) ms e |}))
      | Throw e =>
          e = bigint_not_serializable
          ∧ ∀ signature, ¬ confirmed evs signature
      end.
Proof.
  unfold execute. unfold mbind at 1, Js_bind, js_bind, interact at 1.
  unfold try_catch.
  match goal with |- context [execute_try env offer ?st ?w1] =>
    destruct (execute_try_run env offer st w1)
      as ([r|e] & w2 & evs & -> & Hc & Hev & Hone & Hn & Hr) end.
  - destruct Hr as (Hs & Hp & Hconf).
    exists (Ok r), w2, evs. repeat split; try done; congruence.
  - unfold execute_catch, logger_error, logger_log, formatMessage.
    cbn [log_arguments forallb]. rewrite andb_true_r.
    js_unfold. cbn. unfold continues in *. cbn in *.
    destruct (json_writable e) eqn:Hjson; cbn.
    + eexists (Ok _), _, (evs ++ [_])%list. split; [done|].
      cbn. rewrite Hc.
      split; [by rewrite app_assoc|].
      split; [apply Forall_app; split; [done|forall_submissions]|].
      split.
      { unfold submissions in *. rewrite List.filter_app, length_app. cbn.
        lia. }
      split; [done|]. split; [done|].
      assert (Hnone : ∀ signature,
                ¬ confirmed (evs ++ [Log
                  {| level := ERROR; component := "TransactionExecutor";
                     message := FailedToExecute (id offer)
                       (Date_now env (interactions w2)
                        - Date_now env (interactions w)) e |}])%list signature).
      { intros signature (tx & signers & retries & Hin).
        apply elem_of_app in Hin as [Hin|Hin].
        - destruct (Hr signature). by eexists _, _, _.
        - not_in_list Hin. }
      split.
      { split; [done|]. intros Hconf. by destruct (Hnone _ Hconf). }
      intros _. split; [done|]. do 3 (split; [done|]).
      eexists e, _. split; [done|]. by rewrite last_snoc.
    + eexists (Throw _), _, evs. split; [done|]. cbn.
      do 4 (split; [done|]). split; [done|]. exact Hr.
Qed.

(** A SOL offer whose transfer cannot be built, with a wallet under the
    cursor and a recipient that is a public key: [execute] stops at
    [SystemProgram.transfer] with its error [e]. *)
Lemma execute_no_transfer (env : Env) (offer : Offer) (w : World)
    (wallet : Keypair) (target : string) (e : thrown) :
  asset offer = "SOL" →
  pool w !! cursor w = Some wallet →
  new_PublicKey env (recipient offer) = Ok target →
  SystemProgram_transfer (publicKey wallet) target (parseInt (amount offer))
    = Throw e →
  ∃ w1,
    execute env offer w =
      execute_catch env offer (Date_now env (interactions w)) e w1
    ∧ continues w w1 [executing offer]
    ∧ interactions w1 = S (interactions w).
Proof.
  intros Hsol Hwallet Htarget Hthrow.
  assert (Hne : pool w ≠ []) by (intros He; by rewrite He in Hwallet).
  unfold execute, execute_try, logger_info, logger_log.
  unfold mbind at 1, Js_bind, js_bind, interact at 1.
  unfold try_catch.
  unfold mbind at 1, Js_bind, js_bind. unfold mbind at 1, Js_bind, js_bind.
  unfold lib at 1. cbn [formatMessage log_arguments forallb].
  unfold emit at 1.
  unfold mbind at 1, Js_bind, js_bind.
  rewrite getNextRelayWallet_step by done.
  unfold createSOLTransfer, property, with_cursor, pool, cursor in *.
  js_unfold. cbn -[SystemProgram_transfer execute_catch].
  rewrite Htarget. cbn -[SystemProgram_transfer execute_catch].
  rewrite (bool_decide_eq_true_2 _ Hsol), Hwallet.
  cbn -[SystemProgram_transfer execute_catch].
  rewrite Hthrow. cbn -[execute_catch].
  eexists. split; [reflexivity|]. unfold continues. by cbn.
Qed.

(** X10.  [execute] picks a wallet once and submits at most one
    transaction: the rotation cursor moves on by one wallet (it stays where
    it is on an empty pool) and nothing else of the node changes; whatever
    is submitted is signed and paid for by the wallet that was under the
    cursor, and holds the transfer the offer asks for, to the offer's
    recipient.  When [execute] returns, the receipt reports success exactly
    when the chain confirmed the transaction, with the signature the chain
    returned; a receipt of failure has an empty signature, nothing spent, no
    fee and the text of the error, and nothing was confirmed.  [execute]
    throws only the [TypeError] of the logger, and only when nothing was
    confirmed.  For a SOL offer with a wallet and a recipient: an amount
    that is a number outside of [0, 2^64) makes [execute] throw before
    anything is submitted, and an amount that is no finite number makes it
    return a receipt of failure, again with nothing submitted. *)
Theorem execute_submits_once (env : Env) (offer : Offer) (w : World) :
  (∃ o w' evs,
     execute env offer w = (Settled o, w')
     ∧ continues w w' evs
     ∧ node w' = node_with_cursor (next_cursor w) (node w)
     ∧ (List.length (submissions evs) ≤ 1)%nat
     ∧ (∀ e, e ∈ submissions evs → submission env offer w e)
     ∧ match o with
       | Ok r =>
           r_partId r = partId offer
           ∧ (success r = true ↔ confirmed evs (txSignature r))
           ∧ (success r = false →
              (∀ signature, ¬ confirmed evs signature)
              ∧ txSignature r = "" ∧ spentLamports r = Num 0
              ∧ feePaid r = 0 ∧ is_Some (error r))
       | Throw e =>
           e = bigint_not_serializable
           ∧ ∀ signature, ¬ confirmed evs signature
       end)
  ∧ (∀ wallet target,
       asset offer = "SOL" →
       pool w !! cursor w = Some wallet →
       new_PublicKey env (recipient offer) = Ok target →
       (∀ a,
          parseInt (amount offer) = Num a → ¬ 0 <= a < 2 ^ 64 →
          ∃ w',
            execute env offer w =
              (Settled (Throw bigint_not_serializable), w')
            ∧ continues w w' [executing offer])
       ∧ (∀ e,
            BigInt (parseInt (amount offer)) = Throw e →
            ∃ r w' failure,
              execute env offer w = (Settled (Ok r), w')
              ∧ continues w w' [executing offer; failure]
              ∧ is_log failure
              ∧ is_failure_receipt offer e r)).
Proof.
  split.
  - destruct (execute_run env offer w)
      as (o & w' & evs & Hrun & Hc & Hall & Hone & Hn & Ho).
    exists o, w', evs. do 4 (split; [done|]).
    split.
    { intros e He. unfold submissions in He.
      apply list_elem_of_In, List.filter_In in He as [He _].
      rewrite Forall_forall in Hall. by apply Hall, list_elem_of_In. }
    destruct o as [r|e]; [|done].
    destruct Ho as (Hp & Hs & Hf). split; [done|]. split; [done|].
    intros Hfalse.
    destruct (Hf Hfalse) as (? & ? & ? & ? & e & ms & -> & _).
    by repeat split.
  - intros wallet target Hsol Hwallet Htarget. split.
    + intros a Ha Hrange.
      destruct (execute_no_transfer env offer w wallet target
                  (JsBigIntError "SolanaError"
                     ("Codec [u64] expected number to be in the range [0, 18446744073709551615], got "
                        +:+ pretty a +:+ ".")))
        as (w1 & -> & Hc & _); [done..| |].
      { rewrite Ha. unfold SystemProgram_transfer, u64_codec. cbn [BigInt].
        by rewrite bool_decide_eq_false_2. }
      unfold execute_catch, logger_error, logger_log. js_unfold.
      eexists. split; [reflexivity|]. by unfold continues in *.
    + intros e He.
      destruct (execute_no_transfer env offer w wallet target e)
        as (w1 & -> & Hc & _); [done..| |].
      { unfold SystemProgram_transfer. by rewrite He. }
      assert (Hjson : json_writable e = true).
      { destruct (parseInt (amount offer)); cbn in He; by simplify_eq. }
      unfold execute_catch, logger_error, logger_log, formatMessage.
      cbn [log_arguments forallb]. rewrite Hjson.
      js_unfold. cbn.
      eexists _, _, _. split; [reflexivity|].
      unfold continues in *. cbn. rewrite Hc, <- app_assoc.
      split; [reflexivity|]. split; [exact I|]. by repeat split.
Qed.

(** [execute] on the SOL offer of the amount "abc": nothing is submitted,
    and the receipt carries the error of [BigInt]. *)
Lemma execute_submits_once_example :
  ∃ r w',
    execute (mock_env funded) unparsable_offer (sample_world [relay1] true) =
      (Settled (Ok r), w')
    ∧ success r = false
    ∧ error r =
        Some "The number NaN cannot be converted to a BigInt because it is not an integer"
    ∧ submissions (trace w') = [].
Proof.
  eexists _, _. split; [vm_compute; reflexivity|]. repeat split.
Qed.

(** ** [handleOffer], in full *)

Lemma post_run (env : Env) (path : string) (payload : JsonBody) (w : World) :
  body_text env payload = JSON_stringify env payload →
  ∃ request answer w',
    post env path payload w = (Settled answer, w')
    ∧ continues w w' [Fetch request answer]
    ∧ node w' = node w
    ∧ authenticated env (node w) "POST" path payload request
    ∧ (∀ e, answer = Throw e → json_writable e = true).
Proof.
  intros Hbody. unfold post, getAuthHeaders, authenticated. js_unfold. cbn.
  eexists _, _, _. split; [done|]. unfold continues. cbn.
  do 2 (split; [done|]). split.
  - do 4 (split; [done|]). eexists. split; [done|]. by rewrite Hbody.
  - intros e He. by eapply fetch_rejection.
Qed.

Lemma acceptOffer_run (env : Env) (acceptance : OfferAcceptance) (w : World) :
  ∃ request answer w',
    acceptOffer env acceptance w = (Settled (claim_result answer), w')
    ∧ continues w w' [Fetch request answer]
    ∧ node w' = node w
    ∧ authenticated env (node w) "POST" "/api/node/accept"
        (AcceptanceBody acceptance) request
    ∧ (∀ e, answer = Throw e → json_writable e = true).
Proof.
  unfold acceptOffer. unfold mbind at 1, Js_bind, js_bind.
  destruct (post_run env "/api/node/accept" (AcceptanceBody acceptance) w
              eq_refl)
    as (request & answer & w' & -> & Hc & Hn & Ha).
  exists request, answer, w'. split; [|done].
  destruct answer as [response|e]; [|done]. cbn.
  js_unfold. by repeat case_match.
Qed.

Lemma submitReceipt_run (env : Env) (receipt : ExecutionReceipt) (w : World) :
  ∃ request answer w',
    submitReceipt env receipt w = (Settled (receipt_result answer), w')
    ∧ continues w w' [Fetch request answer]
    ∧ node w' = node w
    ∧ receipt_request env receipt w request
    ∧ (∀ e, answer = Throw e → json_writable e = true).
Proof.
  unfold submitReceipt, receipt_request.
  unfold mbind at 1, Js_bind, js_bind.
  destruct (post_run env "/api/node/receipt" (ReceiptBody receipt) w eq_refl)
    as (request & answer & w' & -> & Hc & Hn & Ha).
  exists request, answer, w'. split; [|done].
  destruct answer as [response|e]; [|done]. cbn.
  js_unfold. by repeat case_match.
Qed.

Lemma submission_frame (env : Env) (offer : Offer) (w0 w : World)
    (e : Event) :
  walletManager (node w0) = walletManager (node w) →
  config (node w0) = config (node w) →
  submission env offer w0 e → submission env offer w e.
Proof.
  unfold submission, pool, cursor. intros -> ->. done.
Qed.

Lemma authenticated_frame (env : Env) (n0 n : ShhNode)
    (method_ path : string) (payload : JsonBody) (request : Request) :
  baseUrl n0 = baseUrl n →
  nodeKeypair (walletManager n0) = nodeKeypair (walletManager n) →
  authenticated env n0 method_ path payload request →
  authenticated env n method_ path payload request.
Proof. unfold authenticated. by intros -> ->. Qed.

(** [handleOffer] always returns, along one of the six runs. *)
Lemma handleOffer_run (env : Env) (offer : Offer) (w : World) :
  ∃ w' evs,
    handleOffer env offer w = (Settled (Ok tt), w')
    ∧ continues w w' evs
    ∧ offer_run env offer w w' evs.
Proof.
  unfold handleOffer, handleOffer_try, handleOffer_catch, activeOffers_set,
    activeOffers_delete, set_activeOffers, recordOfferAccepted,
    recordOfferCompleted, recordOfferFailed, set_metrics, logger_info,
    logger_warn, logger_error.
  js_unfold. cbn -[validateOffer acceptOffer execute submitReceipt].
  match goal with |- context [validateOffer env offer ?w0] =>
    destruct (validateOffer_spec env offer w0)
      as (w2 & evs2 & -> & Hc2 & Hl2 & Hn2 & _);
    rewrite (admissible_same env offer (tick w) w0) by done
  end.
  unfold continues in *. cbn in Hc2, Hn2.
  assert (Hlogs : Forall is_log
    (line INFO (ReceivedOffer (id offer) (asset offer) (amount offer))
       :: evs2)) by by apply Forall_cons_2.
  destruct (admissible env offer (tick w)) eqn:Hadm;
    cbn -[validateOffer acceptOffer execute submitReceipt].
  2:{ (* not admitted *)
    eexists _, _. split; [done|]. cbn.
    rewrite Hc2, <- !app_assoc. split; [done|].
    match goal with |- offer_run _ _ _ ?W _ =>
      pose proof (run_rejected env offer w W
        (line INFO (ReceivedOffer (id offer) (asset offer) (amount offer))
           :: evs2)) as Hh
    end.
    unfold line in Hh. rewrite <- ?app_assoc in Hh. cbn in Hh.
    by apply Hh. }
  match goal with |- context [acceptOffer env ?a ?w0] =>
    destruct (acceptOffer_run env a w0)
      as (req & ans & w3 & -> & Hc3 & Hn3 & Ha3 & Hw3)
  end.
  unfold continues in *. cbn in Hc3, Hn3, Ha3.
  assert (Hclaim : claim_request env offer w req).
  { eexists. rewrite Hn2 in Ha3. exact Ha3. }
  destruct (claim_result ans) as [[|]|e] eqn:Hres;
    cbn -[validateOffer acceptOffer execute submitReceipt].
  - (* claim won *)
    match goal with |- context [execute env offer ?w0] =>
      destruct (execute_run env offer w0)
        as (o & w4 & evs4 & -> & Hc4 & Hl4 & Hone & Hn4 & Ho);
      assert (Hwm : walletManager (node w0) = walletManager (node w))
        by (cbn; by rewrite Hn3, Hn2);
      assert (Hcfg : config (node w0) = config (node w))
        by (cbn; by rewrite Hn3, Hn2);
      assert (Hnext : next_cursor w0 = next_cursor w)
        by (unfold next_cursor, pool, cursor; by rewrite Hwm)
    end.
    unfold continues in *. cbn in Hc4, Hn4. rewrite Hnext in Hn4.
    assert (Hchain : Forall (submission env offer w) evs4).
    { eapply Forall_impl; [exact Hl4|]. intros e.
      by apply submission_frame. }
    destruct o as [r|e]; [destruct Ho as (Hpart & Hr & _)|].
    2:{ (* execute throws *)
      destruct Ho as [-> Hnone].
      rewrite formatMessage_ok by done.
      cbn -[validateOffer acceptOffer execute submitReceipt].
      eexists _, _. split; [done|]. cbn.
      rewrite Hc4, Hc3, Hc2, <- !app_assoc. cbn.
      split; [done|].
      match goal with |- offer_run _ _ _ ?W _ =>
        pose proof (run_aborted env offer w W
          (line INFO (ReceivedOffer (id offer) (asset offer) (amount offer))
             :: evs2) req ans evs4) as Hh
      end.
      unfold line in Hh. rewrite <- ?app_assoc in Hh. cbn in Hh.
      apply Hh; try done; unfold same_frame, cursor, accepted, completed,
        failed, times; cbn; rewrite ?Hn4; cbn; rewrite ?Hn3, ?Hn2;
        cbn; try done.
      by rewrite delete_insert_eq. }
    destruct (submitReceipt_run env r w4)
      as (req' & ans' & w5 & -> & Hc5 & Hn5 & Ha5 & Hw5).
    unfold continues in *.
    assert (Hreceipt : receipt_request env r w req').
    { unfold receipt_request in *.
      eapply authenticated_frame; [| |exact Ha5];
        rewrite Hn4; cbn; by rewrite Hn3, Hn2. }
    destruct (receipt_result ans') as [[]|e] eqn:Hres';
      cbn -[validateOffer acceptOffer execute submitReceipt].
    + eexists _, _. split; [done|]. cbn.
      rewrite Hc5, Hc4, Hc3, Hc2, <- !app_assoc. cbn.
      split; [done|].
      match goal with |- offer_run _ _ _ ?W _ =>
        pose proof (run_reported env offer w W
          (line INFO (ReceivedOffer (id offer) (asset offer) (amount offer))
             :: evs2) req ans evs4 r req' ans'
          (Date_now env (interactions w5) - Date_now env (interactions w)))
          as Hh
      end.
      unfold line in Hh. rewrite <- ?app_assoc in Hh. cbn in Hh.
      apply Hh; try done; unfold same_frame, cursor, accepted, completed,
        failed, times; cbn; rewrite ?Hn5, ?Hn4; cbn; rewrite ?Hn3, ?Hn2;
        cbn; try done.
      by rewrite delete_insert_eq.
    + rewrite formatMessage_ok
        by (cbn; by rewrite (receipt_result_writable ans' e Hw5 Hres')).
      cbn -[validateOffer acceptOffer execute submitReceipt].
      eexists _, _. split; [done|]. cbn.
      rewrite Hc5, Hc4, Hc3, Hc2, <- !app_assoc. cbn.
      split; [done|].
      match goal with |- offer_run _ _ _ ?W _ =>
        pose proof (run_unreported env offer w W
          (line INFO (ReceivedOffer (id offer) (asset offer) (amount offer))
             :: evs2) req ans evs4 r req' ans' e) as Hh
      end.
      unfold line in Hh. rewrite <- ?app_assoc in Hh. cbn in Hh.
      apply Hh; try done; unfold same_frame, cursor, accepted, completed,
        failed, times; cbn; rewrite ?Hn5, ?Hn4; cbn; rewrite ?Hn3, ?Hn2;
        cbn; try done.
      by rewrite delete_insert_eq.
  - (* claim lost *)
    eexists _, _. split; [done|]. cbn.
    rewrite Hc3, Hc2, <- !app_assoc. cbn. split; [done|].
    match goal with |- offer_run _ _ _ ?W _ =>
      pose proof (run_lost env offer w W
        (line INFO (ReceivedOffer (id offer) (asset offer) (amount offer))
           :: evs2) req ans) as Hh
    end.
    unfold line in Hh. rewrite <- ?app_assoc in Hh. cbn in Hh.
    apply Hh; try done.
    cbn. by rewrite Hn3, Hn2.
  - (* claim request failed *)
    rewrite formatMessage_ok
      by (cbn; by rewrite (claim_result_writable ans e Hw3 Hres)).
    cbn -[validateOffer acceptOffer execute submitReceipt].
    eexists _, _. split; [done|]. cbn.
    rewrite Hc3, Hc2, <- !app_assoc. cbn. split; [done|].
    match goal with |- offer_run _ _ _ ?W _ =>
      pose proof (run_claim_failed env offer w W
        (line INFO (ReceivedOffer (id offer) (asset offer) (amount offer))
           :: evs2) req ans e) as Hh
    end.
    unfold line in Hh. rewrite <- ?app_assoc in Hh. cbn in Hh.
    apply Hh; try done; unfold same_frame, cursor, accepted, completed,
      failed, times; cbn; rewrite ?Hn3, ?Hn2; cbn; done.
Qed.

(** Events that are no request to the dispatcher count for nothing. *)
Lemma count_app (f : Event → bool) (l1 l2 : list Event) :
  count f (l1 ++ l2)%list = (count f l1 + count f l2)%nat.
Proof. unfold count. by rewrite List.filter_app, length_app. Qed.

Lemma count_no_fetch (f : Event → bool) (l : list Event) :
  (∀ e, is_fetch e = false → f e = false) →
  Forall (λ e, is_fetch e = false) l →
  count f l = 0%nat.
Proof.
  intros Hf. unfold count. induction 1 as [|e l He _ IH]; [done|].
  cbn. by rewrite (Hf e He).
Qed.

Lemma logs_no_fetch (l : list Event) :
  Forall is_log l → Forall (λ e, is_fetch e = false) l.
Proof. intros Hl. eapply Forall_impl; [exact Hl|]. by intros []. Qed.

Lemma chain_no_fetch (env : Env) (offer : Offer) (w : World)
    (l : list Event) :
  Forall (submission env offer w) l → Forall (λ e, is_fetch e = false) l.
Proof. intros Hl. eapply Forall_impl; [exact Hl|]. by intros []. Qed.

Lemma claim_request_body (env : Env) (offer : Offer) (w : World)
    (request : Request) :
  claim_request env offer w request →
  ∃ acceptance, body request = AcceptanceBody acceptance.
Proof. intros (now & _ & _ & Hb & _). by eexists. Qed.

Lemma receipt_request_body (env : Env) (receipt : ExecutionReceipt)
    (w : World) (request : Request) :
  receipt_request env receipt w request → body request = ReceiptBody receipt.
Proof. by intros (_ & _ & Hb & _). Qed.

(** The counts of a run of [handleOffer]. *)
Ltac count_run :=
  rewrite ?count_app;
  repeat match goal with
  | H : Forall is_log ?l |- context [count ?f ?l] =>
      rewrite (count_no_fetch f l) by
        (first [by intros [] | by apply logs_no_fetch])
  | H : Forall (submission _ _ _) ?l |- context [count ?f ?l] =>
      rewrite (count_no_fetch f l) by
        (first [by intros [] | by eapply chain_no_fetch])
  end;
  unfold count; cbn;
  repeat match goal with
  | H : body _ = _ |- _ => rewrite H
  | H : claim_result _ = _ |- _ => rewrite H
  | H : receipt_result _ = _ |- _ => rewrite H
  end; cbn.

(** What one run of [handleOffer] does to the counters, the rotation and
    the active-offer map, in terms of the dispatcher's answers. *)
Lemma handleOffer_step (env : Env) (offer : Offer) (w : World) :
  ∃ w' evs,
    handleOffer env offer w = (Settled (Ok tt), w')
    ∧ continues w w' evs
    ∧ accepted w' = (accepted w + count grants evs)%nat
    ∧ completed w' = (completed w + count acknowledges evs)%nat
    ∧ (failed w' + count submits evs =
         failed w + count refuses evs + count grants evs)%nat
    ∧ (count grants evs ≤ 1)%nat
    ∧ (count submits evs ≤ count grants evs)%nat
    ∧ (completed w' + failed w' ≤ completed w + failed w + 1)%nat
    ∧ same_frame (node w) (node w')
    ∧ cursor w' =
        (if bool_decide (count grants evs = 0%nat) then cursor w
         else next_cursor w)
    ∧ activeOffers (node w') ⊆ activeOffers (node w)
    ∧ ((List.length (times w) ≤ 100)%nat →
       (List.length (times w') ≤ 100)%nat).
Proof.
  destruct (handleOffer_run env offer w) as (w' & evs & Hrun & Hc & Hr).
  exists w', evs. do 2 (split; [done|]).
  destruct Hr as
    [logs Hadm Hlogs Hn
    |logs req ans Hadm Hlogs Hcl Hres Hn
    |logs req ans e Hadm Hlogs Hcl Hres Hf Ha Hcur Hacc Hcom Hfail Ht
    |logs req ans chain Hadm Hlogs Hcl Hres Hchain Hone Hnone
       Hf Ha Hcur Hacc Hcom Hfail Ht
    |logs req ans chain r req' ans' elapsed Hadm Hlogs Hcl Hres Hchain Hone
       Hpart Hsucc Hrec Hres' Hf Ha Hcur Hacc Hcom Hfail Ht
    |logs req ans chain r req' ans' e Hadm Hlogs Hcl Hres Hchain Hone
       Hpart Hsucc Hrec Hres' Hf Ha Hcur Hacc Hcom Hfail Ht].
  all: try destruct (claim_request_body _ _ _ _ Hcl) as [acceptance Hbody].
  all: try pose proof (receipt_request_body _ _ _ _ Hrec) as Hbody'.
  all: try (assert (Hf : same_frame (node w) (node w'))
              by (rewrite Hn; by repeat split)).
  all: try (assert (Ha : activeOffers (node w') = activeOffers (node w))
              by by rewrite Hn).
  all: rewrite ?Hcur, Ha.
  all: unfold accepted, completed, failed, times, cursor in *.
  all: try rewrite Hn.
  all: rewrite ?Hacc, ?Hcom, ?Hfail, ?Ht.
  all: count_run.
  all: repeat split; try lia; try done; try apply Hf.
  all: try apply delete_subseteq.
  intros Hlen. unfold push_executionTime. cbn zeta.
  case_bool_decide as Hover; rewrite length_app in Hover; cbn in Hover.
  - destruct (executionTimes (metrics (node w))); cbn in *;
      rewrite ?length_app; cbn; lia.
  - rewrite length_app. cbn. lia.
Qed.

(** X11.  The offer counters follow the dispatcher's answers: handling an
    offer adds to [offersAccepted] the claims the dispatcher granted and to
    [offersCompleted] the receipts it acknowledged (whether the receipt
    reports the transfer as done or as failed); [offersFailed] counts the
    claim requests and receipt submissions that failed and the granted
    claims for which no receipt was submitted, which is when [execute]
    threw.  At most one claim is granted, a receipt is submitted only for a
    granted claim, and at most one of [offersCompleted] and [offersFailed]
    moves, by one.  The counter [offersReceived] and the earnings are never
    changed, and the window of execution times stays within 100 entries. *)
Theorem handleOffer_counts_answers (env : Env) (offer : Offer) (w : World) :
  ∃ w' evs,
    handleOffer env offer w = (Settled (Ok tt), w')
    ∧ continues w w' evs
    ∧ accepted w' = (accepted w + count grants evs)%nat
    ∧ completed w' = (completed w + count acknowledges evs)%nat
    ∧ (failed w' + count submits evs =
         failed w + count refuses evs + count grants evs)%nat
    ∧ (count grants evs ≤ 1)%nat
    ∧ (count submits evs ≤ count grants evs)%nat
    ∧ (completed w' + failed w' ≤ completed w + failed w + 1)%nat
    ∧ c_offersReceived (metrics (node w')) =
        c_offersReceived (metrics (node w))
    ∧ m_totalEarnings (metrics (node w')) = m_totalEarnings (metrics (node w))
    ∧ ((List.length (times w) ≤ 100)%nat →
       (List.length (times w') ≤ 100)%nat).
Proof.
  destruct (handleOffer_step env offer w)
    as (w' & evs & ? & ? & ? & ? & ? & ? & ? & ? & Hf & _ & _ & ?).
  exists w', evs. repeat split; try done; apply Hf.
Qed.

(** The counters after the SOL offer of the amount "-5", whose claim is
    granted and whose execution throws: one offer accepted, one failed, no
    receipt submitted. *)
Lemma handleOffer_counts_answers_example :
  ∃ w',
    handleOffer (mock_env funded) negative_offer (sample_world [relay1] true)
      = (Settled (Ok tt), w')
    ∧ accepted w' = 1%nat ∧ completed w' = 0%nat ∧ failed w' = 1%nat
    ∧ count grants (trace w') = 1%nat
    ∧ count submits (trace w') = 0%nat
    ∧ count refuses (trace w') = 0%nat.
Proof. eexists. split; [vm_compute; reflexivity|]. by repeat split. Qed.

(** X12.  Handling an offer consumes a turn of the wallet rotation exactly
    when the dispatcher grants the claim: the cursor then moves on by one
    wallet, and it stays where it is when the offer is rejected, the claim is
    lost or the claim request fails.  The pool itself never changes. *)
Theorem handleOffer_rotates_when_claimed (env : Env) (offer : Offer)
    (w : World) :
  ∃ w' evs,
    handleOffer env offer w = (Settled (Ok tt), w')
    ∧ continues w w' evs
    ∧ pool w' = pool w
    ∧ cursor w' =
        if bool_decide (count grants evs = 0%nat) then cursor w
        else next_cursor w.
Proof.
  destruct (handleOffer_step env offer w)
    as (w' & evs & ? & ? & _ & _ & _ & _ & _ & _ & Hf & ? & _).
  exists w', evs. repeat split; try done. unfold pool. apply Hf.
Qed.

(** Where the events of a run of [handleOffer] come from. *)
Ltac elem_of_run H :=
  repeat first
    [ apply elem_of_app in H as [H|H]
    | apply elem_of_cons in H as [H|H]
    | apply elem_of_nil in H; destruct H ].

Lemma offer_run_submission (env : Env) (offer : Offer) (w w' : World)
    (evs : list Event) (e : Event) :
  offer_run env offer w w' evs →
  e ∈ evs → is_submission e = true →
  admissible env offer (tick w) = true ∧ submission env offer w e.
Proof.
  intros Hr Hin He.
  destruct Hr as
    [logs Hadm Hlogs Hn
    |logs req ans Hadm Hlogs Hcl Hres Hn
    |logs req ans e' Hadm Hlogs Hcl Hres Hf Ha Hcur Hacc Hcom Hfail Ht
    |logs req ans chain Hadm Hlogs Hcl Hres Hchain Hone Hnone
       Hf Ha Hcur Hacc Hcom Hfail Ht
    |logs req ans chain r req' ans' elapsed Hadm Hlogs Hcl Hres Hchain Hone
       Hpart Hsucc Hrec Hres' Hf Ha Hcur Hacc Hcom Hfail Ht
    |logs req ans chain r req' ans' e' Hadm Hlogs Hcl Hres Hchain Hone
       Hpart Hsucc Hrec Hres' Hf Ha Hcur Hacc Hcom Hfail Ht].
  all: rewrite Forall_forall in Hlogs.
  all: try rewrite Forall_forall in Hchain.
  all: elem_of_run Hin; subst; try discriminate He.
  all: try (apply Hlogs in Hin; by destruct e).
  all: split; [done|by apply Hchain].
Qed.

(** X13.  The node never submits a SOL transfer above the per-transaction
    ceiling: the amount of every system transfer that [handleOffer] submits
    to the chain is the number of lamports [parseInt] reads in the offer's
    amount, a number from 0 to 2^64 - 1 that is not greater than the
    ceiling; when the ceiling is a finite number, it is at most the
    ceiling.  No transfer is submitted for an amount that is no number or
    negative. *)
Theorem sol_transfer_within_ceiling (env : Env) (offer : Offer) (w : World) :
  ∃ w' evs,
    handleOffer env offer w = (Settled (Ok tt), w')
    ∧ continues w w' evs
    ∧ ∀ tx signers retries answer source target lamports,
        SendAndConfirm tx signers retries answer ∈ evs →
        SystemTransfer source target lamports ∈ instructions tx →
        ∃ a,
          lamports = Num a
          ∧ parseInt (amount offer) = Num a
          ∧ 0 <= a < 2 ^ 64
          ∧ number_gt (Num a) (maxPerTx env) = false
          ∧ ∀ ceiling, maxPerTx env = Num ceiling → a <= ceiling.
Proof.
  destruct (handleOffer_run env offer w) as (w' & evs & Hrun & Hc & Hr).
  exists w', evs. do 2 (split; [done|]).
  intros tx signers retries answer source target lamports Hin Htx.
  destruct (offer_run_submission _ _ _ _ _ _ Hr Hin eq_refl)
    as [Hadm (wallet & target' & _ & _ & _ & _ & _ & _ & Hins)].
  destruct Hins as [(Hsol & a & Ha & Hrange & Hins)
                   |(Husdc & src & dst & transfer & _ & _ & Htransfer & Hins)].
  - rewrite Hins in Htx. elem_of_run Htx; try discriminate Htx.
    injection Htx as -> -> ->.
    unfold admissible, over_ceiling in Hadm.
    rewrite (bool_decide_eq_true_2 _ Hsol), Ha in Hadm.
    apply andb_prop in Hadm as [Hadm _].
    apply andb_prop in Hadm as [Hgt _].
    apply negb_true_iff in Hgt. cbn [andb] in Hgt.
    exists a. do 3 (split; [done|]).
    split; [done|]. intros ceiling Hmax. rewrite Hmax in Hgt. cbn in Hgt.
    case_bool_decide; [done|lia].
  - unfold createTransferInstruction in Htransfer.
    destruct (BigInt (parseInt (amount offer))); [|done].
    destruct (u64_layout env a); [|done]. injection Htransfer as <-.
    destruct Hins as [Hins|Hins]; rewrite Hins in Htx; elem_of_run Htx;
      discriminate Htx.
Qed.

(** X13 on a SOL offer of 10,000,000 lamports under the default ceiling
    of 500,000,000. *)
Lemma sol_transfer_within_ceiling_witness :
  ∃ w' evs,
    handleOffer (mock_env funded) sol_offer (sample_world [relay1] true) =
      (Settled (Ok tt), w')
    ∧ continues (sample_world [relay1] true) w' evs
    ∧ ∀ tx signers retries answer source target lamports,
        SendAndConfirm tx signers retries answer ∈ evs →
        SystemTransfer source target lamports ∈ instructions tx →
        ∃ a,
          lamports = Num a
          ∧ parseInt (amount sol_offer) = Num a
          ∧ 0 <= a < 2 ^ 64
          ∧ number_gt (Num a) (maxPerTx (mock_env funded)) = false
          ∧ ∀ ceiling,
              maxPerTx (mock_env funded) = Num ceiling → a <= ceiling.
Proof.
  exact (sol_transfer_within_ceiling (mock_env funded) sol_offer
           (sample_world [relay1] true)).
Defined.

Lemma offer_run_fetch (env : Env) (offer : Offer) (w w' : World)
    (evs : list Event) (request : Request) (answer : outcome Response) :
  offer_run env offer w w' evs →
  Fetch request answer ∈ evs →
  claim_request env offer w request
  ∨ ∃ receipt,
      receipt_request env receipt w request
      ∧ r_partId receipt = partId offer
      ∧ (success receipt = true ↔ confirmed evs (txSignature receipt)).
Proof.
  intros Hr Hin.
  assert (Hconf : ∀ logs chain before after signature,
    Forall is_log logs →
    Forall (λ e, is_submission e = false) before →
    Forall (λ e, is_submission e = false) after →
    confirmed chain signature
    ↔ confirmed (logs ++ before ++ chain ++ after)%list signature).
  { intros logs chain before after signature Hl Hb Ha.
    rewrite Forall_forall in Hl, Hb, Ha. unfold confirmed. split.
    - intros (tx & signers & retries & Hc). exists tx, signers, retries.
      rewrite !elem_of_app. auto.
    - intros (tx & signers & retries & Hc). exists tx, signers, retries.
      elem_of_run Hc; try done.
      + by apply Hl in Hc.
      + by apply Hb in Hc.
      + by apply Ha in Hc. }
  destruct Hr as
    [logs Hadm Hlogs Hn
    |logs req ans Hadm Hlogs Hcl Hres Hn
    |logs req ans e' Hadm Hlogs Hcl Hres Hf Ha Hcur Hacc Hcom Hfail Ht
    |logs req ans chain Hadm Hlogs Hcl Hres Hchain Hone Hnone
       Hf Ha Hcur Hacc Hcom Hfail Ht
    |logs req ans chain r req' ans' elapsed Hadm Hlogs Hcl Hres Hchain Hone
       Hpart Hsucc Hrec Hres' Hf Ha Hcur Hacc Hcom Hfail Ht
    |logs req ans chain r req' ans' e' Hadm Hlogs Hcl Hres Hchain Hone
       Hpart Hsucc Hrec Hres' Hf Ha Hcur Hacc Hcom Hfail Ht].
  all: pose proof Hlogs as Hlogs'; rewrite Forall_forall in Hlogs'.
  all: try (pose proof Hchain as Hchain'; rewrite Forall_forall in Hchain').
  all: elem_of_run Hin; try discriminate Hin.
  all: try (by apply Hlogs' in Hin).
  all: try (by apply Hchain' in Hin).
  all: try (injection Hin as -> ->; by left).
  all: injection Hin as -> ->; right; exists r; split; [done|];
    split; [done|]; rewrite Hsucc.
  all: apply Hconf; [done|by repeat constructor..].
Qed.

(** X14.  Every request [handleOffer] sends goes to the node's own
    dispatcher URL and is signed with the secret key of the node identity
    (never with a relay wallet's) over the instant, the method, the path and
    the body it carries.  There are at most two of them: the claim of the
    offer, made in the node's name, and the receipt for the offer's part; and
    the receipt reports success exactly when the chain confirmed, in this
    run, a transaction with the signature the receipt carries. *)
Theorem handleOffer_requests_are_signed (env : Env) (offer : Offer)
    (w : World) :
  ∃ w' evs,
    handleOffer env offer w = (Settled (Ok tt), w')
    ∧ continues w w' evs
    ∧ (count is_fetch evs ≤ 2)%nat
    ∧ ∀ request answer,
        Fetch request answer ∈ evs →
        claim_request env offer w request
        ∨ ∃ receipt,
            receipt_request env receipt w request
            ∧ r_partId receipt = partId offer
            ∧ (success receipt = true
               ↔ confirmed evs (txSignature receipt)).
Proof.
  destruct (handleOffer_run env offer w) as (w' & evs & Hrun & Hc & Hr).
  exists w', evs. do 2 (split; [done|]).
  split; [|intros request answer; by eapply offer_run_fetch].
  clear Hrun Hc.
  destruct Hr as
    [logs Hadm Hlogs Hn
    |logs req ans Hadm Hlogs Hcl Hres Hn
    |logs req ans e' Hadm Hlogs Hcl Hres Hf Ha Hcur Hacc Hcom Hfail Ht
    |logs req ans chain Hadm Hlogs Hcl Hres Hchain Hone Hnone
       Hf Ha Hcur Hacc Hcom Hfail Ht
    |logs req ans chain r req' ans' elapsed Hadm Hlogs Hcl Hres Hchain Hone
       Hpart Hsucc Hrec Hres' Hf Ha Hcur Hacc Hcom Hfail Ht
    |logs req ans chain r req' ans' e' Hadm Hlogs Hcl Hres Hchain Hone
       Hpart Hsucc Hrec Hres' Hf Ha Hcur Hacc Hcom Hfail Ht].
  all: count_run; lia.
Qed.

(** X15.  An offer that is not admitted, be it for its amount, for lack
    of capacity or because it has expired by the time [validateOffer] reads
    the clock, is dropped: [handleOffer] only logs, ending with the warning
    that it skips the offer; it sends nothing to the dispatcher or the chain
    and leaves the node as it was. *)
Theorem rejected_offer_is_dropped (env : Env) (offer : Offer) (w : World) :
  over_ceiling env offer = true ∨ at_capacity offer w = true
  ∨ expired env offer (tick w) = true →
  ∃ w' logs,
    handleOffer env offer w = (Settled (Ok tt), w')
    ∧ continues w w' (logs ++ [line WARN (InvalidOfferSkipping (id offer))])
    ∧ Forall is_log logs
    ∧ node w' = node w.
Proof.
  intros Hwhy.
  assert (Hadm' : admissible env offer (tick w) = false).
  { unfold admissible.
    replace (at_capacity offer (tick w)) with (at_capacity offer w) by done.
    destruct Hwhy as [-> | [-> | ->]]; cbn; by rewrite ?andb_false_r. }
  destruct (handleOffer_run env offer w) as (w' & evs & Hrun & Hc & Hr).
  destruct Hr as
    [logs Hadm Hlogs Hn
    |logs req ans Hadm Hlogs Hcl Hres Hn
    |logs req ans e' Hadm Hlogs Hcl Hres Hf Ha Hcur Hacc Hcom Hfail Ht
    |logs req ans chain Hadm Hlogs Hcl Hres Hchain Hone Hnone
       Hf Ha Hcur Hacc Hcom Hfail Ht
    |logs req ans chain r req' ans' elapsed Hadm Hlogs Hcl Hres Hchain Hone
       Hpart Hsucc Hrec Hres' Hf Ha Hcur Hacc Hcom Hfail Ht
    |logs req ans chain r req' ans' e' Hadm Hlogs Hcl Hres Hchain Hone
       Hpart Hsucc Hrec Hres' Hf Ha Hcur Hacc Hcom Hfail Ht];
    try congruence.
  by exists w', logs.
Qed.

Lemma rejected_offer_is_dropped_witness :
  ∃ w' logs,
    handleOffer (mock_env funded) expiring_offer
      (sample_world [relay1] true) = (Settled (Ok tt), w')
    ∧ continues (sample_world [relay1] true) w'
        (logs ++ [line WARN (InvalidOfferSkipping (id expiring_offer))])
    ∧ Forall is_log logs
    ∧ node w' = node (sample_world [relay1] true).
Proof.
  apply (rejected_offer_is_dropped (mock_env funded) expiring_offer
           (sample_world [relay1] true)).
  right. right. reflexivity.
Defined.

(** ** Offers handled in turn *)

Lemma same_frame_trans (n1 n2 n3 : ShhNode) :
  same_frame n1 n2 → same_frame n2 n3 → same_frame n1 n3.
Proof.
  unfold same_frame. intros H12 H23.
  repeat split; etrans; first [apply H23 | apply H12].
Qed.

(** X16.  However many offers are handled one after the other, the node
    stays consistent with what the dispatcher answered: [offersAccepted]
    and [offersCompleted] have grown by the numbers of granted claims and
    acknowledged receipts in the trace, and [offersFailed] by the number of
    failed requests together with that of the granted claims for which no
    receipt was submitted; the rotation cursor has advanced by the number of
    granted claims, modulo the size of the pool; no offer has been left
    behind in the active-offer map; and the pool, the running flag and
    [offersReceived] are as before. *)
Theorem handled_in_turn (env : Env) (offers : list Offer) (w : World) :
  ∃ w' evs,
    handle_each env offers w = (Settled (Ok tt), w')
    ∧ continues w w' evs
    ∧ accepted w' = (accepted w + count grants evs)%nat
    ∧ completed w' = (completed w + count acknowledges evs)%nat
    ∧ (failed w' + count submits evs =
         failed w + count refuses evs + count grants evs)%nat
    ∧ (count submits evs ≤ count grants evs)%nat
    ∧ (count grants evs ≤ List.length offers)%nat
    ∧ cursor w' = rotated w (count grants evs)
    ∧ pool w' = pool w
    ∧ activeOffers (node w') ⊆ activeOffers (node w)
    ∧ isRunning (node w') = isRunning (node w)
    ∧ c_offersReceived (metrics (node w')) =
        c_offersReceived (metrics (node w)).
Proof.
  assert (Hgen : ∃ w' evs,
    handle_each env offers w = (Settled (Ok tt), w')
    ∧ continues w w' evs
    ∧ accepted w' = (accepted w + count grants evs)%nat
    ∧ completed w' = (completed w + count acknowledges evs)%nat
    ∧ (failed w' + count submits evs =
         failed w + count refuses evs + count grants evs)%nat
    ∧ (count submits evs ≤ count grants evs)%nat
    ∧ (count grants evs ≤ List.length offers)%nat
    ∧ cursor w' = rotated w (count grants evs)
    ∧ activeOffers (node w') ⊆ activeOffers (node w)
    ∧ same_frame (node w) (node w')).
  { revert w. induction offers as [|offer rest IH]; intros w.
    - exists w, []. cbn. split; [done|]. split; [apply continues_refl|].
      unfold count. cbn. rewrite !Nat.add_0_r. by repeat split.
    - cbn [handle_each]. unfold mbind, Js_bind, js_bind.
      destruct (handleOffer_step env offer w)
        as (w1 & evs1 & -> & Hc1 & Ha1 & Hco1 & Hf1 & Hg1 & Hs1 & _ & Hfr1
            & Hcur1 & Hact1 & _).
      destruct (IH w1)
        as (w' & evs & Hrun & Hc & Ha & Hco & Hf & Hs & Hg & Hcur & Hact
            & Hfr).
      exists w', (evs1 ++ evs)%list. split; [done|].
      split; [by eapply continues_trans|].
      rewrite !count_app, Ha, Hco, Ha1, Hco1. cbn [List.length].
      do 4 (split; [lia|]). split; [lia|].
      split; [|split; [by etrans|by eapply same_frame_trans]].
      assert (Hpool : pool w1 = pool w) by (unfold pool; apply Hfr1).
      rewrite Hcur. clear -Hcur1 Hg1 Hpool.
      assert (Hstep : ∀ k, rotated w1 k = rotated w (count grants evs1 + k)).
      { induction k as [|k IHk].
        - rewrite Nat.add_0_r. unfold rotated at 1. rewrite Hcur1.
          case_bool_decide as Hz; [by rewrite Hz|].
          assert (count grants evs1 = 1%nat) as -> by lia.
          unfold rotated, next_cursor. by destruct (pool w).
        - rewrite Nat.add_succ_r.
          unfold rotated at 1. rewrite Hpool.
          destruct (pool w) as [|wallet pool'] eqn:Hp.
          + rewrite Hcur1. unfold rotated, next_cursor. rewrite Hp.
            by repeat case_match.
          + rewrite Hcur1.
            case_bool_decide as Hz.
            * rewrite Hz. cbn [Nat.add]. unfold rotated. by rewrite Hp.
            * assert (count grants evs1 = 1%nat) as -> by lia.
              unfold rotated, next_cursor. rewrite Hp. cbn [Nat.add].
              rewrite Nat.Div0.add_mod_idemp_l. f_equal. lia. }
      apply Hstep. }
  destruct Hgen
    as (w' & evs & ? & ? & ? & ? & ? & ? & ? & ? & ? & Hfr).
  exists w', evs. repeat split; try done; apply Hfr.
Qed.

(** Three offers in turn, the second of a negative amount: three claims
    granted, two receipts acknowledged, one execution that threw. *)
Lemma handled_in_turn_example :
  ∃ w',
    handle_each (mock_env funded) [sol_offer; negative_offer; usdc_offer]
      (sample_world [relay1; relay2] true) = (Settled (Ok tt), w')
    ∧ accepted w' = 3%nat ∧ completed w' = 2%nat ∧ failed w' = 1%nat
    ∧ count submits (trace w') = 2%nat
    ∧ cursor w' = 1%nat
    ∧ activeOffers (node w') = ∅.
Proof. eexists. split; [vm_compute; reflexivity|]. by repeat split. Qed.

(** ** Shutdown, in full *)

Lemma waitForActiveOffers_loop_run (env : Env) (polls : nat) :
  ∀ (start timeoutMs : Z) (w : World),
  ∃ r w',
    waitForActiveOffers_loop env polls start timeoutMs w = (r, w')
    ∧ (r = Settled (Ok tt) ∨ r = Pending)
    ∧ node w' = node w
    ∧ trace w' = trace w.
Proof.
  induction polls as [|polls IH]; intros start timeoutMs w; cbn;
    js_unfold; cbn; repeat case_match; simplify_eq; cbn; eauto 10.
  match goal with |- context [waitForActiveOffers_loop _ _ _ _ ?w0] =>
    destruct (IH start timeoutMs w0) as (r & w' & Hrun & Hr & Hn & Ht)
  end.
  by exists r, w'.
Qed.

(** All [stop] does. *)
Lemma stop_run (env : Env) (polls : nat) (w : World) :
  ∃ r w' logs,
    stop env polls w = (r, w')
    ∧ (r = Settled (Ok tt) ∨ r = Pending)
    ∧ continues w w' logs
    ∧ Forall is_log logs
    ∧ activeOffers (node w') = activeOffers (node w)
    ∧ metrics (node w') = metrics (node w)
    ∧ walletManager (node w') = walletManager (node w)
    ∧ config (node w') = config (node w)
    ∧ baseUrl (node w') = baseUrl (node w)
    ∧ healthServerStarted (node w') = healthServerStarted (node w)
    ∧ isRunning (node w') = false
    ∧ heartbeatInterval (node w') =
        (if isRunning (node w) then clear <$> heartbeatInterval (node w)
         else heartbeatInterval (node w))
    ∧ (isRunning (node w) = false → r = Settled (Ok tt) ∧ w' = w)
    ∧ (size (activeOffers (node w)) = 0%nat → r = Settled (Ok tt)).
Proof.
  unfold stop, waitForActiveOffers, disconnect, healthServer_stop,
    set_isRunning, set_heartbeatInterval, logger_info, logger_warn, continues.
  js_unfold. cbn -[waitForActiveOffers_loop].
  destruct (isRunning (node w)) eqn:Hrun; cbn -[waitForActiveOffers_loop].
  2:{ exists (Settled (Ok tt)), w, []. rewrite app_nil_r.
      repeat split; try done. by left. }
  repeat (case_match; simplify_eq; cbn -[waitForActiveOffers_loop] in * ).
  all: try match goal with
       | H : waitForActiveOffers_loop ?e ?p ?s ?t ?w0 = (_, ?w1) |- _ =>
           destruct (waitForActiveOffers_loop_run e p s t w0)
             as (r' & w'' & Hloop & Hr & Hn & Ht);
           rewrite H in Hloop; injection Hloop as <- <-;
           cbn in Hn, Ht
       end.
  all: try (destruct Hr as [?|?]; simplify_eq).
  all: repeat match goal with
       | H : bool_decide _ = true |- _ => apply bool_decide_eq_true_1 in H
       end.
  all: eexists _, _, _; (split; [done|]); cbn; rewrite ?Ht, ?Hn; cbn;
    rewrite <- ?app_assoc; cbn.
  all: split; [first [by left | by right]|].
  all: split; [first [done | symmetry; apply app_nil_r]|].
  all: split; [forall_list|].
  all: repeat split; try done; try lia.
Qed.

(** X17.  [stop] never throws and cancels nothing: it only logs (no
    request goes to the dispatcher, no call to the chain), clears the
    heartbeat timer and sets [isRunning] to false; the offers that are still
    active stay in the active-offer map, and the counters, the wallets and
    the rest of the node are left as they were.  On a node that is not
    running it does nothing at all. *)
Theorem stop_cancels_nothing (env : Env) (polls : nat) (w : World) :
  ∃ r w' logs,
    stop env polls w = (r, w')
    ∧ (r = Settled (Ok tt) ∨ r = Pending)
    ∧ continues w w' logs
    ∧ Forall is_log logs
    ∧ activeOffers (node w') = activeOffers (node w)
    ∧ metrics (node w') = metrics (node w)
    ∧ walletManager (node w') = walletManager (node w)
    ∧ isRunning (node w') = false
    ∧ heartbeatInterval (node w') =
        (if isRunning (node w) then clear <$> heartbeatInterval (node w)
         else heartbeatInterval (node w))
    ∧ (isRunning (node w) = false → r = Settled (Ok tt) ∧ w' = w).
Proof.
  destruct (stop_run env polls w)
    as (r & w' & logs & ? & ? & ? & ? & ? & ? & ? & _ & _ & _ & ? & ? & ? & _).
  by exists r, w', logs.
Qed.

(** X18.  [stop] is idempotent: however a first call ended, a second call
    returns at once and changes nothing. *)
Theorem stop_twice (env : Env) (polls polls' : nat) (w : World) :
  stop env polls' (stop env polls w).2 =
    (Settled (Ok tt), (stop env polls w).2).
Proof.
  pose proof (stop_clears_isRunning env polls w) as Hoff.
  unfold stop at 1. js_unfold. cbn. by rewrite Hoff.
Qed.

Lemma waitForActiveOffers_loop_gives_up (env : Env) (k : nat) :
  ∀ (polls : nat) (start timeoutMs : Z) (w : World),
    (0 < size (activeOffers (node w)))%nat →
    (∀ j, (j < k)%nat →
          Date_now env (interactions w + 2 * j) - start < timeoutMs) →
    Date_now env (interactions w + 2 * k) - start >= timeoutMs →
    (k ≤ polls)%nat →
    waitForActiveOffers_loop env polls start timeoutMs w =
      (Settled (Ok tt),
       {| node := node w; interactions := interactions w + 1 + 2 * k;
          trace := trace w |}).
Proof.
  induction k as [|k IH]; intros polls start timeoutMs w Hsize Hbelow Hover Hk.
  - rewrite Nat.mul_0_r, Nat.add_0_r in *.
    destruct polls; cbn; js_unfold; cbn.
    all: rewrite bool_decide_eq_true_2 by done.
    all: rewrite bool_decide_eq_false_2 by lia.
    all: by rewrite Nat.add_1_r.
  - destruct polls as [|polls]; [lia|].
    cbn. js_unfold. cbn.
    rewrite bool_decide_eq_true_2 by done.
    pose proof (Hbelow 0%nat ltac:(lia)) as H0.
    rewrite Nat.mul_0_r, Nat.add_0_r in H0.
    rewrite bool_decide_eq_true_2 by done.
    rewrite IH; cbn [node interactions trace];
      [f_equal; f_equal; lia|done| | |lia].
    + intros j Hj. specialize (Hbelow (S j) ltac:(lia)).
      by replace (S (S (interactions w)) + 2 * j)%nat
        with (interactions w + 2 * S j)%nat by lia.
    + by replace (S (S (interactions w)) + 2 * k)%nat
        with (interactions w + 2 * S k)%nat by lia.
Qed.

Lemma waitForActiveOffers_loop_pending (env : Env) (polls : nat) :
  ∀ (start timeoutMs : Z) (w : World),
    (0 < size (activeOffers (node w)))%nat →
    (∀ j, (j ≤ polls)%nat →
          Date_now env (interactions w + 2 * j) - start < timeoutMs) →
    (waitForActiveOffers_loop env polls start timeoutMs w).1 = Pending.
Proof.
  induction polls as [|polls IH]; intros start timeoutMs w Hsize Hbelow.
  - pose proof (Hbelow 0%nat ltac:(lia)) as H0.
    rewrite Nat.mul_0_r, Nat.add_0_r in H0.
    cbn. js_unfold. cbn.
    rewrite bool_decide_eq_true_2 by done.
    by rewrite bool_decide_eq_true_2 by done.
  - pose proof (Hbelow 0%nat ltac:(lia)) as H0.
    rewrite Nat.mul_0_r, Nat.add_0_r in H0.
    cbn. js_unfold. cbn.
    rewrite bool_decide_eq_true_2 by done.
    rewrite bool_decide_eq_true_2 by done.
    apply IH; cbn [node interactions trace]; [done|].
    intros j Hj. specialize (Hbelow (S j) ltac:(lia)).
    by replace (S (S (interactions w)) + 2 * j)%nat
      with (interactions w + 2 * S j)%nat by lia.
Qed.

(** X19.  The drain of [stop] is bounded by the clock.  On a running node
    with active offers, [stop] reads the clock once and then before every
    one-second wait; at the first reading that lies 30 000 ms or more after
    the first it stops waiting, logs the warning that offers are still
    active, and finishes the shutdown with those offers still in the map.
    As long as every reading lies less than 30 000 ms after the first, it
    keeps waiting. *)
Theorem stop_gives_up_after_timeout (env : Env) (polls : nat) (w : World) :
  isRunning (node w) = true →
  (0 < size (activeOffers (node w)))%nat →
  (∀ k,
     (∀ j, (j < k)%nat →
           Date_now env (interactions w + 1 + 2 * j)
           - Date_now env (interactions w) < 30000) →
     Date_now env (interactions w + 1 + 2 * k)
     - Date_now env (interactions w) >= 30000 →
     (k ≤ polls)%nat →
     ∃ w',
       stop env polls w = (Settled (Ok tt), w')
       ∧ interactions w' = (interactions w + 2 + 2 * k)%nat
       ∧ line WARN (OffersStillActive (size (activeOffers (node w))))
           ∈ trace w'
       ∧ activeOffers (node w') = activeOffers (node w))
  ∧ ((∀ j, (j ≤ polls)%nat →
           Date_now env (interactions w + 1 + 2 * j)
           - Date_now env (interactions w) < 30000) →
     (stop env polls w).1 = Pending).
Proof.
  intros Hrun Hsize.
  unfold stop, waitForActiveOffers, disconnect, healthServer_stop,
    set_isRunning, set_heartbeatInterval, logger_info, logger_warn.
  js_unfold. cbn -[waitForActiveOffers_loop]. rewrite Hrun.
  cbn -[waitForActiveOffers_loop].
  split.
  - intros k Hbelow Hover Hk.
    destruct (heartbeatInterval (node w)) as [timer|];
      cbn -[waitForActiveOffers_loop];
      rewrite bool_decide_eq_true_2 by done;
      cbn -[waitForActiveOffers_loop].
    all: match goal with
         | |- context [waitForActiveOffers_loop ?e ?p ?s ?t ?w0] =>
             rewrite (waitForActiveOffers_loop_gives_up e k p s t w0);
               cbn [node interactions trace]; [|done| | |done]
         end.
    all: try (intros j Hj; specialize (Hbelow j Hj);
              by replace (S (interactions w) + 2 * j)%nat
                with (interactions w + 1 + 2 * j)%nat by lia).
    all: try (by replace (S (interactions w) + 2 * k)%nat
                with (interactions w + 1 + 2 * k)%nat by lia).
    all: rewrite bool_decide_eq_true_2 by done; cbn.
    all: destruct (healthServerStarted (node w)); cbn.
    all: eexists; split; [done|]; cbn.
    all: split; [lia|]; split; [|done].
    all: rewrite !elem_of_app, !elem_of_cons; unfold line; auto 10.
  - intros Hbelow.
    destruct (heartbeatInterval (node w)) as [timer|];
      cbn -[waitForActiveOffers_loop];
      rewrite bool_decide_eq_true_2 by done;
      cbn -[waitForActiveOffers_loop].
    all: match goal with
         | |- context [waitForActiveOffers_loop ?e ?p ?s ?t ?w0] =>
             pose proof (waitForActiveOffers_loop_pending e p s t w0) as Hp;
             destruct (waitForActiveOffers_loop e p s t w0) as [r w1]
         end.
    all: cbn [fst node interactions trace] in Hp.
    all: assert (r = Pending) as ->; [|done].
    all: apply Hp; [done|].
    all: intros j Hj; specialize (Hbelow j Hj);
         by replace (S (interactions w) + 2 * j)%nat
           with (interactions w + 1 + 2 * j)%nat by lia.
Qed.

Lemma stop_gives_up_after_timeout_witness :
  ∃ w',
    stop (clock_env 10000) 5 busy_world = (Settled (Ok tt), w')
    ∧ interactions w' = 4%nat
    ∧ line WARN (OffersStillActive 1) ∈ trace w'
    ∧ activeOffers (node w') = {[ "offer-1" := sol_offer ]}.
Proof.
  apply (proj1 (stop_gives_up_after_timeout (clock_env 10000) 5 busy_world
                  eq_refl ltac:(vm_compute; lia)) 1%nat).
  - intros j Hj. assert (j = 0%nat) as -> by lia. vm_compute. reflexivity.
  - vm_compute. discriminate.
  - lia.
Defined.

(** ** The heartbeat, in full *)

Lemma sendHeartbeat_run (env : Env) (heartbeat : HeartbeatData) (w : World) :
  ∃ request answer w',
    sendHeartbeat env heartbeat w = (Settled (heartbeat_result answer), w')
    ∧ continues w w' (Fetch request answer :: heartbeat_warning answer)
    ∧ node w' = node w
    ∧ authenticated env (node w) "POST" "/api/node/heartbeat"
        (HeartbeatBody heartbeat) request
    ∧ (∀ e, answer = Throw e → json_writable e = true).
Proof.
  unfold sendHeartbeat. unfold mbind at 1, Js_bind, js_bind.
  destruct (post_run env "/api/node/heartbeat" (HeartbeatBody heartbeat) w
              eq_refl)
    as (request & answer & w1 & -> & Hc & Hn & Ha & Hw).
  unfold continues in *.
  destruct answer as [response|e]; cbn.
  - unfold logger_warn. js_unfold.
    destruct (response_ok response) eqn:Hok; cbn.
    + exists request, (Ok response), w1. cbn. by rewrite Hok.
    + eexists request, (Ok response), _. split; [done|]. cbn.
      rewrite Hok, Hc, <- app_assoc. done.
  - by exists request, (Throw e), w1.
Qed.

(** The heartbeat tick, in full. *)
Lemma heartbeat_tick_run (env : Env) (w : World) :
  ∃ hs w1 w' chain request answer,
    getHealthStatus env w = (Settled (Ok hs), w1)
    ∧ heartbeat_tick env w = (Settled (Ok tt), w')
    ∧ continues w w1 chain
    ∧ continues w w'
        (chain ++ Fetch request answer :: heartbeat_lines env answer)
    ∧ Forall chain_or_log chain
    ∧ authenticated env (node w) "POST" "/api/node/heartbeat"
        (HeartbeatBody
           {| hb_timestamp := Date_now env (interactions w1);
              hb_status := status hs;
              hb_balances := wallets hs;
              hb_activeOffers := size (activeOffers (node w));
              hb_version := version (config (node w)) |})
        request
    ∧ node w' = heartbeat_counted (answered answer) (node w).
Proof.
  destruct (getHealthStatus_spec env w)
    as (balances & w0 & hs & w1 & evs & _ & Hhs & Hc1 & Hl1 & Hn1 & _).
  exists hs, w1.
  unfold heartbeat_tick, try_catch.
  unfold mbind at 1, Js_bind, js_bind. rewrite Hhs.
  unfold mbind at 1, Js_bind, js_bind, interact at 1.
  unfold mbind at 1, Js_bind, js_bind, get_node at 1.
  unfold mbind at 1, Js_bind, js_bind.
  match goal with |- context [sendHeartbeat env ?hb ?w2] =>
    destruct (sendHeartbeat_run env hb w2)
      as (request & answer & w3 & -> & Hc3 & Hn3 & Ha3 & Hw3)
  end.
  unfold continues, heartbeat_lines in *.
  cbn in Hc3, Hn3, Ha3. rewrite Hn1 in Ha3.
  destruct answer as [response|e]; cbn [heartbeat_result answered].
  - unfold recordHeartbeat, set_metrics, logger_debug. js_unfold. cbn.
    case_bool_decide; cbn;
      eexists _, evs, request, (Ok response); (split; [done|]);
      (split; [done|]); (split; [done|]); cbn;
      rewrite Hc3, Hc1, Hn3, Hn1, <- ?app_assoc; cbn;
      rewrite ?app_nil_r; (split; [reflexivity|]); (split; [done|]);
      (split; [exact Ha3|done]).
  - unfold recordHeartbeatError, set_metrics, logger_warn. js_unfold.
    rewrite formatMessage_ok by (cbn; by rewrite (Hw3 e eq_refl)). cbn.
    eexists _, evs, request, (Throw e). split; [done|].
    split; [done|]. split; [done|]. cbn.
    rewrite Hc3, Hc1, Hn3, Hn1, <- !app_assoc. cbn.
    split; [done|]. split; [done|]. split; [exact Ha3|done].
Qed.

(** X20.  A heartbeat tells the dispatcher what the health probe would
    tell: every tick sends exactly one request, a signed POST of the
    heartbeat path whose body holds the status and the wallet balances that
    [getHealthStatus] has just computed, the instant, the number of active
    offers and the version of the configuration.  Before the request there
    are only the chain calls and log lines of [getHealthStatus]; after it,
    the lines the tick logs for the answer.  The tick counts the heartbeat,
    as sent if the dispatcher answered and as an error if [fetch] threw,
    and changes nothing else of the node. *)
Theorem heartbeat_reports_health (env : Env) (w : World) :
  ∃ hs w1 w' chain request answer,
    getHealthStatus env w = (Settled (Ok hs), w1)
    ∧ heartbeat_tick env w = (Settled (Ok tt), w')
    ∧ continues w w1 chain
    ∧ continues w w'
        (chain ++ Fetch request answer :: heartbeat_lines env answer)
    ∧ Forall chain_or_log chain
    ∧ authenticated env (node w) "POST" "/api/node/heartbeat"
        (HeartbeatBody
           {| hb_timestamp := Date_now env (interactions w1);
              hb_status := status hs;
              hb_balances := wallets hs;
              hb_activeOffers := size (activeOffers (node w));
              hb_version := version (config (node w)) |})
        request
    ∧ node w' = heartbeat_counted (answered answer) (node w).
Proof. apply heartbeat_tick_run. Qed.

(** ** Start-up *)

Ltac host_unfold :=
  unfold mbind, mret, Hosted_bind, Hosted_ret, host_bind, host_ret,
    host_throw, host_try_catch, lift, say_error, say in *.

Lemma get_run (env : Env) (path : string) (w : World) :
  ∃ request answer w',
    get env path w = (Settled answer, w')
    ∧ continues w w' [Fetch request answer]
    ∧ node w' = node w
    ∧ authenticated env (node w) "GET" path NoBody request.
Proof.
  unfold get, getAuthHeaders, authenticated. js_unfold. cbn.
  eexists _, _, _. split; [done|]. unfold continues. cbn.
  do 6 (split; [done|]). by eexists.
Qed.

Lemma connect_run (env : Env) (h : Host) :
  ∃ request answer h',
    connect env h = (Settled (ping_result answer), h')
    ∧ continues (process h) (process h') [Fetch request answer]
    ∧ node (process h') = node (process h)
    ∧ authenticated env (node (process h)) "GET" "/api/node/ping" NoBody
        request
    ∧ console h' = (console h ++ ping_line (node (process h)) answer)%list.
Proof.
  unfold connect, ping_line, ping_result.
  unfold host_try_catch, mbind at 1, Hosted_bind, host_bind, lift at 1.
  destruct (get_run env "/api/node/ping" (process h))
    as (request & answer & w' & -> & Hc & Hn & Ha).
  exists request, answer.
  destruct answer as [response|e]; cbn.
  - destruct (response_ok response); cbn; host_unfold; js_unfold; cbn.
    + eexists. split; [done|]. cbn. by rewrite Hn.
    + eexists. split; [done|]. cbn. by rewrite app_nil_r.
  - host_unfold. eexists. split; [done|]. cbn. by rewrite app_nil_r.
Qed.

(** X21.  [connect] sends exactly one request, a signed GET of the ping
    path with an empty body, and changes nothing of the node.  It returns
    normally exactly when the dispatcher answers with a success status, and
    then logs that it is connected; a failing [fetch] and any other status
    are both thrown as a failure to connect to the dispatcher. *)
Theorem connect_pings_once (env : Env) (h : Host) :
  ∃ request answer h',
    connect env h = (Settled (ping_result answer), h')
    ∧ continues (process h) (process h') [Fetch request answer]
    ∧ node (process h') = node (process h)
    ∧ authenticated env (node (process h)) "GET" "/api/node/ping" NoBody
        request
    ∧ console h' = (console h ++ ping_line (node (process h)) answer)%list
    ∧ (ping_result answer = Ok tt
       ↔ ∃ response,
           answer = Ok response ∧ 200 <= http_status response <= 299).
Proof.
  destruct (connect_run env h)
    as (request & answer & h' & Hrun & Hc & Hn & Ha & Hl).
  exists request, answer, h'. do 5 (split; [done|]).
  unfold ping_result, response_ok. destruct answer as [response|e].
  - case_bool_decide; split; try done.
    + intros _. by exists response.
    + by intros (? & [= <-] & ?).
  - split; [done|]. by intros (? & ? & _).
Qed.

Lemma validateBalances_run (env : Env) (w : World) :
  ∃ r w' evs,
    validateBalances env w = (Settled r, w')
    ∧ continues w w' evs
    ∧ Forall chain_or_log evs
    ∧ node w' = node w
    ∧ (r = Ok tt ∨ r = Throw all_low).
Proof.
  unfold validateBalances. unfold mbind at 1, Js_bind, js_bind.
  destruct (getBalances_spec env w)
    as (balances & w1 & evs & -> & Hc & Hl & Hn & _).
  unfold logger_warn, logger_info, continues in *. js_unfold. cbn.
  repeat case_match; simplify_eq; cbn; eexists _, _, _; (split; [done|]);
    cbn; rewrite Hc, <- ?app_assoc; (split; [done|]);
    (split; [first [done | apply Forall_app; split; [done|forall_list]]|]);
    (split; [done|]); auto.
Qed.

(** All [start] does. *)
Lemma start_run (env : Env) (net : Net) (h : Host) :
  ∃ r h' evs,
    start env net h = (Settled r, h')
    ∧ continues (process h) (process h') evs
    ∧ walletManager (node (process h')) = walletManager (node (process h))
    ∧ metrics (node (process h')) = metrics (node (process h))
    ∧ activeOffers (node (process h')) = activeOffers (node (process h))
    ∧ config (node (process h')) = config (node (process h))
    ∧ baseUrl (node (process h')) = baseUrl (node (process h))
    ∧ match r with
      | Ok _ =>
          isRunning (node (process h)) = false
          ∧ isRunning (node (process h')) = true
          ∧ heartbeatInterval (node (process h')) = Some (heartbeat_timer env)
          ∧ healthServerStarted (node (process h')) = true
          ∧ count is_fetch evs = 1%nat
      | Throw e =>
          isRunning (node (process h')) = isRunning (node (process h))
          ∧ heartbeatInterval (node (process h')) =
              heartbeatInterval (node (process h))
          ∧ start_error env net e
      end
    ∧ (isRunning (node (process h)) = true →
       r = Throw (JsError "Node is already running") ∧ h' = h).
Proof.
  unfold start. unfold mbind at 1, Hosted_bind, host_bind, lift at 1.
  unfold get_node at 1.
  destruct (isRunning (node (process h))) eqn:Hrunning.
  { eexists _, _, []. unfold host_throw. split; [done|].
    unfold continues. rewrite app_nil_r. destruct h as [w c]. cbn in *.
    repeat split; try done. by left. }
  unfold validateConnection, healthServer_start, subscribeToOffers,
    startHeartbeat, set_heartbeatInterval, set_isRunning,
    set_healthServerStarted.
  host_unfold. js_unfold. cbn -[validateBalances connect].
  destruct (getSlot net (interactions (process h))) as [slot|cause] eqn:Hslot;
    cbn -[validateBalances connect].
  2:{ eexists _, _, []. split; [done|]. unfold continues. cbn.
      rewrite app_nil_r. repeat split; try done.
      right. left. by eexists _, _. }
  match goal with |- context [validateBalances env ?w0] =>
    destruct (validateBalances_run env w0)
      as (r1 & w1 & evs1 & -> & Hc1 & Hl1 & Hn1 & Hr1)
  end.
  unfold continues in *. cbn in Hc1, Hn1.
  destruct Hr1 as [-> | ->]; cbn -[validateBalances connect].
  2:{ eexists _, _, _. split; [done|]. cbn. split; [done|].
      rewrite Hn1. repeat split; try done. right. right. by left. }
  match goal with |- context [connect env ?h0] =>
    destruct (connect_run env h0)
      as (request & answer & h2 & -> & Hc2 & Hn2 & Ha2 & Hl2)
  end.
  unfold continues in *. cbn in Hc2, Hn2.
  destruct (ping_result answer) as [[]|e] eqn:Hping;
    cbn -[validateBalances connect].
  2:{ eexists _, _, _. split; [done|]. rewrite Hc2, Hc1, <- app_assoc.
      split; [done|]. rewrite Hn2, Hn1. repeat split; try done.
      do 3 right. left. by exists answer. }
  destruct (server_listen net (interactions (process h2)) (port env))
    as [[]|e] eqn:Hlisten; cbn;
    rewrite ?(listen_error net _ _ _ Hlisten); cbn.
  - eexists _, _, _. split; [done|]. cbn.
    rewrite Hc2, Hc1, <- app_assoc. split; [done|].
    rewrite Hn2, Hn1. repeat split; try done.
    rewrite count_app, (count_no_fetch is_fetch evs1); [done|done|].
    eapply Forall_impl; [exact Hl1|]. by intros [].
  - eexists _, _, _. split; [done|]. cbn.
    rewrite Hc2, Hc1, <- app_assoc. split; [done|].
    rewrite Hn2, Hn1. repeat split; try done.
    do 4 right. by eexists.
Qed.

(** X22.  What [start] leaves behind.  When it returns, the node was not
    running before, is running now, and has a fresh heartbeat timer and its
    health server.  When it throws (because the node is already running, the
    RPC node gives no slot, every wallet is under-funded, the dispatcher does
    not answer the ping with success, or the health port cannot be bound) the
    node is not running, or running as before, and its heartbeat timer is
    untouched.  In both cases the wallets, the counters and the active-offer
    map are as before; on a running node nothing at all happens. *)
Theorem start_outcomes (env : Env) (net : Net) (h : Host) :
  ∃ r h',
    start env net h = (Settled r, h')
    ∧ match r with
      | Ok _ =>
          isRunning (node (process h)) = false
          ∧ isRunning (node (process h')) = true
          ∧ heartbeatInterval (node (process h')) = Some (heartbeat_timer env)
          ∧ healthServerStarted (node (process h')) = true
      | Throw e =>
          isRunning (node (process h')) = isRunning (node (process h))
          ∧ heartbeatInterval (node (process h')) =
              heartbeatInterval (node (process h))
          ∧ start_error env net e
      end
    ∧ walletManager (node (process h')) = walletManager (node (process h))
    ∧ metrics (node (process h')) = metrics (node (process h))
    ∧ activeOffers (node (process h')) = activeOffers (node (process h))
    ∧ (isRunning (node (process h)) = true →
       r = Throw (JsError "Node is already running") ∧ h' = h).
Proof.
  destruct (start_run env net h)
    as (r & h' & evs & Hrun & _ & Hwm & Hm & Ha & _ & _ & Hr & Hrunning).
  exists r, h'. split; [done|]. split; [|done].
  destruct r as [[]|e]; [|done]. by destruct Hr as (? & ? & ? & ? & _).
Qed.

(** A period of the timer on a node whose timer is armed: one heartbeat
    tick, which sends one request and leaves the timer armed. *)
Lemma heartbeat_fires_run (env : Env) (w : World) (timer : Timer) :
  heartbeatInterval (node w) = Some timer → cleared timer = false →
  ∃ w' evs,
    heartbeat_fires env w = (Settled (Ok tt), w')
    ∧ continues w w' evs
    ∧ count is_fetch evs = 1%nat
    ∧ (∃ sent, node w' = heartbeat_counted sent (node w)).
Proof.
  intros Htimer Harmed. unfold heartbeat_fires.
  unfold mbind, Js_bind, js_bind, get_node. rewrite Htimer, Harmed.
  destruct (heartbeat_tick_run env w)
    as (hs & w1 & w' & chain & request & answer & _ & Hrun & _ & Hc & Hchain
        & _ & Hn).
  exists w', (chain ++ Fetch request answer :: heartbeat_lines env answer)%list.
  do 2 (split; [done|]). split; [|by eexists].
  rewrite count_app, (count_no_fetch is_fetch chain); [|done|].
  2:{ eapply Forall_impl; [exact Hchain|]. by intros []. }
  unfold count. cbn. f_equal.
  change (List.length (List.filter is_fetch (heartbeat_lines env answer)))
    with (count is_fetch (heartbeat_lines env answer)).
  apply count_no_fetch; [done|].
  unfold heartbeat_lines, heartbeat_warning.
  repeat case_match; repeat constructor.
Qed.

(** A period of the timer once [clearInterval] has been called: nothing
    happens. *)
Lemma heartbeat_fires_cleared (env : Env) (w : World) (timer : Timer) :
  heartbeatInterval (node w) = Some timer → cleared timer = true →
  heartbeat_fires env w = (Settled (Ok tt), w).
Proof.
  intros Htimer Hcleared. unfold heartbeat_fires.
  unfold mbind, Js_bind, js_bind, get_node. by rewrite Htimer, Hcleared.
Qed.

Lemma beats_cleared (env : Env) (k : nat) (w : World) (timer : Timer) :
  heartbeatInterval (node w) = Some timer → cleared timer = true →
  beats env k w = (Settled (Ok tt), w).
Proof.
  intros Htimer Hcleared. induction k as [|k IH]; [done|].
  cbn [beats]. unfold mbind, Js_bind, js_bind.
  by rewrite (heartbeat_fires_cleared env w timer).
Qed.

Lemma beats_run (env : Env) (k : nat) (timer : Timer) :
  cleared timer = false →
  ∀ w,
    heartbeatInterval (node w) = Some timer →
    ∃ w' evs,
      beats env k w = (Settled (Ok tt), w')
      ∧ continues w w' evs
      ∧ count is_fetch evs = k
      ∧ (heartbeats w' + heartbeatErrors w' =
           heartbeats w + heartbeatErrors w + k)%nat
      ∧ heartbeatInterval (node w') = Some timer
      ∧ isRunning (node w') = isRunning (node w)
      ∧ activeOffers (node w') = activeOffers (node w)
      ∧ healthServerStarted (node w') = healthServerStarted (node w).
Proof.
  intros Harmed. induction k as [|k IH]; intros w Htimer.
  - exists w, []. split; [done|]. split; [apply continues_refl|].
    repeat split; try done; lia.
  - cbn [beats]. unfold mbind, Js_bind, js_bind.
    destruct (heartbeat_fires_run env w timer Htimer Harmed)
      as (w1 & evs1 & -> & Hc1 & Hone & sent & Hn1).
    destruct (IH w1) as (w' & evs & -> & Hc & Hk & Hsum & Ht & Hr & Ha & Hs).
    { by rewrite Hn1. }
    exists w', (evs1 ++ evs)%list. split; [done|].
    split; [by eapply continues_trans|].
    rewrite count_app, Hone, Hk. split; [done|].
    unfold heartbeats, heartbeatErrors in *.
    rewrite Ht, Hr, Ha, Hs, Hn1. repeat split; try done.
    rewrite Hsum, Hn1. destruct sent; cbn; lia.
Qed.

(** X23.  A started node can be stopped again.  After [start] has
    returned, the heartbeat timer fires period after period, and each
    period sends one heartbeat and counts it, as sent or as failed; [stop]
    then never throws, sets [isRunning] back to false and clears the timer
    that [start] set, after which the timer no longer fires; with no offer
    active [stop] returns without waiting.  When [k] periods have elapsed
    between the start and the stop, and no offer was handled, [k + 1]
    requests went to the dispatcher: the ping and the heartbeats. *)
Theorem start_then_stop (env : Env) (net : Net) (polls k : nat)
    (h h' : Host) :
  start env net h = (Settled (Ok tt), h') →
  ∃ w1 r w' evs,
    beats env k (process h') = (Settled (Ok tt), w1)
    ∧ stop env polls w1 = (r, w')
    ∧ (r = Settled (Ok tt) ∨ r = Pending)
    ∧ continues (process h) w' evs
    ∧ count is_fetch evs = S k
    ∧ (heartbeats w' + heartbeatErrors w' =
         heartbeats (process h) + heartbeatErrors (process h) + k)%nat
    ∧ isRunning (node w') = false
    ∧ heartbeatInterval (node w') = Some (clear (heartbeat_timer env))
    ∧ activeOffers (node w') = activeOffers (node (process h))
    ∧ (activeOffers (node (process h)) = ∅ → r = Settled (Ok tt))
    ∧ ∀ j, beats env j w' = (Settled (Ok tt), w').
Proof.
  intros Hstart.
  destruct (start_run env net h)
    as (r0 & h0 & evs0 & Hrun & Hc0 & _ & Hm0 & Ha0 & _ & _ & Hr0 & _).
  rewrite Hstart in Hrun. injection Hrun as <- <-.
  destruct Hr0 as (_ & Hon & Htimer & _ & Hone).
  destruct (beats_run env k (heartbeat_timer env) eq_refl (process h') Htimer)
    as (w1 & evs1 & Hbeats & Hc1 & Hk & Hsum & Ht1 & Hr1 & Ha1 & _).
  destruct (stop_run env polls w1)
    as (r & w' & logs & Hstop & Hr & Hc & Hlogs & Ha & Hm & _ & _ & _ & _
        & Hoff & Hclear & _ & Hidle).
  exists w1, r, w', (evs0 ++ evs1 ++ logs)%list. do 3 (split; [done|]).
  split; [eapply continues_trans; [done|by eapply continues_trans]|].
  split.
  { rewrite !count_app, Hone, Hk, (count_no_fetch is_fetch logs);
      [lia|done|]. by apply logs_no_fetch. }
  split.
  { unfold heartbeats, heartbeatErrors in *. rewrite Hm, Hsum, Hm0. done. }
  split; [done|]. rewrite Hr1, Hon, Ht1 in Hclear.
  split; [done|]. split; [by rewrite Ha, Ha1|].
  split.
  - intros Hempty. apply Hidle. by rewrite Ha1, Ha0, Hempty.
  - intros j. by eapply beats_cleared.
Qed.

(** X23 with three periods between the start and the stop: four requests
    and three heartbeats counted. *)
Lemma start_then_stop_witness :
  ∃ w1 r w' evs,
    beats (mock_env funded) 3
      (process (start (mock_env funded) mock_net
                  (sample_host (sample_world [relay1] false))).2) =
      (Settled (Ok tt), w1)
    ∧ stop (mock_env funded) 0 w1 = (r, w')
    ∧ (r = Settled (Ok tt) ∨ r = Pending)
    ∧ continues (process (sample_host (sample_world [relay1] false))) w' evs
    ∧ count is_fetch evs = 4%nat
    ∧ (heartbeats w' + heartbeatErrors w' =
         heartbeats (process (sample_host (sample_world [relay1] false)))
         + heartbeatErrors
             (process (sample_host (sample_world [relay1] false))) + 3)%nat
    ∧ isRunning (node w') = false
    ∧ heartbeatInterval (node w') =
        Some (clear (heartbeat_timer (mock_env funded)))
    ∧ activeOffers (node w') =
        activeOffers (node (process (sample_host (sample_world [relay1]
                                                    false))))
    ∧ (activeOffers (node (process (sample_host (sample_world [relay1]
                                                   false)))) = ∅ →
       r = Settled (Ok tt))
    ∧ ∀ j, beats (mock_env funded) j w' = (Settled (Ok tt), w').
Proof.
  apply (start_then_stop (mock_env funded) mock_net 0 3
           (sample_host (sample_world [relay1] false))).
  vm_compute. reflexivity.
Defined.

(** ** [HealthServer] *)

(** What [getBalances] adds to the trace. *)
Lemma getBalances_from_events (env : Env) (keypairs : list Keypair) :
  ∀ (index : nat) (balances : list WalletBalance) (w : World),
  ∃ r w' evs,
    getBalances_from env index keypairs balances w = (r, w')
    ∧ continues w w' evs
    ∧ Forall balance_event evs.
Proof.
  induction keypairs as [|keypair rest IH]; intros index balances w.
  - eexists _, w, []. cbn. split; [done|]. split; [apply continues_refl|].
    done.
  - cbn [getBalances_from].
    unfold mbind at 1, Js_bind, js_bind.
    match goal with |- context [try_catch ?body ?handler w] =>
      assert (∃ entry w1 evs1,
        try_catch body handler w = (Settled (Ok entry), w1)
        ∧ continues w w1 evs1 ∧ Forall balance_event evs1)
        as (entry & w1 & evs1 & -> & Hc1 & Hl1)
    end.
    { unfold usdcBalance, logger_warn, continues. js_unfold. cbn.
      repeat case_match; simplify_eq; eexists _, _, _;
        (split; [done|]); cbn; rewrite <- ?app_assoc; cbn;
        (split; [first [done | symmetry; apply app_nil_r]|]);
        repeat constructor; eauto. }
    destruct (IH (S index) (balances ++ [entry])%list w1)
      as (r & w' & evs & -> & Hc & Hl).
    exists r, w', (evs1 ++ evs)%list. split; [done|].
    split; [by eapply continues_trans|]. by apply Forall_app.
Qed.

Lemma getHealthStatus_events (env : Env) (w : World) :
  ∃ hs w' evs,
    getHealthStatus env w = (Settled (Ok hs), w')
    ∧ continues w w' evs
    ∧ Forall balance_event evs
    ∧ node w' = node w.
Proof.
  destruct (getHealthStatus_spec env w)
    as (balances & w1 & hs & w' & evs & Hb & Hrun & Hc & _ & Hn & _).
  exists hs, w', evs. do 2 (split; [done|]). split; [|done].
  unfold getBalances in Hb. unfold mbind, Js_bind, js_bind, get_node in Hb.
  destruct (getBalances_from_events env (relayKeypairs (walletManager (node w)))
              0 [] w) as (r & w2 & evs2 & Hrun2 & Hc2 & Hl2).
  rewrite Hb in Hrun2. injection Hrun2 as <- <-.
  unfold getHealthStatus, getSnapshot in Hrun.
  unfold mbind at 1, Js_bind, js_bind in Hrun.
  unfold getBalances in Hrun.
  unfold mbind at 1, Js_bind, js_bind, get_node at 1 in Hrun.
  rewrite Hb in Hrun. js_unfold. cbn in Hrun. injection Hrun as _ <-.
  unfold continues in *. cbn in Hc. rewrite Hc2 in Hc.
  apply app_inv_head in Hc. by subst evs2.
Qed.

(** The server of the node: its callback is [getHealthStatus]. *)
Lemma handleRequest_run (env : Env) (req_method : string)
    (req_url : option string) (h : Host) :
  ∃ hs w1 reply h' evs,
    getHealthStatus env (process h) = (Settled (Ok hs), w1)
    ∧ handleRequest env (getHealthStatus env) req_method req_url h =
        (Settled (Ok reply), h')
    ∧ continues (process h) (process h') evs
    ∧ Forall chain_or_log evs
    ∧ node (process h') = node (process h)
    ∧ console h' = console h
    ∧ (∀ header, header ∈ cors → header ∈ reply_headers reply)
    ∧ statusCode reply =
        (if bool_decide (req_method = "OPTIONS") then 204
         else if bool_decide (route req_url = "/health")
                 || bool_decide (route req_url = "/")
         then health_code hs
         else if bool_decide (route req_url = "/metrics") then 200
         else if bool_decide (route req_url = "/ready") then ready_code hs
         else 404)
    ∧ (∃ chain,
         continues (process h) w1 chain
         ∧ Forall balance_event chain
         ∧ evs = if asks_status req_method req_url then chain else []).
Proof.
  destruct (getHealthStatus_spec env (process h))
    as (balances & w0 & hs & w1 & evs & _ & Hrun & Hc & Hl & Hn & _).
  destruct (getHealthStatus_events env (process h))
    as (hs' & w1' & evs' & Hrun' & Hc' & Hl' & _).
  rewrite Hrun in Hrun'. injection Hrun' as <- <-.
  assert (evs' = evs) as ->.
  { unfold continues in *. rewrite Hc in Hc'. by apply app_inv_head in Hc'. }
  exists hs, w1. unfold handleRequest, asks_status, route.
  assert (Hcors : ∀ header rest,
    header ∈ cors → header ∈ (cors ++ rest)%list).
  { intros header rest Hin. apply elem_of_app. by left. }
  destruct (bool_decide (req_method = "OPTIONS")).
  { host_unfold. eexists _, _, []. split; [done|]. split; [done|].
    split; [apply continues_refl|]. do 5 (split; [done|]). by exists evs. }
  cbn [negb andb]. cbv zeta.
  unfold handleHealth, handleMetrics, handleReady, handleNotFound,
    health_code, ready_code.
  host_unfold. rewrite Hrun. js_unfold. unfold continues in *.
  repeat match goal with
  | |- context [@bool_decide (or_default req_url "/" = ?p) ?d] =>
      destruct (@bool_decide (or_default req_url "/" = p) d)
  end; cbn [orb].
  all: repeat case_match; simplify_eq; cbn;
    eexists _, _, _; (split; [done|]); (split; [done|]); cbn.
  all: first
    [ split; [exact Hc|]; split; [done|]
    | split; [symmetry; apply app_nil_r|]; split; [done|] ].
  all: do 2 (split; [done|]).
  all: split; [intros header Hin; exact (Hcors header json Hin)|].
  all: split; [first [done | congruence]|].
  all: by exists evs.
Qed.

(** X24.  The health server of the node answers every request and never
    with an internal error: the status code is 204 for any OPTIONS request,
    404 for a path that is not served, that of the health status for
    [/health] and [/] (503 when unhealthy, else 200), 200 for [/metrics],
    and that of readiness for [/ready] (200 when ready, else 503).  Every
    reply carries the CORS headers.  Serving a request is read-only: the
    node is left as it was, the server logs nothing, and nothing is sent to
    the dispatcher: for the paths that are served the process does what
    [getHealthStatus] does, which looks up the token accounts and warns
    about each balance query that failed, and for the others it does
    nothing. *)
Theorem health_server_replies (env : Env) (req_method : string)
    (req_url : option string) (h : Host) :
  ∃ hs w1 chain reply h',
    getHealthStatus env (process h) = (Settled (Ok hs), w1)
    ∧ continues (process h) w1 chain
    ∧ Forall balance_event chain
    ∧ handleRequest env (getHealthStatus env) req_method req_url h =
        (Settled (Ok reply), h')
    ∧ continues (process h) (process h')
        (if asks_status req_method req_url then chain else [])
    ∧ node (process h') = node (process h)
    ∧ console h' = console h
    ∧ (∀ header, header ∈ cors → header ∈ reply_headers reply)
    ∧ statusCode reply =
        (if bool_decide (req_method = "OPTIONS") then 204
         else if bool_decide (route req_url = "/health")
                 || bool_decide (route req_url = "/")
         then health_code hs
         else if bool_decide (route req_url = "/metrics") then 200
         else if bool_decide (route req_url = "/ready") then ready_code hs
         else 404).
Proof.
  destruct (handleRequest_run env req_method req_url h)
    as (hs & w1 & reply & h' & evs & Hhs & Hrun & Hc & Hl & Hn & Hcon & Hcors
        & Hcode & chain & Hchain & Hevents & ->).
  by exists hs, w1, chain, reply, h'.
Qed.

(** The probe of a node whose RPC node is down: the reply is 503, and the
    failed balance query is in the log of the wallet manager. *)
Lemma health_server_replies_example :
  ∃ reply h',
    handleRequest rpc_down_env (getHealthStatus rpc_down_env) "GET"
      (Some "/health") (sample_host (sample_world [relay1] true)) =
      (Settled (Ok reply), h')
    ∧ statusCode reply = 503
    ∧ console h' = []
    ∧ trace (process h') =
        [Log {| level := WARN; component := "WalletManager";
                message :=
                  FailedToGetBalance 1 (JsError "RPC node unreachable") |}].
Proof. eexists _, _. split; [vm_compute; reflexivity|]. by repeat split. Qed.

(** X25.  What the probes say about the wallets.  [/health] answers 503
    exactly when the status is unhealthy, that is when the node has wallets
    and each of them holds less than 0.01 SOL.  [/ready] answers 200 exactly
    when the status is not unhealthy and some wallet is active (at least
    0.001 SOL).  So a node that reports ready also reports healthy or
    degraded, and a node whose wallets are all below 0.01 SOL fails both
    probes. *)
Theorem probes_follow_wallets (env : Env) (h : Host) :
  ∃ hs w1 health ready h1 h2,
    getHealthStatus env (process h) = (Settled (Ok hs), w1)
    ∧ handleRequest env (getHealthStatus env) "GET" (Some "/health") h =
        (Settled (Ok health), h1)
    ∧ handleRequest env (getHealthStatus env) "GET" (Some "/ready") h =
        (Settled (Ok ready), h2)
    ∧ (statusCode health = 503 ↔ status hs = unhealthy)
    ∧ (statusCode ready = 200
       ↔ status hs ≠ unhealthy ∧ ∃ b, b ∈ wallets hs ∧ isActive b = true)
    ∧ (statusCode ready = 200 → statusCode health = 200)
    ∧ (pool (process h) ≠ [] →
       (∀ b, b ∈ wallets hs → lowBalance b = true) →
       statusCode health = 503 ∧ statusCode ready = 503).
Proof.
  destruct (handleRequest_run env "GET" (Some "/health") h)
    as (hs & w1 & health & h1 & evs1 & Hhs & Hrun1 & _ & _ & _ & _ & _
        & Hcode1 & _).
  destruct (handleRequest_run env "GET" (Some "/ready") h)
    as (hs' & w1' & ready & h2 & evs2 & Hhs' & Hrun2 & _ & _ & _ & _ & _
        & Hcode2 & _).
  rewrite Hhs in Hhs'. injection Hhs' as <- <-.
  exists hs, w1, health, ready, h1, h2. do 3 (split; [done|]).
  change (statusCode health = health_code hs) in Hcode1.
  change (statusCode ready = ready_code hs) in Hcode2.
  rewrite Hcode1, Hcode2.
  unfold health_code, ready_code, isReady.
  assert (Hactive : existsb isActive (wallets hs) = true
                    ↔ ∃ b, b ∈ wallets hs ∧ isActive b = true).
  { rewrite existsb_exists. split; intros (b & Hb & ?); exists b;
      (split; [|done]); by apply list_elem_of_In. }
  split; [|split; [|split]].
  - by destruct (status hs).
  - destruct (status hs); cbn; rewrite <- Hactive;
      destruct (existsb isActive (wallets hs)); split; try done;
      intros [Hok Hb]; first [discriminate Hb | by destruct Hok].
  - by destruct (status hs), (existsb isActive (wallets hs)).
  - intros Hne Hall.
    destruct (getHealthStatus_spec env (process h))
      as (balances & w0 & hs0 & w2 & evs & _ & Hrun & _ & _ & _ & Hw & Hs
          & Hk).
    rewrite Hhs in Hrun. injection Hrun as <- <-.
    assert (Hl : wallets hs ≠ []).
    { intros He. rewrite <- Hw, He in Hk.
      destruct (pool (process h)); [by destruct Hne|discriminate Hk]. }
    assert (Hu : status hs = unhealthy).
    { rewrite Hs, <- Hw. by apply healthLevel_spec. }
    by rewrite Hu.
Qed.

Lemma probes_follow_wallets_witness :
  ∃ hs w1 health ready h1 h2,
    getHealthStatus (mock_env low_balances)
      (process (sample_host (sample_world [relay1; relay2; relay3] true))) =
      (Settled (Ok hs), w1)
    ∧ handleRequest (mock_env low_balances)
        (getHealthStatus (mock_env low_balances)) "GET" (Some "/health")
        (sample_host (sample_world [relay1; relay2; relay3] true)) =
        (Settled (Ok health), h1)
    ∧ handleRequest (mock_env low_balances)
        (getHealthStatus (mock_env low_balances)) "GET" (Some "/ready")
        (sample_host (sample_world [relay1; relay2; relay3] true)) =
        (Settled (Ok ready), h2)
    ∧ statusCode health = 503 ∧ statusCode ready = 503.
Proof.
  destruct (probes_follow_wallets (mock_env low_balances)
              (sample_host (sample_world [relay1; relay2; relay3] true)))
    as (hs & w1 & health & ready & h1 & h2 & Hhs & Hrun1 & Hrun2 & _ & _ & _
        & Hlow).
  exists hs, w1, health, ready, h1, h2. do 3 (split; [done|]).
  apply Hlow; [done|].
  let r := eval vm_compute in
    (getHealthStatus (mock_env low_balances)
       (process (sample_host (sample_world [relay1; relay2; relay3] true))))
  in
  assert (Hv : getHealthStatus (mock_env low_balances)
                 (process (sample_host
                             (sample_world [relay1; relay2; relay3] true)))
               = r) by (vm_compute; reflexivity).
  pose proof (eq_trans (eq_sym Hv) Hhs) as Heq.
  injection Heq as <- <-. cbn [wallets].
  intros b Hb. elem_of_run Hb; subst b; vm_compute; reflexivity.
Defined.

(** X26.  When the callback of a health server throws, a request for a
    probe is answered with status 500 and the error's message, and the
    error is logged, provided the logger can write the error and the error
    has a message to read: for an error object that holds a [bigint] the
    log statement throws, and for [null] and [undefined] reading
    [error.message] throws after the error has been logged; in both cases
    [handleRequest] rejects and no reply is completed.  OPTIONS requests
    and paths that are not served do not call the callback and are answered
    as usual. *)
Theorem callback_failure_is_reported (env : Env) (callback : Js HealthStatus)
    (e : thrown) (w1 : World) (req_method : string)
    (req_url : option string) (h : Host) :
  callback (process h) = (Settled (Throw e), w1) →
  ∃ r h',
    handleRequest env callback req_method req_url h = (Settled r, h')
    ∧ (req_method ≠ "OPTIONS" →
       route req_url ∈ ["/health"; "/"; "/metrics"; "/ready"] →
       process h' = w1
       ∧ (json_writable e = false →
          r = Throw bigint_not_serializable ∧ console h' = console h)
       ∧ (json_writable e = true →
          console h' =
            (console h
               ++ [host_line ERROR "HealthServer" (RequestHandlerError e)])%list
          ∧ match message_of e with
            | Ok message_ =>
                ∃ reply,
                  r = Ok reply
                  ∧ statusCode reply = 500
                  ∧ reply_body reply =
                      ErrorReply "Internal server error" message_
            | Throw reading => r = Throw reading
            end))
    ∧ (req_method = "OPTIONS" →
       ∃ reply, r = Ok reply ∧ statusCode reply = 204 ∧ h' = h)
    ∧ (req_method ≠ "OPTIONS" →
       route req_url ∉ ["/health"; "/"; "/metrics"; "/ready"] →
       ∃ reply, r = Ok reply ∧ statusCode reply = 404 ∧ h' = h)
    ∧ (is_Some (match message_of e with
                | Ok _ => None
                | Throw reading => Some reading
                end)
       ↔ e = JsNull ∨ e = JsUndefined).
Proof.
  intros Hcb.
  assert (Hnullish :
    is_Some (match message_of e with
             | Ok _ => None
             | Throw reading => Some reading
             end)
    ↔ e = JsNull ∨ e = JsUndefined).
  { destruct e; cbn; split; try (by intros [? [=]]); try (by intros [|]);
      try (intros _; by eexists); auto. }
  unfold handleRequest, route.
  case_bool_decide as Hm.
  { host_unfold. eexists _, _. split; [done|].
    split; [done|]. split; [by eexists|]. split; [done|]. exact Hnullish. }
  unfold handleHealth, handleMetrics, handleReady, handleNotFound,
    handleError, host_line.
  host_unfold. js_unfold.
  destruct (json_writable e) eqn:Hjson; destruct (message_of e) eqn:Hmsg;
    repeat case_bool_decide; cbn; rewrite ?Hcb; cbn; rewrite ?Hjson; cbn;
    rewrite ?Hmsg; cbn; eexists _, _; (split; [done|]); cbn.
  all: split; [intros _ Hin|split; [done|split; [intros _ Hout|done]]].
  all: try (rewrite !not_elem_of_cons in Hout;
            by destruct Hout as (? & ? & ? & ? & _)).
  all: try (elem_of_run Hin; done).
  all: try (destruct h; by eexists).
  all: split; [done|]; split; [done|]; intros _; split; [done|].
  all: first [done | by eexists].
Qed.

(** X26 for a callback that throws an [Error]: the reply is 500 with the
    message of the error. *)
Lemma callback_failure_is_reported_witness :
  ∃ reply h',
    handleRequest (mock_env funded) failing_callback "GET" (Some "/ready")
      (sample_host (sample_world [relay1] true)) = (Settled (Ok reply), h')
    ∧ statusCode reply = 500
    ∧ reply_body reply =
        ErrorReply "Internal server error" (Some "RPC node unreachable").
Proof.
  destruct (callback_failure_is_reported (mock_env funded) failing_callback
              (JsError "RPC node unreachable") (sample_world [relay1] true)
              "GET" (Some "/ready")
              (sample_host (sample_world [relay1] true)) eq_refl)
    as (r & h' & Hrun & Hfail & _).
  destruct Hfail as (_ & _ & Hreply); [done|in_list|].
  destruct (Hreply eq_refl) as (_ & reply & -> & Hcode & Hbody).
  by exists reply, h'.
Defined.

(** A callback that throws [undefined]: the error is logged, and
    [handleRequest] rejects with the [TypeError] of reading its message. *)
Lemma callback_failure_is_reported_example :
  ∃ h',
    handleRequest (mock_env funded) throwing_undefined "GET" (Some "/ready")
      (sample_host (sample_world [relay1] true)) =
      (Settled (Throw (JsErrorOf "TypeError"
         "Cannot read properties of undefined (reading 'message')")), h')
    ∧ console h' =
        [host_line ERROR "HealthServer" (RequestHandlerError JsUndefined)].
Proof. eexists. split; vm_compute; reflexivity. Qed.
